(** * Worktree conflict resolvers: [resolve_cargo_conflict.py] and
    [resolve_librs_conflict.py]

    A shallow embedding of the two merge-conflict resolvers under
    [tools/worktree/] and the properties of the specification checked
    against them.

    Text is a list of characters.  A character is a code point in
    U+0000..U+00FF carried by [ascii]; the classes [\s] and [\w] below
    are the ones Python's [re] uses for [str] patterns on that range.
    The file content is the text as [Path.read_text] returns it. *)

From Stdlib Require Import Ascii String List Bool Arith Lia Permutation Sorted.
Import ListNotations.

Set Implicit Arguments.

Definition text := list ascii.

Definition txt (s : string) : text := list_ascii_of_string s.

Definition nl : ascii := "010"%char.
Definition dq : ascii := "034"%char.
Definition bs : ascii := "092"%char.

(** ** Character classes *)

Definition code (c : ascii) : nat := nat_of_ascii c.

Definition between (lo hi : nat) (c : ascii) : bool :=
  (lo <=? code c) && (code c <=? hi).

(** [str.isspace] and [\s]. *)
Definition is_space (c : ascii) : bool :=
  between 9 13 c || between 28 32 c || (code c =? 133) || (code c =? 160).

(** [\w]: alphanumerics and the underscore. *)
Definition is_word (c : ascii) : bool :=
  between 48 57 c || between 65 90 c || (code c =? 95) || between 97 122 c
  || (code c =? 170) || between 178 179 c || (code c =? 181)
  || between 185 186 c || between 188 190 c || between 192 214 c
  || between 216 246 c || between 248 255 c.

Definition any_char (_ : ascii) : bool := true.
Definition is_nl (c : ascii) : bool := Ascii.eqb c nl.
Definition not_nl (c : ascii) : bool := negb (Ascii.eqb c nl).
Definition not_dq (c : ascii) : bool := negb (Ascii.eqb c dq).
Definition not_rparen (c : ascii) : bool := negb (Ascii.eqb c ")"%char).

(** ** Plain string operations *)

(** [s.startswith(w)], returning what follows the prefix. *)
Fixpoint strip_prefix (w s : text) : option text :=
  match w with
  | [] => Some s
  | a :: w' =>
      match s with
      | [] => None
      | b :: s' => if Ascii.eqb a b then strip_prefix w' s' else None
      end
  end.

Definition startswith (w s : text) : bool :=
  match strip_prefix w s with Some _ => true | None => false end.

(** [w in s]. *)
Fixpoint contains (w s : text) : bool :=
  startswith w s || match s with [] => false | _ :: s' => contains w s' end.

(** [s.endswith('\n')] *)
Definition endswith_nl (s : text) : bool :=
  match s with
  | [] => false
  | c :: s' => is_nl (last s' c)
  end.

(** [s.split('\n')]: never empty. *)
Fixpoint split_nl (s : text) : list text :=
  match s with
  | [] => [[]]
  | c :: s' =>
      if is_nl c then [] :: split_nl s'
      else match split_nl s' with
           | l :: ls => (c :: l) :: ls
           | [] => [[c]]
           end
  end.

(** ['\n'.join(ls)]. *)
Fixpoint join_nl (ls : list text) : text :=
  match ls with
  | [] => []
  | [l] => l
  | l :: ls' => l ++ nl :: join_nl ls'
  end.

Fixpoint lstrip (s : text) : text :=
  match s with
  | c :: s' => if is_space c then lstrip s' else s
  | [] => []
  end.

(** [s.strip()]. *)
Definition strip (s : text) : text := rev (lstrip (rev (lstrip s))).

Fixpoint text_eqb (a b : text) : bool :=
  match a, b with
  | [], [] => true
  | x :: a', y :: b' => Ascii.eqb x y && text_eqb a' b'
  | _, _ => false
  end.

(** Order of [str]: by code point, a proper prefix first. *)
Fixpoint text_ltb (a b : text) : bool :=
  match a, b with
  | _, [] => false
  | [], _ :: _ => true
  | x :: a', y :: b' =>
      (code x <? code y) || ((code x =? code y) && text_ltb a' b')
  end.

(** ** The backtracking matcher of [re]

    The patterns of the two tools use literals, one-character classes
    under [*], [+], [*?] and [{3,}], concatenation, the greedy optional
    group [(?:...)?] and capturing groups.  [run] explores the
    alternatives in the order of [re]: a greedy repetition tries the
    longest run first, a lazy one the shortest, an optional group is
    tried before it is skipped; the first alternative for which the
    rest of the pattern succeeds is the match. *)

Module Re.

Inductive re : Type :=
| Lit (w : text)
| Rep (greedy : bool) (lo : nat) (cls : ascii -> bool)
| Seq (r1 r2 : re)
| Opt (r : re)
| Grp (i : nat) (r : re).

(** Captured groups, most recent binding first. *)
Definition caps := list (nat * text).

Fixpoint lookup (i : nat) (c : caps) : option text :=
  match c with
  | [] => None
  | (j, t) :: c' => if Nat.eqb i j then Some t else lookup i c'
  end.

(** [match.group(i) or ""]. *)
Definition group (c : caps) (i : nat) : text :=
  match lookup i c with Some t => t | None => [] end.

Section Backtrack.
Variable A : Type.

Fixpoint lazy0 (cls : ascii -> bool) (s : text) (k : text -> option A)
  : option A :=
  match k s with
  | Some x => Some x
  | None =>
      match s with
      | c :: s' => if cls c then lazy0 cls s' k else None
      | [] => None
      end
  end.

Fixpoint greedy0 (cls : ascii -> bool) (s : text) (k : text -> option A)
  : option A :=
  match s with
  | c :: s' =>
      if cls c
      then match greedy0 cls s' k with
           | Some x => Some x
           | None => k s
           end
      else k s
  | [] => k []
  end.

Fixpoint exactly (cls : ascii -> bool) (n : nat) (s : text)
  (k : text -> option A) : option A :=
  match n with
  | 0 => k s
  | S n' =>
      match s with
      | c :: s' => if cls c then exactly cls n' s' k else None
      | [] => None
      end
  end.

Definition rep (greedy : bool) (lo : nat) (cls : ascii -> bool) (s : text)
  (k : text -> option A) : option A :=
  exactly cls lo s
    (fun s' => if greedy then greedy0 cls s' k else lazy0 cls s' k).

Fixpoint run (r : re) (s : text) (c : caps) (k : text -> caps -> option A)
  : option A :=
  match r with
  | Lit w =>
      match strip_prefix w s with
      | Some s' => k s' c
      | None => None
      end
  | Rep g lo cls => rep g lo cls s (fun s' => k s' c)
  | Seq r1 r2 => run r1 s c (fun s' c' => run r2 s' c' k)
  | Opt r' =>
      match run r' s c k with
      | Some x => Some x
      | None => k s c
      end
  | Grp i r' =>
      run r' s c
        (fun s' c' => k s' ((i, firstn (length s - length s') s) :: c'))
  end.
End Backtrack.

(** A match starting at the head of [s]: the groups (group 0 is the whole
    match) and the text after the match. *)
Definition match_at (r : re) (s : text) : option (caps * text) :=
  run r s []
    (fun s' c => Some ((0, firstn (length s - length s') s) :: c, s')).

(** [re.search]: the leftmost position with a match. Returns the text
    before the match, the groups and the text after the match. *)
Fixpoint search (r : re) (s : text) : option (text * caps * text) :=
  match match_at r s with
  | Some (c, rest) => Some ([], c, rest)
  | None =>
      match s with
      | [] => None
      | a :: s' =>
          match search r s' with
          | Some (pre, c, rest) => Some (a :: pre, c, rest)
          | None => None
          end
      end
  end.

(** The scan shared by [re.finditer] and [re.sub]: positions are visited
    from left to right, [skip] counts the characters still covered by
    the previous match. *)
Fixpoint scan (r : re) (s : text) (skip : nat) : list (text + caps) :=
  match s with
  | [] =>
      match skip, match_at r [] with
      | 0, Some (c, _) => [inr c]
      | _, _ => []
      end
  | a :: s' =>
      match skip with
      | S n => scan r s' n
      | 0 =>
          match match_at r s with
          | Some (c, rest) =>
              match length s - length rest with
              | 0 => inr c :: inl [a] :: scan r s' 0
              | S n => inr c :: scan r s' n
              end
          | None => inl [a] :: scan r s' 0
          end
      end
  end.

(** [re.finditer(r, s)]: the groups of the successive matches. *)
Definition finditer (r : re) (s : text) : list caps :=
  flat_map (fun p => match p with inl _ => [] | inr c => [c] end)
    (scan r s 0).

(** [re.sub(r, f, s)] with a function [f] as replacement. *)
Definition sub (r : re) (f : caps -> text) (s : text) : text :=
  flat_map (fun p => match p with inl t => t | inr c => f c end)
    (scan r s 0).

(** *** Replacement templates

    A [str] replacement is a template: [re] compiles it before the scan,
    also when nothing matches.  A backslash starts a group reference, an
    octal escape or one of [\a \b \f \n \r \t \v \\]; a backslash before
    another ASCII letter, at the end, or a reference to a group the
    pattern does not have raises [re.error]; before any other character
    both are kept.  [\g<...>] is modelled for decimal numbers only: a
    name raises here as well, the patterns having no named group. *)

Inductive piece : Type :=
| Chars (t : text)
| Ref (i : nat).

Definition is_digit (c : ascii) : bool := between 48 57 c.
Definition is_octal (c : ascii) : bool := between 48 55 c.
Definition is_ascii_letter (c : ascii) : bool :=
  between 65 90 c || between 97 122 c.
Definition digit (c : ascii) : nat := code c - 48.

Definition escape (c : ascii) : option ascii :=
  if Ascii.eqb c "a" then Some "007"%char
  else if Ascii.eqb c "b" then Some "008"%char
  else if Ascii.eqb c "f" then Some "012"%char
  else if Ascii.eqb c "n" then Some "010"%char
  else if Ascii.eqb c "r" then Some "013"%char
  else if Ascii.eqb c "t" then Some "009"%char
  else if Ascii.eqb c "v" then Some "011"%char
  else if Ascii.eqb c bs then Some bs
  else None.

(** The digits of [\g<digits>]: value and what follows [>]. *)
Fixpoint group_number (acc : nat) (some : bool) (s : text)
  : option (nat * text) :=
  match s with
  | c :: s' =>
      if is_digit c then group_number (10 * acc + digit c) true s'
      else if Ascii.eqb c ">" && some then Some (acc, s') else None
  | [] => None
  end.

Definition ref (groups i : nat) : option piece :=
  if i <=? groups then Some (Ref i) else None.

(** One escape, after the backslash: the piece and the remaining
    template. *)
Definition template_escape (groups : nat) (s : text)
  : option (piece * text) :=
  match s with
  | [] => None
  | c :: s1 =>
      if Ascii.eqb c "g" then
        match s1 with
        | d :: s2 =>
            if Ascii.eqb d "<" then
              match group_number 0 false s2 with
              | Some (i, s3) =>
                  match ref groups i with
                  | Some p => Some (p, s3)
                  | None => None
                  end
              | None => None
              end
            else None
        | [] => None
        end
      else if Ascii.eqb c "0" then
        match s1 with
        | d1 :: s2 =>
            if is_octal d1 then
              match s2 with
              | d2 :: s3 =>
                  if is_octal d2
                  then Some (Chars [ascii_of_nat
                                      ((8 * digit d1 + digit d2) mod 256)], s3)
                  else Some (Chars [ascii_of_nat (digit d1)], s2)
              | [] => Some (Chars [ascii_of_nat (digit d1)], s2)
              end
            else Some (Chars [zero], s1)
        | [] => Some (Chars [zero], s1)
        end
      else if is_digit c then
        match s1 with
        | d1 :: s2 =>
            if is_digit d1 then
              match s2 with
              | d2 :: s3 =>
                  if is_octal c && is_octal d1 && is_octal d2 then
                    let v := 64 * digit c + 8 * digit d1 + digit d2 in
                    if v <=? 255 then Some (Chars [ascii_of_nat v], s3)
                    else None
                  else
                    match ref groups (10 * digit c + digit d1) with
                    | Some p => Some (p, s2)
                    | None => None
                    end
              | [] =>
                  match ref groups (10 * digit c + digit d1) with
                  | Some p => Some (p, s2)
                  | None => None
                  end
              end
            else
              match ref groups (digit c) with
              | Some p => Some (p, s1)
              | None => None
              end
        | [] =>
            match ref groups (digit c) with
            | Some p => Some (p, s1)
            | None => None
            end
        end
      else
        match escape c with
        | Some e => Some (Chars [e], s1)
        | None =>
            if is_ascii_letter c then None else Some (Chars [bs; c], s1)
        end
  end.

(** [parse_template]: [None] when [re.error] is raised. *)
Fixpoint parse_template (fuel : nat) (groups : nat) (s : text)
  : option (list piece) :=
  match fuel with
  | 0 => Some []
  | S fuel' =>
      match s with
      | [] => Some []
      | c :: s' =>
          if Ascii.eqb c bs then
            match template_escape groups s' with
            | Some (p, rest) =>
                match parse_template fuel' groups rest with
                | Some ps => Some (p :: ps)
                | None => None
                end
            | None => None
            end
          else
            match parse_template fuel' groups s' with
            | Some ps => Some (Chars [c] :: ps)
            | None => None
            end
      end
  end.

Definition expand (ps : list piece) (c : caps) : text :=
  flat_map (fun p => match p with Chars t => t | Ref i => group c i end) ps.

(** [re.sub(r, template, s)] for a pattern with [groups] groups: [None]
    when the template raises. *)
Definition sub_template (groups : nat) (r : re) (template s : text)
  : option text :=
  match parse_template (length template) groups template with
  | Some ps => Some (sub r (expand ps) s)
  | None => None
  end.

End Re.

Declare Scope re_scope.
Delimit Scope re_scope with re.
Bind Scope re_scope with Re.re.
Infix ";;" := Re.Seq (at level 61, right associativity) : re_scope.

(** ** Sets of strings and sorting

    A [set] of [str] is a list without duplicates.  [sorted] on strings
    is a total order, so its result does not depend on the order in
    which the set is iterated. *)

Fixpoint mem (x : text) (s : list text) : bool :=
  match s with
  | [] => false
  | y :: s' => text_eqb x y || mem x s'
  end.

(** [s.add(x)] *)
Definition set_add (x : text) (s : list text) : list text :=
  if mem x s then s else s ++ [x].

(** [s.update(t)] *)
Definition set_update (s t : list text) : list text :=
  fold_left (fun acc x => set_add x acc) t s.

Section Sorting.
Variable A : Type.
Variable key : A -> text.

(** Insertion after the elements whose key is not greater: the sort is
    stable, as [sorted] is. *)
Fixpoint insert_by (x : A) (l : list A) : list A :=
  match l with
  | [] => [x]
  | y :: l' =>
      if text_ltb (key x) (key y) then x :: l else y :: insert_by x l'
  end.

(** [sorted(l, key=key)] *)
Definition sorted_by (l : list A) : list A :=
  fold_left (fun acc x => insert_by x acc) l [].
End Sorting.

(** [sorted(l)] *)
Definition sorted (l : list text) : list text := sorted_by (fun x => x) l.

(** ** What a run of a tool leaves behind *)

(** The lines printed; the path is the argument of the run.
    - [NotFound]: "Error: File not found: <path>" (stderr)
    - [NoMarkers]: "No conflict markers found in <path>" (stdout)
    - [NoMembers]: "Warning: No workspace members found in <path>" (stderr)
    - [Resolved]: "Resolved <path>" (stdout)
    - [Merged n]: "  Merged <n> workspace members:" or
      "  Merged <n> pub mod declarations:" (stdout)
    - [Item t]: "    - <t>" (stdout)
    - [Failure]: "Error: <exception>" (stderr), printed by [main]. *)
Inductive message : Type :=
| NotFound
| NoMarkers
| NoMembers
| Resolved
| Merged (n : nat)
| Item (t : text)
| Failure.

(** How the call of the resolver ends. *)
Inductive ending : Type :=
| Returns (ok : bool)
| Raises.

Record outcome : Type := Outcome {
  stdout : list message;
  stderr : list message;
  written : option text;   (* the argument of [write_text], if called *)
  result : ending
}.

(** [sys.exit] in [main]. *)
Definition exit_code (o : outcome) : nat :=
  match result o with
  | Returns true => 0
  | Returns false => 1
  | Raises => 1
  end.


(** [re.sub(r'\n{3,}', '\n\n', resolved)] *)
Definition blank_run : Re.re := Re.Rep true 3 is_nl.
Definition collapse_blank (s : text) : text :=
  Re.sub blank_run (fun _ => [nl; nl]) s.

(** ** [resolve_cargo_conflict.py] *)

Module Cargo.
Import Re.
Local Open Scope re_scope.

(** [members\s*=\s*\[] *)
Definition members_open : re :=
  Lit (txt "members") ;; Rep true 0 is_space ;; Lit (txt "=") ;;
  Rep true 0 is_space ;; Lit (txt "[").

(** [members\s*=\s*\[(.*?)\]] *)
Definition members_pattern : re :=
  Lit (txt "members") ;; Rep true 0 is_space ;; Lit (txt "=") ;;
  Rep true 0 is_space ;; Lit (txt "[") ;; Grp 1 (Rep false 0 any_char) ;;
  Lit (txt "]").

(** [Q([^Q]+)Q], where [Q] stands for the double quote *)
Definition quoted_pattern : re :=
  Lit [dq] ;; Grp 1 (Rep true 1 not_dq) ;; Lit [dq].

Definition extract_members_from_block (block : text) : list text :=
  match search members_pattern block with
  | Some (_, c, _) =>
      fold_left (fun members m => set_add (group m 1) members)
        (finditer quoted_pattern (group c 1)) []
  | None => []
  end.

Definition start_marker : text := txt "<<<<<<<".
Definition separator_line : text := txt "=======" ++ [nl].
Definition end_marker : text := txt ">>>>>>>".

(** [<<<<<<<[^\n]*\n(.*?)(?:=======\n(.*?))?>>>>>>>[^\n]*\n?] *)
Definition conflict_pattern : re :=
  Lit start_marker ;; Rep true 0 not_nl ;; Lit [nl] ;;
  Grp 1 (Rep false 0 any_char) ;;
  Opt (Lit separator_line ;; Grp 2 (Rep false 0 any_char)) ;;
  Lit end_marker ;; Rep true 0 not_nl ;; Opt (Lit [nl]).

(** [(?:.*?members\s*=\s*\[.*?\].*?)?] *)
Definition members_side : re :=
  Opt (Rep false 0 any_char ;; Lit (txt "members") ;; Rep true 0 is_space ;;
       Lit (txt "=") ;; Rep true 0 is_space ;; Lit (txt "[") ;;
       Rep false 0 any_char ;; Lit (txt "]") ;; Rep false 0 any_char).

Definition members_conflict_pattern : re :=
  Lit start_marker ;; Rep true 0 not_nl ;; Lit [nl] ;;
  members_side ;;
  Lit separator_line ;;
  members_side ;;
  Lit end_marker ;; Rep true 0 not_nl ;; Opt (Lit [nl]).

(** [<<<<<<<[^\n]*\n(.*?)=======\n.*?>>>>>>>[^\n]*\n?] *)
Definition generic_pattern : re :=
  Lit start_marker ;; Rep true 0 not_nl ;; Lit [nl] ;;
  Grp 1 (Rep false 0 any_char) ;;
  Lit separator_line ;; Rep false 0 any_char ;;
  Lit end_marker ;; Rep true 0 not_nl ;; Opt (Lit [nl]).

(** [members\s*=\s*\[.*?\]] *)
Definition members_block_pattern : re :=
  Lit (txt "members") ;; Rep true 0 is_space ;; Lit (txt "=") ;;
  Rep true 0 is_space ;; Lit (txt "[") ;; Rep false 0 any_char ;;
  Lit (txt "]").

(** [(\[workspace\])] *)
Definition workspace_pattern : re := Grp 1 (Lit (txt "[workspace]")).

(** [sep.join(ls)] *)
Fixpoint join (sep : text) (ls : list text) : text :=
  match ls with
  | [] => []
  | [l] => l
  | l :: ls' => l ++ sep ++ join sep ls'
  end.

Definition quote (m : text) : text := dq :: m ++ [dq].

Definition new_members_block (sorted_members : list text) : text :=
  match sorted_members with
  | [] => txt "members = []"
  | _ =>
      txt "members = [" ++ nl :: txt "    " ++
      join (txt "," ++ nl :: txt "    ") (map quote sorted_members) ++
      txt "," ++ nl :: txt "]"
  end.

(** The members of both sides of every conflict block and of the text
    left when the blocks are removed. *)
Definition all_members (content : text) : list text :=
  let sides :=
    fold_left
      (fun acc m =>
         set_update (set_update acc (extract_members_from_block (group m 1)))
           (extract_members_from_block (group m 2)))
      (finditer conflict_pattern content) [] in
  let clean_content := sub conflict_pattern (fun _ => []) content in
  set_update sides (extract_members_from_block clean_content).

(** The two substitutions that remove the conflict blocks. *)
Definition remove_conflicts (content : text) : text :=
  let resolved := sub members_conflict_pattern (fun _ => []) content in
  sub generic_pattern (fun m => group m 1) resolved.

(** The replacement or insertion of the members block: [None] when
    [re.sub] raises on the replacement text. *)
Definition place_members (sorted_members : list text) (resolved : text)
  : option text :=
  let new_block := new_members_block sorted_members in
  match search members_open resolved with
  | Some _ => sub_template 0 members_block_pattern new_block resolved
  | None =>
      if contains (txt "[workspace]") resolved
         && negb (Nat.eqb (length sorted_members) 0)
      then sub_template 1 workspace_pattern
             (bs :: txt "1" ++ nl :: new_block) resolved
      else Some resolved
  end.

Definition report (sorted_members : list text) : list message :=
  match sorted_members with
  | [] => [Resolved]
  | _ => Resolved :: Merged (length sorted_members) :: map Item sorted_members
  end.

(** [file] is the content of the file at the path, [None] when the path
    does not exist. *)
Definition resolve_cargo_conflict (file : option text) : outcome :=
  match file with
  | None => Outcome [] [NotFound] None (Returns false)
  | Some content =>
      if negb (contains (txt "<<<<<<< ") content)
      then Outcome [NoMarkers] [] None (Returns true)
      else
        let members := all_members content in
        let warning := match members with [] => [NoMembers] | _ => [] end in
        let sorted_members := sorted members in
        match place_members sorted_members (remove_conflicts content) with
        | None => Outcome [] warning None Raises
        | Some resolved =>
            Outcome (report sorted_members) warning
              (Some (collapse_blank resolved)) (Returns true)
        end
  end.

(** [main]: the exception handler adds its line to stderr. *)
Definition main (file : option text) : outcome :=
  let o := resolve_cargo_conflict file in
  match result o with
  | Raises => Outcome (stdout o) (stderr o ++ [Failure]) (written o) Raises
  | Returns _ => o
  end.

End Cargo.

(** ** [resolve_librs_conflict.py] *)

Module LibRs.
Import Re.
Local Open Scope re_scope.

(** [pub(?:\([^)]+\))?\s+mod\s+\w+\s*;]: the pattern of [extract_pub_mods]
    and of the loop.  Both are used with [re.match], which tries the
    start of the line only, where the leading [^] holds. *)
Definition declaration : re :=
  Lit (txt "pub") ;;
  Opt (Lit (txt "(") ;; Rep true 1 not_rparen ;; Lit (txt ")")) ;;
  Rep true 1 is_space ;; Lit (txt "mod") ;; Rep true 1 is_space ;;
  Rep true 1 is_word ;; Rep true 0 is_space ;; Lit (txt ";").

Definition pub_mod_pattern : re := Grp 1 declaration.

Definition extract_pub_mods (block : text) : list text :=
  fold_left
    (fun mods line =>
       match match_at pub_mod_pattern (strip line) with
       | Some (c, _) => set_add (group c 1) mods
       | None => mods
       end)
    (split_nl block) [].

(** [mod\s+(\w+)] *)
Definition mod_name_pattern : re :=
  Lit (txt "mod") ;; Rep true 1 is_space ;; Grp 1 (Rep true 1 is_word).

Definition extract_mod_name (declaration : text) : text :=
  match search mod_name_pattern declaration with
  | Some (_, c, _) => group c 1
  | None => declaration
  end.

(** The variables of the loop over the lines. *)
Record scan_state : Type := State {
  resolved_lines : list text;
  all_pub_mods : list text;
  in_conflict : bool;
  conflict_section : text;
  pub_mods_insertion_point : option nat
}.

Definition initial : scan_state := State [] [] false [] None.

Definition start_prefix : text := txt "<<<<<<< ".
Definition separator_prefix : text := txt "=======".
Definition end_prefix : text := txt ">>>>>>> ".

Definition is_declaration (stripped : text) : bool :=
  match match_at declaration stripped with Some _ => true | None => false end.

Definition mark (st : scan_state) : option nat :=
  match pub_mods_insertion_point st with
  | None => Some (length (resolved_lines st))
  | p => p
  end.

(** One iteration of the [while] loop. *)
Definition step (st : scan_state) (line : text) : scan_state :=
  if startswith start_prefix line then
    State (resolved_lines st) (all_pub_mods st) true []
      (pub_mods_insertion_point st)
  else if startswith separator_prefix line then
    State (resolved_lines st)
      (set_update (all_pub_mods st) (extract_pub_mods (conflict_section st)))
      (in_conflict st) [] (pub_mods_insertion_point st)
  else if startswith end_prefix line then
    State (resolved_lines st)
      (set_update (all_pub_mods st) (extract_pub_mods (conflict_section st)))
      false [] (mark st)
  else if in_conflict st then
    State (resolved_lines st) (all_pub_mods st) true
      (conflict_section st ++ line ++ [nl]) (pub_mods_insertion_point st)
  else if is_declaration (strip line) then
    State (resolved_lines st) (set_add (strip line) (all_pub_mods st)) false
      (conflict_section st) (mark st)
  else
    State (resolved_lines st ++ [line]) (all_pub_mods st) false
      (conflict_section st) (pub_mods_insertion_point st).

Definition scan_lines (lines : list text) : scan_state :=
  fold_left step lines initial.

(** [l.insert(i, x)] for [i >= 0]: past the end it appends. *)
Definition list_insert (i : nat) (x : text) (l : list text) : list text :=
  firstn i l ++ x :: skipn i l.

(** [for j, mod_decl in enumerate(sorted_mods):
       resolved_lines.insert(insert_at + j, mod_decl)] *)
Fixpoint insert_all (insert_at : nat) (sorted_mods l : list text)
  : list text :=
  match sorted_mods with
  | [] => l
  | m :: ms => insert_all (S insert_at) ms (list_insert insert_at m l)
  end.

(** The loop that looks for the end of the [use] statements. *)
Fixpoint after_uses (idx insert_at : nat) (lines : list text) : nat :=
  match lines with
  | [] => insert_at
  | line :: rest =>
      let s := strip line in
      if startswith (txt "use ") s then after_uses (S idx) (S idx) rest
      else if negb (Nat.eqb (length s) 0)
              && negb (startswith (txt "//") s)
              && negb (startswith (txt "#") s)
      then insert_at
      else after_uses (S idx) insert_at rest
  end.

Section Run.
(** The order in which a [set] of [str] is iterated: some permutation
    of its elements. *)
Variable set_order : list text -> list text.

(** [sorted(all_pub_mods, key=extract_mod_name)] *)
Definition sorted_mods (st : scan_state) : list text :=
  sorted_by extract_mod_name (set_order (all_pub_mods st)).

Definition merged_lines (st : scan_state) : list text :=
  match sorted_mods st, pub_mods_insertion_point st with
  | [], _ => resolved_lines st
  | ms, Some insert_at => insert_all insert_at ms (resolved_lines st)
  | ms, None =>
      insert_all (after_uses 0 0 (resolved_lines st)) ms (resolved_lines st)
  end.

Definition ensure_newline (resolved : text) : text :=
  if endswith_nl resolved then resolved else resolved ++ [nl].

(** The text given to [write_text] for a content with the marker. *)
Definition rewrite (content : text) : text :=
  let st := scan_lines (split_nl content) in
  ensure_newline (collapse_blank (join_nl (merged_lines st))).

Definition report (st : scan_state) : list message :=
  match sorted_mods st with
  | [] => [Resolved]
  | ms => Resolved :: Merged (length ms) :: map (fun m => Item (extract_mod_name m)) ms
  end.

Definition resolve_librs_conflict (file : option text) : outcome :=
  match file with
  | None => Outcome [] [NotFound] None (Returns false)
  | Some content =>
      if negb (contains start_prefix content)
      then Outcome [NoMarkers] [] None (Returns true)
      else
        Outcome (report (scan_lines (split_nl content))) []
          (Some (rewrite content)) (Returns true)
  end.

Definition main (file : option text) : outcome :=
  let o := resolve_librs_conflict file in
  match result o with
  | Raises => Outcome (stdout o) (stderr o ++ [Failure]) (written o) Raises
  | Returns _ => o
  end.
End Run.

End LibRs.

(** * Definitions for the statements *)

Fixpoint dropwhile (cls : ascii -> bool) (s : text) : text :=
  match s with
  | c :: s' => if cls c then dropwhile cls s' else s
  | [] => []
  end.


(** What a run of [k] newlines becomes. *)
Definition emit (k : nat) : text :=
  if 3 <=? k then [nl; nl] else repeat nl k.


(** The blank-line clean-up as one pass with a counter of pending
    newlines. *)
Fixpoint squeeze (k : nat) (s : text) : text :=
  match s with
  | [] => emit k
  | c :: s' =>
      if is_nl c then squeeze (S k) s' else emit k ++ c :: squeeze 0 s'
  end.


Definition nonblank (l : text) : bool :=
  match l with [] => false | _ => true end.


(** The non-blank lines of a text. *)
Definition nonblank_lines (s : text) : list text :=
  filter nonblank (split_nl s).


Definition three_newlines : text := [nl; nl; nl].


Definition line_ok (l : text) : Prop := forallb not_nl l = true.


Definition entry_ok (e : text) : Prop := line_ok e /\ e <> [].


(** ** Documents as sequences of conflict regions and plain lines *)

Module Doc.

(** A conflict region has a start line, the lines of "ours", an optional
    separator line followed by the lines of "theirs", and an end line. *)
Inductive segment : Type :=
| Plain (ls : list text)
| Region (start : text) (ours : list text)
    (rest : option (text * list text)) (finish : text).

Definition is_marker (l : text) : bool :=
  startswith LibRs.start_prefix l || startswith LibRs.separator_prefix l
  || startswith LibRs.end_prefix l.

Definition plain (ls : list text) : bool :=
  forallb (fun l => negb (is_marker l)) ls.

Definition lines_of (g : segment) : list text :=
  match g with
  | Plain ls => ls
  | Region start ours None finish => start :: ours ++ [finish]
  | Region start ours (Some (sep, theirs)) finish =>
      start :: ours ++ sep :: theirs ++ [finish]
  end.

Definition theirs_of (g : segment) : list text :=
  match g with
  | Region _ _ (Some (_, theirs)) _ => theirs
  | _ => []
  end.

Definition ours_of (g : segment) : list text :=
  match g with
  | Region _ ours _ _ => ours
  | Plain _ => []
  end.

Definition well_formed (g : segment) : bool :=
  match g with
  | Plain ls => plain ls
  | Region start ours rest finish =>
      startswith LibRs.start_prefix start && plain ours
      && match rest with
         | None => true
         | Some (sep, theirs) =>
             startswith LibRs.separator_prefix sep && plain theirs
         end
      && startswith LibRs.end_prefix finish
  end.

(** The lines outside the conflict regions. *)
Definition outside (g : segment) : list text :=
  match g with
  | Plain ls => ls
  | Region _ _ _ _ => []
  end.

(** The text of a side: its lines, each closed by a newline. *)
Definition side_text (ls : list text) : text :=
  flat_map (fun l => l ++ [nl]) ls.

End Doc.

Inductive Subseq : list text -> list text -> Prop :=
| Subseq_nil : forall b, Subseq [] b
| Subseq_skip : forall a y b, Subseq a b -> Subseq a (y :: b)
| Subseq_take : forall x a b, Subseq a b -> Subseq (x :: a) (x :: b).

Fixpoint is_subseq (a b : list text) : bool :=
  match a, b with
  | [], _ => true
  | _ :: _, [] => false
  | x :: a', y :: b' =>
      if text_eqb x y then is_subseq a' b' else is_subseq a b'
  end.

(** The declarations a segment contributes: outside the regions a
    declaration is the whole trimmed line, inside a region the part of
    the trimmed line that matches. *)
Definition segment_entries (g : Doc.segment) : list text :=
  match g with
  | Doc.Plain ls =>
      map strip (filter (fun l => LibRs.is_declaration (strip l)) ls)
  | Doc.Region _ ours _ _ =>
      LibRs.extract_pub_mods (Doc.side_text ours) ++
      LibRs.extract_pub_mods (Doc.side_text (Doc.theirs_of g))
  end.

Definition kept (l : text) : bool := negb (LibRs.is_declaration (strip l)).

(** [t] is what remains of [s] after some prefix. *)
Definition Suffix (t s : text) : Prop := exists a, s = a ++ t.

(** A text made of whole lines: empty, or closed by a newline. *)
Definition ends_line (s : text) : bool :=
  match s with
  | [] => true
  | _ => endswith_nl s
  end.

(** The text of a conflict block of the manifest: the start marker and
    the rest of its line, "ours", the separator line, "theirs", the end
    marker and the rest of its line. *)
Definition conflict_text (l1 ours theirs l2 : text) : text :=
  Cargo.start_marker ++ l1 ++ nl :: ours ++ Cargo.separator_line ++
  theirs ++ Cargo.end_marker ++ l2 ++ [nl].

(** A members list as it is written in a manifest. *)
Definition members_literal (ws1 ws2 body : text) : text :=
  txt "members" ++ ws1 ++ txt "=" ++ ws2 ++ txt "[" ++ body ++ txt "]".

(** The quoted strings of the body of a list, in a set. *)
Definition quoted_strings (body : text) : list text :=
  fold_left (fun members m => set_add (Re.group m 1) members)
    (Re.finditer Cargo.quoted_pattern body) [].

Definition is_some (A : Type) (o : option A) : bool :=
  match o with Some _ => true | None => false end.

Definition no_backslash (t : text) : bool :=
  forallb (fun c => negb (Ascii.eqb c bs)) t.

(** Where the merged block can be placed in the text left by the
    removal of the conflicts: a members list to replace, or else the
    workspace header. *)
Definition has_place (resolved : text) : bool :=
  if is_some (Re.search Cargo.members_open resolved)
  then is_some (Re.search Cargo.members_block_pattern resolved)
  else contains (txt "[workspace]") resolved.

Definition region_mods (mods : list text) (ours : list text)
  (rest : option (text * list text)) : list text :=
  match rest with
  | Some (_, theirs) =>
      set_update
        (set_update mods (LibRs.extract_pub_mods (Doc.side_text ours)))
        (LibRs.extract_pub_mods (Doc.side_text theirs))
  | None => set_update mods (LibRs.extract_pub_mods (Doc.side_text ours))
  end.


Definition members_conflict_body : Re.re :=
  (Cargo.members_side ;; Re.Lit Cargo.separator_line ;; Cargo.members_side ;;
   Re.Lit Cargo.end_marker ;; Re.Rep true 0 not_nl ;; Re.Opt (Re.Lit [nl]))%re.


(** [a] may stand before [b] in a list sorted by [key]: the key of [b]
    is not smaller than the key of [a]. *)
Definition key_le (A : Type) (key : A -> text) (a b : A) : Prop :=
  text_ltb (key b) (key a) = false.

(** Strictly ascending order of the texts. *)
Definition ascending (l : list text) : Prop :=
  StronglySorted (fun a b => text_ltb a b = true) l.

(** A member that can be written between quotes in a list and read
    back: not empty, and without quote and closing bracket. *)
Definition member_ok (m : text) : bool :=
  nonblank m &&
  forallb (fun c => negb (Ascii.eqb c dq) && negb (Ascii.eqb c "]"%char)) m.

(** A manifest with members lists: a text before the first list, and for
    each list the white space around its equals sign, its body and the
    text after it.  [render] gives the text of a list. *)
Definition manifest_with (render : text -> text -> text -> text)
  (before : text) (lists : list (text * text * text * text)) : text :=
  before ++
  flat_map (fun '(ws1, ws2, body, after) => render ws1 ws2 body ++ after)
    lists.

(** A members list that the patterns read as written: white space
    around the equals sign, no closing bracket in the body, and the word
    not again in the text after the list. *)
Definition list_ok (l : text * text * text * text) : bool :=
  let '(ws1, ws2, body, after) := l in
  forallb is_space ws1 && forallb is_space ws2
  && negb (contains (txt "]") body)
  && negb (contains (txt "members") after).

(** The lines the search for the end of the [use] statements passes
    over: [use] lines, blank lines and comment or attribute lines. *)
Definition skippable (l : text) : bool :=
  let s := strip l in
  startswith (txt "use ") s || (length s =? 0)
  || startswith (txt "//") s || startswith (txt "#") s.

(** A declaration of a public module as it is usually written. *)
Definition pub_mod (name : text) : text :=
  txt "pub mod " ++ name ++ txt ";".

(** A letter that is no escape of a replacement template: after a
    backslash it makes [re.sub] raise. *)
Definition bad_escape (c : ascii) : bool :=
  Re.is_ascii_letter c && negb (Ascii.eqb c "g"%char)
  && negb (is_some (Re.escape c)).

(** A text with workspace headers: the text before the first header,
    and the text after each header; [insert] is put in after every
    header. *)
Definition with_headers (insert before : text) (afters : list text) : text :=
  before ++
  flat_map (fun after => txt "[workspace]" ++ insert ++ after) afters.

(** A text in which the keyword [mod], white space and a name occur in
    this order. *)
Definition has_mod_name (e : text) : Prop :=
  exists pre ws name tail,
    e = pre ++ txt "mod" ++ ws ++ name ++ tail /\
    ws <> [] /\ forallb is_space ws = true /\
    name <> [] /\ forallb is_word name = true.

(** ** Manifests as sequences of conflict blocks

    A manifest with conflicts is a sequence of regions, each with the
    text that stands before it, and the text after the last region.  A
    region is generic when the word [members] does not occur in it, and
    listed when each of its sides has a members list. *)

Module Manifest.

(** A side with a members list: the text before the list, the white
    space around the equals sign, the body of the list and the text
    after it. *)
Record side : Type := Side {
  lead : text;
  space1 : text;
  space2 : text;
  body : text;
  trail : text
}.

Definition side_text (s : side) : text :=
  lead s ++ members_literal (space1 s) (space2 s) (body s) ++ trail s.

Definition side_ok (s : side) : bool :=
  negb (contains (txt "members") (lead s))
  && forallb is_space (space1 s) && forallb is_space (space2 s)
  && negb (contains (txt "]") (body s)).

(** [before] is the text between the previous region (or the start of
    the document) and this one; [label] and [closing] are what follows
    the start marker and its space, and the end marker, on their
    lines. *)
Inductive region : Type :=
| Generic (before label ours theirs closing : text)
| Listed (before label : text) (ours theirs : side) (closing : text).

Definition before (rg : region) : text :=
  match rg with Generic b _ _ _ _ => b | Listed b _ _ _ _ => b end.

Definition label (rg : region) : text :=
  match rg with Generic _ l _ _ _ => l | Listed _ l _ _ _ => l end.

Definition ours (rg : region) : text :=
  match rg with
  | Generic _ _ o _ _ => o
  | Listed _ _ o _ _ => side_text o
  end.

Definition theirs (rg : region) : text :=
  match rg with
  | Generic _ _ _ t _ => t
  | Listed _ _ _ t _ => side_text t
  end.

Definition closing (rg : region) : text :=
  match rg with Generic _ _ _ _ c => c | Listed _ _ _ _ c => c end.

Definition listed (rg : region) : bool :=
  match rg with Generic _ _ _ _ _ => false | Listed _ _ _ _ _ => true end.

(** The text of the region, from its start marker to the end of the
    line of its end marker. *)
Definition region_text (rg : region) : text :=
  conflict_text (" "%char :: label rg) (ours rg) (theirs rg) (closing rg).

(** The text before a region has no start marker and is made of whole
    lines; the start marker stands in the region at its head only; the
    sides are made of whole lines, "ours" without separator line and
    both without end marker.  A generic region has no [members]. *)
Definition region_ok (rg : region) : bool :=
  negb (contains Cargo.start_marker (before rg)) && ends_line (before rg)
  && forallb not_nl (label rg) && forallb not_nl (closing rg)
  && negb (contains Cargo.start_marker (tl (region_text rg)))
  && negb (contains Cargo.separator_line (ours rg))
  && negb (contains Cargo.end_marker (ours rg)) && ends_line (ours rg)
  && negb (contains Cargo.end_marker (theirs rg)) && ends_line (theirs rg)
  && match rg with
     | Generic _ _ _ _ _ => negb (contains (txt "members") (region_text rg))
     | Listed _ _ o t _ => side_ok o && side_ok t
     end.

(** What [region_ok] says. *)
Record region_facts (rg : region) : Prop := {
  before_no_start : contains Cargo.start_marker (before rg) = false;
  before_lines : ends_line (before rg) = true;
  label_line : forallb not_nl (label rg) = true;
  closing_line : forallb not_nl (closing rg) = true;
  start_at_head : contains Cargo.start_marker (tl (region_text rg)) = false;
  ours_no_separator : contains Cargo.separator_line (ours rg) = false;
  ours_no_end : contains Cargo.end_marker (ours rg) = false;
  ours_lines : ends_line (ours rg) = true;
  theirs_no_end : contains Cargo.end_marker (theirs rg) = false;
  theirs_lines : ends_line (theirs rg) = true;
  kind_ok :
    match rg with
    | Generic _ _ _ _ _ => contains (txt "members") (region_text rg) = false
    | Listed _ _ o t _ => side_ok o = true /\ side_ok t = true
    end
}.

(** A region that follows a generic region: generic, and without
    [members] in the text before it. *)
Definition quiet (rg : region) : bool :=
  negb (listed rg) && negb (contains (txt "members") (before rg)).

(** After the first generic region there is no members list up to the
    last region. *)
Fixpoint calm (regs : list region) : bool :=
  match regs with
  | [] => true
  | Generic _ _ _ _ _ :: rest => forallb quiet rest
  | Listed _ _ _ _ _ :: rest => calm rest
  end.

(** A text without [members], or without separator line and end
    marker. *)
Definition post_quiet (post : text) : bool :=
  negb (contains (txt "members") post)
  || (negb (contains Cargo.separator_line post)
      && negb (contains Cargo.end_marker post)).

(** The text after the last region has no start marker; when a generic
    region stands before it, it has no [members] or no separator line
    and no end marker. *)
Definition post_ok (regs : list region) (post : text) : bool :=
  negb (contains Cargo.start_marker post)
  && (forallb listed regs || post_quiet post).

Definition ok (regs : list region) (post : text) : bool :=
  forallb region_ok regs && calm regs && post_ok regs post.

(** The document. *)
Definition text_of (regs : list region) (post : text) : text :=
  flat_map (fun rg => before rg ++ region_text rg) regs ++ post.

(** A region that the first substitution removes: a listed region, or
    a region with two empty sides. *)
Definition leaves (rg : region) : bool :=
  listed rg || negb (nonblank (ours rg ++ theirs rg)).

(** The document with these regions removed. *)
Definition unlisted (regs : list region) (post : text) : text :=
  flat_map
    (fun rg => before rg ++ if leaves rg then [] else region_text rg) regs
  ++ post.

(** The document with every listed region removed and every generic
    region replaced by its "ours". *)
Definition resolved (regs : list region) (post : text) : text :=
  flat_map (fun rg => before rg ++ if listed rg then [] else ours rg) regs
  ++ post.

(** The text outside the regions. *)
Definition outside (regs : list region) (post : text) : text :=
  flat_map before regs ++ post.

End Manifest.

(** ** Example documents *)

Module Example.

Definition lines (ls : list string) : text := Doc.side_text (map txt ls).

Definition members_line (ms : list string) : text :=
  txt "members = [" ++
  Cargo.join (txt ", ") (map (fun m => Cargo.quote (txt m)) ms) ++ txt "]".

(** A members conflict in a manifest without workspace header. *)
Definition no_workspace : text :=
  Doc.side_text
    [txt "<<<<<<< HEAD"; members_line ["a"%string]; txt "=======";
     members_line ["b"%string]; txt ">>>>>>> x"].

(** The manifest of scenario A. *)
Definition scenario_a : text :=
  Doc.side_text
    [txt "[workspace]"; txt "<<<<<<< HEAD";
     members_line ["a"%string; "c"%string]; txt "=======";
     members_line ["b"%string; "a"%string]; txt ">>>>>>> x"].

(** The module root of scenario B. *)
Definition scenario_b : text :=
  lines ["use std::fmt;"; "<<<<<<< HEAD"; "pub mod zeta;"; "=======";
         "pub mod alpha;"; "pub mod zeta;"; ">>>>>>> x"]%string.

Definition scenario_b_segments : list Doc.segment :=
  [Doc.Plain [txt "use std::fmt;"];
   Doc.Region (txt "<<<<<<< HEAD") [txt "pub mod zeta;"]
     (Some (txt "=======", [txt "pub mod alpha;"; txt "pub mod zeta;"]))
     (txt ">>>>>>> x");
   Doc.Plain [[]]].

(** A conflict without separator line. *)
Definition no_separator : text :=
  lines ["<<<<<<< HEAD"; "foo"; ">>>>>>> x"]%string.

(** A conflict in unrelated text. *)
Definition generic : text :=
  lines ["<<<<<<< HEAD"; "foo"; "======="; "bar"; ">>>>>>> x"]%string.

Definition generic_segments : list Doc.segment :=
  [Doc.Region (txt "<<<<<<< HEAD") [txt "foo"]
     (Some (txt "=======", [txt "bar"])) (txt ">>>>>>> x");
   Doc.Plain [[]]].


(** A start marker before the end of the block that is open. *)
Definition nested : text :=
  lines ["<<<<<<< a"; "<<<<<<< b"; "x"; "======="; "y"; ">>>>>>> c";
         "======="; "z"; ">>>>>>> d"]%string.


(** Three blank lines outside the conflict. *)
Definition blank_lines : text :=
  lines ["a"; ""; ""; ""; "b"; "<<<<<<< x"; "======="; ">>>>>>> y"]%string.

Definition blank_lines_segments : list Doc.segment :=
  [Doc.Plain [txt "a"; []; []; []; txt "b"];
   Doc.Region (txt "<<<<<<< x") [] (Some (txt "=======", []))
     (txt ">>>>>>> y");
   Doc.Plain [[]]].

(** A last line without newline. *)
Definition no_final_newline : text :=
  lines ["<<<<<<< x"; "a"; "======="; "b"; ">>>>>>> y"]%string ++ txt "foo".

(** A blank last line. *)
Definition blank_last_line : text :=
  lines ["<<<<<<< x"; "======="; ">>>>>>> y"; "a"; ""]%string.

(** Two members lists in one block. *)
Definition two_literals : text :=
  members_line ["a"%string] ++ nl :: members_line ["b"%string].

(** A member with a backslash, and a second members list. *)
Definition backslash : text :=
  Doc.side_text
    [txt "# <<<<<<< note"; txt "[workspace]"; members_line ["a\tb"%string];
     txt "[other]"; members_line ["z"%string]].

Definition tab : ascii := "009"%char.

(** What the tool writes for [backslash]: a tab in place of the
    backslash and the letter. *)
Definition backslash_written : text :=
  let block :=
    txt "members = [" ++ nl :: txt "    " ++
    Cargo.quote (txt "a" ++ tab :: txt "b") ++ txt "," ++ nl :: txt "]" in
  Doc.side_text
    [txt "# <<<<<<< note"; txt "[workspace]"; block; txt "[other]"; block].

(** A manifest with a conflict in unrelated text. *)
Definition package_pre : text := lines ["[package]"]%string.
Definition package_conflict : text :=
  package_pre ++
  conflict_text (txt " HEAD") (lines ["foo"]%string) (lines ["bar"]%string)
    (txt " x") ++
  lines ["end"]%string.

Definition insertion_order (l : list text) : list text := l.

(** A member written with a backslash before a letter that is no
    escape. *)
Definition bad_escape_doc : text :=
  Doc.side_text
    [txt "[workspace]"; txt "<<<<<<< HEAD";
     members_line ["crates\core"%string]; txt "=======";
     members_line ["b"%string]; txt ">>>>>>> x"].

(** A conflict that is not closed, after a [use] line. *)
Definition unterminated : text :=
  lines ["use std::fmt;"; "<<<<<<< HEAD"; "pub mod b;"; "======="]%string.

(** A conflict in unrelated text before a members conflict. *)
Definition generic_before_list : text :=
  Doc.side_text
    [txt "keep"; txt "<<<<<<< HEAD"; txt "foo"; txt "======="; txt "bar";
     txt ">>>>>>> x"; txt "[workspace]"; txt "<<<<<<< HEAD";
     members_line ["a"%string]; txt "======="; members_line ["b"%string];
     txt ">>>>>>> y"; txt "end"].


(** [package_conflict] as a manifest with one generic region. *)
Definition package_regions : list Manifest.region :=
  [Manifest.Generic package_pre (txt "HEAD") (lines ["foo"]%string)
     (lines ["bar"]%string) (txt " x")].

Definition package_post : text := lines ["end"]%string.

(** [scenario_a] as a manifest with one listed region. *)
Definition scenario_a_regions : list Manifest.region :=
  [Manifest.Listed (lines ["[workspace]"]%string) (txt "HEAD")
     (Manifest.Side [] (txt " ") (txt " ")
        (Cargo.quote (txt "a") ++ txt ", " ++ Cargo.quote (txt "c")) [nl])
     (Manifest.Side [] (txt " ") (txt " ")
        (Cargo.quote (txt "b") ++ txt ", " ++ Cargo.quote (txt "a")) [nl])
     (txt " x")].

(** A manifest with a members conflict, two conflicts in unrelated text
    and a members list after them. *)
Definition mixed_regions : list Manifest.region :=
  [Manifest.Listed (lines ["[workspace]"]%string) (txt "HEAD")
     (Manifest.Side [] (txt " ") (txt " ") (Cargo.quote (txt "a")) [nl])
     (Manifest.Side (lines ["# x"]%string) (txt " ") (txt " ")
        (Cargo.quote (txt "b")) [nl])
     (txt " y");
   Manifest.Generic (lines ["[deps]"]%string) (txt "HEAD")
     (lines ["foo"]%string) (lines ["bar"]%string) (txt " z");
   Manifest.Generic (nl :: lines ["more"]%string) (txt "HEAD") []
     (lines ["baz"]%string) (txt " z")].

Definition mixed_post : text :=
  lines ["end"; "[other]"]%string ++ members_line ["q"%string] ++ [nl].

(** The text before the members list of the text left for
    [mixed_regions], and the list. *)
Definition mixed_before : text :=
  lines ["[workspace]"; "[deps]"; "foo"]%string ++
  nl :: lines ["more"; "end"; "[other]"]%string.

Definition mixed_lists : list (text * text * text * text) :=
  [(txt " ", txt " ", Cargo.quote (txt "q"), [nl])].

(** A declaration before other code, outside the conflict. *)
Definition moved_declaration : text :=
  lines ["fn f() {}"; "  pub mod a;"; "<<<<<<< x"; "======="; ">>>>>>> y";
         "tail"]%string.

Definition moved_declaration_segments : list Doc.segment :=
  [Doc.Plain [txt "fn f() {}"; txt "  pub mod a;"];
   Doc.Region (txt "<<<<<<< x") [] (Some (txt "=======", []))
     (txt ">>>>>>> y");
   Doc.Plain [txt "tail"; []]].

(** A line of equals signs outside the conflict. *)
Definition stray_separator : text :=
  lines ["a"; "======="; "b"; "<<<<<<< x"; "======="; ">>>>>>> y"]%string.

End Example.

(** * Properties *)

(** ** Strings *)

Lemma text_eqb_eq (a b : text) : text_eqb a b = true <-> a = b.
Proof.
  revert b; induction a as [|x a IH]; intros [|y b]; simpl; split; intro H;
    try reflexivity; try discriminate.
  - apply andb_true_iff in H as [Hx Hab].
    apply Ascii.eqb_eq in Hx. apply IH in Hab. congruence.
  - injection H as -> ->. rewrite Ascii.eqb_refl. simpl. now apply IH.
Qed.

Lemma strip_prefix_app (w s : text) : strip_prefix w (w ++ s) = Some s.
Proof.
  induction w as [|a w IH]; simpl; [reflexivity|].
  now rewrite Ascii.eqb_refl.
Qed.

Lemma strip_prefix_Some (w s r : text) :
  strip_prefix w s = Some r -> s = w ++ r.
Proof.
  revert s; induction w as [|a w IH]; intros s H; simpl in *.
  - congruence.
  - destruct s as [|b s]; [discriminate|].
    destruct (Ascii.eqb a b) eqn:E; [|discriminate].
    apply Ascii.eqb_eq in E. subst b. f_equal. now apply IH.
Qed.

Lemma startswith_app (w s : text) : startswith w (w ++ s) = true.
Proof. unfold startswith. now rewrite strip_prefix_app. Qed.

Lemma startswith_inv (w s : text) :
  startswith w s = true -> exists r, s = w ++ r.
Proof.
  unfold startswith. destruct (strip_prefix w s) eqn:E; [|discriminate].
  intros _. eexists. eapply strip_prefix_Some; eauto.
Qed.

Lemma startswith_false (w s : text) :
  startswith w s = false -> strip_prefix w s = None.
Proof. unfold startswith. now destruct (strip_prefix w s). Qed.

Lemma startswith_nil (s : text) : startswith [] s = true.
Proof. reflexivity. Qed.

(** A prefix of [u ++ v] lies in [u] or reaches into [v]. *)
Lemma startswith_app_cases (w u v : text) :
  startswith w (u ++ v) = true ->
  startswith w u = true \/
  exists w1 w2, w = w1 ++ w2 /\ u = w1 /\ w2 <> [] /\ startswith w2 v = true.
Proof.
  revert u; induction w as [|a w IH]; intros u H.
  - now left.
  - destruct u as [|b u].
    + right. exists [], (a :: w). repeat split; auto. discriminate.
    + unfold startswith in *. simpl in *.
      destruct (Ascii.eqb a b) eqn:E; [|discriminate].
      apply Ascii.eqb_eq in E; subst b.
      destruct (IH u H) as [Hl|(w1 & w2 & -> & -> & Hn & Hs)].
      * now left.
      * right. exists (a :: w1), w2. repeat split; auto.
Qed.

Lemma contains_cons (w : text) (c : ascii) (s : text) :
  contains w (c :: s) = startswith w (c :: s) || contains w s.
Proof. reflexivity. Qed.

Lemma contains_false_startswith (w s : text) :
  contains w s = false -> startswith w s = false.
Proof.
  destruct s; simpl; intro H; apply orb_false_iff in H; tauto.
Qed.

Lemma contains_app_r (w a s : text) :
  contains w s = true -> contains w (a ++ s) = true.
Proof.
  intro H; induction a as [|c a IH]; simpl; [exact H|].
  rewrite IH. apply orb_true_r.
Qed.

Lemma startswith_app_l (w a b : text) :
  startswith w a = true -> startswith w (a ++ b) = true.
Proof.
  intro H. apply startswith_inv in H as [r ->].
  rewrite <- app_assoc. apply startswith_app.
Qed.

Lemma contains_app_l (w a b : text) :
  contains w a = true -> contains w (a ++ b) = true.
Proof.
  induction a as [|c a IH]; simpl; intro H.
  - rewrite orb_false_r in H. destruct w; [|discriminate].
    destruct b; reflexivity.
  - apply orb_true_iff in H as [H|H].
    + change (c :: a ++ b) with ((c :: a) ++ b).
      rewrite (startswith_app_l _ _ b H). reflexivity.
    + rewrite (IH H). apply orb_true_r.
Qed.

Lemma contains_false_app (w a b : text) :
  contains w (a ++ b) = false ->
  contains w a = false /\ contains w b = false.
Proof.
  intro H. split.
  - destruct (contains w a) eqn:E; [|reflexivity].
    now rewrite (contains_app_l _ _ b E) in H.
  - destruct (contains w b) eqn:E; [|reflexivity].
    now rewrite (contains_app_r _ a _ E) in H.
Qed.

Lemma contains_intro (w a b : text) : contains w (a ++ w ++ b) = true.
Proof.
  apply contains_app_r. destruct (w ++ b) eqn:E; simpl.
  - destruct w; [reflexivity|discriminate].
  - rewrite <- E, startswith_app. reflexivity.
Qed.

(** ** Sets and sorting *)

Lemma mem_In (x : text) (s : list text) : mem x s = true <-> In x s.
Proof.
  induction s as [|y s IH]; simpl.
  - split; [discriminate|tauto].
  - rewrite orb_true_iff, IH, text_eqb_eq. intuition congruence.
Qed.

Lemma set_add_In (x y : text) (s : list text) :
  In x (set_add y s) <-> x = y \/ In x s.
Proof.
  unfold set_add. destruct (mem y s) eqn:E.
  - apply mem_In in E. intuition congruence.
  - rewrite in_app_iff. simpl. intuition congruence.
Qed.

Lemma set_update_In (x : text) (t s : list text) :
  In x (set_update s t) <-> In x s \/ In x t.
Proof.
  unfold set_update. revert s; induction t as [|y t IH]; intro s; simpl.
  - tauto.
  - rewrite IH, set_add_In. intuition congruence.
Qed.

Lemma set_update_nil (s : list text) : set_update s [] = s.
Proof. reflexivity. Qed.

Section SortingFacts.
Variable A : Type.
Variable key : A -> text.

Lemma insert_by_perm (x : A) (l : list A) :
  Permutation (insert_by key x l) (x :: l).
Proof.
  induction l as [|y l IH]; simpl; [reflexivity|].
  destruct (text_ltb (key x) (key y)); [reflexivity|].
  rewrite IH. apply perm_swap.
Qed.

Lemma sorted_by_perm (l : list A) : Permutation (sorted_by key l) l.
Proof.
  unfold sorted_by.
  enough (H : forall acc, Permutation
              (fold_left (fun acc x => insert_by key x acc) l acc)
              (acc ++ l)) by apply (H []).
  induction l as [|x l IH]; intro acc; simpl.
  - now rewrite app_nil_r.
  - rewrite IH, insert_by_perm. apply Permutation_middle.
Qed.

Lemma sorted_by_In (x : A) (l : list A) : In x (sorted_by key l) <-> In x l.
Proof.
  split; apply Permutation_in;
    [apply sorted_by_perm | symmetry; apply sorted_by_perm].
Qed.
End SortingFacts.

(** ** The matcher on runs of one class *)

Lemma is_nl_true (c : ascii) : is_nl c = true -> c = nl.
Proof. apply Ascii.eqb_eq. Qed.

Lemma greedy0_total (A : Type) (cls : ascii -> bool) (f : text -> A) (s : text) :
  Re.greedy0 cls s (fun s' => Some (f s')) = Some (f (dropwhile cls s)).
Proof.
  induction s as [|c s IH]; simpl; [reflexivity|].
  destruct (cls c); [now rewrite IH|reflexivity].
Qed.

Lemma dropwhile_length (cls : ascii -> bool) (s : text) :
  length (dropwhile cls s) <= length s.
Proof.
  induction s as [|c s IH]; simpl; [lia|].
  destruct (cls c); simpl; lia.
Qed.

Lemma dropwhile_skipn (cls : ascii -> bool) (s : text) :
  dropwhile cls s = skipn (length s - length (dropwhile cls s)) s.
Proof.
  induction s as [|c s IH]; [reflexivity|].
  cbn [dropwhile length]. destruct (cls c).
  - rewrite Nat.sub_succ_l by apply dropwhile_length. exact IH.
  - cbn [length]. now rewrite Nat.sub_diag.
Qed.

(** ** The scan *)

Lemma scan_skip (r : Re.re) (n : nat) (s : text) :
  n <= length s -> Re.scan r s n = Re.scan r (skipn n s) 0.
Proof.
  revert s; induction n as [|n IH]; intros s H; [reflexivity|].
  destruct s as [|a s]; simpl in *; [lia|].
  apply IH. lia.
Qed.

(** ** The blank-line clean-up *)

Lemma match_blank_run (s : text) :
  Re.match_at blank_run (nl :: nl :: nl :: s) =
  Some ([(0, firstn (length (nl :: nl :: nl :: s) - length (dropwhile is_nl s))
              (nl :: nl :: nl :: s))], dropwhile is_nl s).
Proof.
  unfold Re.match_at, blank_run. cbn [Re.run Re.rep Re.exactly].
  change (is_nl nl) with true. cbn iota.
  exact (greedy0_total is_nl
           (fun s' => ([(0, firstn (length (nl :: nl :: nl :: s) - length s')
                              (nl :: nl :: nl :: s))], s')) s).
Qed.

Lemma collapse_blank_run (s : text) :
  collapse_blank (nl :: nl :: nl :: s) =
  nl :: nl :: collapse_blank (dropwhile is_nl s).
Proof.
  unfold collapse_blank, Re.sub.
  cbn [Re.scan]. rewrite match_blank_run.
  pose proof (dropwhile_length is_nl s) as L.
  replace (length (nl :: nl :: nl :: s) - length (dropwhile is_nl s))
    with (S (S (S (length s - length (dropwhile is_nl s)))))
    by (cbn [length]; lia).
  cbn [flat_map app].
  rewrite scan_skip by (cbn [length]; lia).
  cbn [skipn]. now rewrite <- dropwhile_skipn.
Qed.

Lemma collapse_blank_char (c : ascii) (s : text) :
  is_nl c = false -> collapse_blank (c :: s) = c :: collapse_blank s.
Proof.
  intro H. unfold collapse_blank, Re.sub, Re.match_at, blank_run.
  cbn [Re.scan Re.match_at Re.run Re.rep Re.exactly]. unfold Re.match_at.
  cbn [Re.run Re.rep Re.exactly]. rewrite H. reflexivity.
Qed.

Lemma squeeze_run (k : nat) (s : text) :
  3 <= k -> squeeze k s = nl :: nl :: squeeze 0 (dropwhile is_nl s).
Proof.
  revert k; induction s as [|c s IH]; intros k H; simpl.
  - unfold emit. destruct (Nat.leb_spec 3 k); [reflexivity|lia].
  - destruct (is_nl c) eqn:E.
    + apply IH. lia.
    + simpl. rewrite E. unfold emit at 1.
      destruct (Nat.leb_spec 3 k); [reflexivity|lia].
Qed.

Lemma collapse_blank_squeeze (s : text) : collapse_blank s = squeeze 0 s.
Proof.
  remember (length s) as n eqn:Hn.
  revert s Hn; induction n as [n IH] using lt_wf_ind; intros s Hn.
  assert (step : forall c t, s = c :: t -> is_nl c = false ->
                 collapse_blank s = squeeze 0 s).
  { intros c t -> E. rewrite collapse_blank_char by exact E.
    simpl. rewrite E. simpl. f_equal.
    apply (IH (length t)); [subst n; simpl; lia|reflexivity]. }
  destruct s as [|c1 s]; [reflexivity|].
  destruct (is_nl c1) eqn:E1; [|eapply step; eauto].
  apply is_nl_true in E1; subst c1.
  destruct s as [|c2 s]; [reflexivity|].
  destruct (is_nl c2) eqn:E2.
  2:{ unfold collapse_blank, Re.sub, Re.match_at, blank_run.
      cbn [Re.scan Re.match_at Re.run Re.rep Re.exactly]. unfold Re.match_at.
      cbn [Re.run Re.rep Re.exactly]. change (is_nl nl) with true. rewrite E2.
      cbn [flat_map app squeeze]. change (is_nl nl) with true. cbn iota.
      rewrite E2. cbn [emit Nat.leb repeat app]. do 2 f_equal.
      apply (IH (length s)); [subst n; simpl; lia|reflexivity]. }
  apply is_nl_true in E2; subst c2.
  destruct s as [|c3 s]; [reflexivity|].
  destruct (is_nl c3) eqn:E3.
  2:{ unfold collapse_blank, Re.sub, Re.match_at, blank_run.
      cbn [Re.scan Re.match_at Re.run Re.rep Re.exactly]. unfold Re.match_at.
      cbn [Re.run Re.rep Re.exactly]. change (is_nl nl) with true. rewrite E3.
      cbn [flat_map app squeeze]. change (is_nl nl) with true. cbn iota.
      rewrite E3. cbn [emit Nat.leb repeat app]. do 3 f_equal.
      apply (IH (length s)); [subst n; simpl; lia|reflexivity]. }
  apply is_nl_true in E3; subst c3.
  rewrite collapse_blank_run.
  change (squeeze 0 (nl :: nl :: nl :: s)) with (squeeze 3 s).
  rewrite squeeze_run by lia. do 2 f_equal.
  pose proof (dropwhile_length is_nl s) as L.
  apply (IH (length (dropwhile is_nl s))); [subst n; simpl; lia|reflexivity].
Qed.

(** ** Lines *)

Lemma split_nl_nonempty (s : text) : split_nl s <> [].
Proof.
  induction s as [|c s IH]; simpl; [discriminate|].
  destruct (is_nl c); [discriminate|].
  destruct (split_nl s); discriminate.
Qed.

Lemma split_nl_cons_nl (s : text) : split_nl (nl :: s) = [] :: split_nl s.
Proof. reflexivity. Qed.

Lemma split_nl_cons_char (c : ascii) (s : text) :
  is_nl c = false ->
  split_nl (c :: s) = (c :: hd [] (split_nl s)) :: tl (split_nl s).
Proof.
  intro H. simpl. rewrite H.
  destruct (split_nl s) eqn:E; [now apply split_nl_nonempty in E|reflexivity].
Qed.

Lemma split_nl_app_nl (a b : text) :
  split_nl (a ++ nl :: b) = split_nl a ++ split_nl b.
Proof.
  induction a as [|c a IH]; [reflexivity|].
  cbn [app split_nl]. destruct (is_nl c); rewrite IH; [reflexivity|].
  destruct (split_nl a) eqn:E; [now apply split_nl_nonempty in E|reflexivity].
Qed.

Lemma split_nl_line (l : text) : forallb not_nl l = true -> split_nl l = [l].
Proof.
  induction l as [|c l IH]; [reflexivity|].
  cbn [forallb]. intro H. apply andb_true_iff in H as [Hc Hl].
  unfold not_nl in Hc. apply negb_true_iff in Hc.
  rewrite split_nl_cons_char by exact Hc. now rewrite IH.
Qed.

Lemma split_nl_lines (s : text) :
  Forall (fun l => forallb not_nl l = true) (split_nl s).
Proof.
  induction s as [|c s IH]; [repeat constructor|].
  destruct (is_nl c) eqn:E.
  - apply is_nl_true in E; subst c. rewrite split_nl_cons_nl.
    constructor; [reflexivity|exact IH].
  - rewrite split_nl_cons_char by exact E.
    destruct (split_nl s) as [|l ls] eqn:Es;
      [now apply split_nl_nonempty in Es|].
    inversion IH; subst. constructor; [|assumption].
    cbn [hd forallb]. unfold not_nl at 1. fold (is_nl c). rewrite E.
    assumption.
Qed.

Lemma join_nl_cons (l : text) (ls : list text) :
  ls <> [] -> join_nl (l :: ls) = l ++ nl :: join_nl ls.
Proof. destruct ls; [congruence|reflexivity]. Qed.

Lemma split_join_nl (ls : list text) :
  ls <> [] -> Forall (fun l => forallb not_nl l = true) ls ->
  split_nl (join_nl ls) = ls.
Proof.
  induction ls as [|l ls IH]; [congruence|].
  intros _ H. inversion H as [|? ? Hl Hls]; subst.
  destruct ls as [|l' ls].
  - now apply split_nl_line.
  - rewrite join_nl_cons by discriminate.
    rewrite split_nl_app_nl, split_nl_line by assumption.
    cbn [app]. f_equal. apply IH; [discriminate|assumption].
Qed.

Lemma join_split_nl (s : text) : join_nl (split_nl s) = s.
Proof.
  induction s as [|c s IH]; [reflexivity|].
  destruct (is_nl c) eqn:E.
  - apply is_nl_true in E; subst c. rewrite split_nl_cons_nl.
    rewrite join_nl_cons by apply split_nl_nonempty. now rewrite IH.
  - rewrite split_nl_cons_char by exact E.
    destruct (split_nl s) as [|l ls] eqn:Es;
      [now apply split_nl_nonempty in Es|].
    cbn [hd tl]. destruct ls as [|l' ls].
    + simpl in *. congruence.
    + rewrite join_nl_cons by discriminate.
      rewrite join_nl_cons in IH by discriminate.
      cbn [app]. congruence.
Qed.

Lemma nonblank_lines_nl (s : text) :
  nonblank_lines (nl :: s) = nonblank_lines s.
Proof. reflexivity. Qed.

Lemma nonblank_lines_repeat (k : nat) (s : text) :
  nonblank_lines (repeat nl k ++ s) = nonblank_lines s.
Proof. induction k; [reflexivity|exact IHk]. Qed.

Lemma emit_repeat (k : nat) : exists j, emit k = repeat nl j /\ j <= 2 /\ (1 <= k -> 1 <= j).
Proof.
  unfold emit. destruct (Nat.leb_spec 3 k).
  - exists 2. repeat split; lia.
  - exists k. repeat split; lia.
Qed.

Lemma squeeze_S_head (k : nat) (s : text) :
  exists t, squeeze (S k) s = nl :: t.
Proof.
  revert k; induction s as [|c s IH]; intro k; cbn [squeeze].
  - destruct (emit_repeat (S k)) as (j & -> & _ & Hj).
    destruct j; [lia|]. eexists; reflexivity.
  - destruct (is_nl c); [apply IH|].
    destruct (emit_repeat (S k)) as (j & -> & _ & Hj).
    destruct j; [lia|]. eexists; reflexivity.
Qed.

Lemma squeeze_lines (s : text) (k : nat) :
  nonblank_lines (squeeze k s) = nonblank_lines s /\
  (k = 0 -> hd [] (split_nl (squeeze 0 s)) = hd [] (split_nl s)).
Proof.
  revert k; induction s as [|c s IH]; intro k.
  - split; [|reflexivity]. cbn [squeeze].
    destruct (emit_repeat k) as (j & -> & _).
    rewrite <- (app_nil_r (repeat nl j)). apply nonblank_lines_repeat.
  - cbn [squeeze]. destruct (is_nl c) eqn:E.
    + apply is_nl_true in E; subst c. split.
      * rewrite nonblank_lines_nl. apply IH.
      * intros _. destruct (squeeze_S_head 0 s) as [t ->]. reflexivity.
    + destruct (IH 0) as [Hn Hh]. specialize (Hh eq_refl).
      assert (Hc : nonblank_lines (c :: squeeze 0 s) = nonblank_lines (c :: s)).
      { unfold nonblank_lines in *. rewrite !split_nl_cons_char by exact E.
        rewrite Hh. cbn [filter nonblank]. f_equal.
        destruct (split_nl (squeeze 0 s)) as [|l ls] eqn:E1;
          [now apply split_nl_nonempty in E1|].
        destruct (split_nl s) as [|l' ls'] eqn:E2;
          [now apply split_nl_nonempty in E2|].
        cbn [hd tl filter] in *. subst l'.
        destruct (nonblank l); congruence. }
      split.
      * destruct (emit_repeat k) as (j & -> & _).
        now rewrite nonblank_lines_repeat.
      * intros ->. cbn [emit Nat.leb repeat app].
        rewrite !split_nl_cons_char by exact E. cbn [hd]. now rewrite Hh.
Qed.

(** The clean-up keeps the non-blank lines, in order. *)
Lemma collapse_blank_lines (s : text) :
  nonblank_lines (collapse_blank s) = nonblank_lines s.
Proof. rewrite collapse_blank_squeeze. apply squeeze_lines. Qed.

Lemma startswith_run_char (j : nat) (c : ascii) (t : text) :
  j <= 2 -> is_nl c = false ->
  startswith three_newlines (repeat nl j ++ c :: t) = false.
Proof.
  intros Hj Hc.
  assert (E : Ascii.eqb nl c = false).
  { unfold is_nl in Hc. now rewrite Ascii.eqb_sym. }
  destruct j as [|[|[|j]]]; [| | |lia];
    unfold startswith, three_newlines;
    cbn [repeat app strip_prefix]; rewrite ?Ascii.eqb_refl, E; reflexivity.
Qed.

Lemma no_run_after_emit (j : nat) (c : ascii) (t : text) :
  j <= 2 -> is_nl c = false -> contains three_newlines t = false ->
  contains three_newlines (repeat nl j ++ c :: t) = false.
Proof.
  intros Hj Hc Ht. induction j as [|j IH].
  - cbn [repeat app]. rewrite contains_cons, Ht.
    pose proof (@startswith_run_char 0 c t) as H. cbn [repeat app] in H.
    rewrite H; [reflexivity|lia|exact Hc].
  - change (repeat nl (S j) ++ c :: t) with (nl :: (repeat nl j ++ c :: t)).
    rewrite contains_cons, IH by lia.
    change (nl :: (repeat nl j ++ c :: t)) with (repeat nl (S j) ++ c :: t).
    now rewrite startswith_run_char.
Qed.

Lemma squeeze_no_run (s : text) (k : nat) :
  contains three_newlines (squeeze k s) = false.
Proof.
  revert k; induction s as [|c s IH]; intro k; cbn [squeeze].
  - destruct (emit_repeat k) as (j & -> & Hj & _).
    destruct j as [|[|[|j]]]; [reflexivity..|lia].
  - destruct (is_nl c) eqn:E; [apply IH|].
    destruct (emit_repeat k) as (j & -> & Hj & _).
    apply no_run_after_emit; auto.
Qed.

(** The result of the clean-up has no three newlines in a row. *)
Lemma collapse_blank_no_run (s : text) :
  contains three_newlines (collapse_blank s) = false.
Proof. rewrite collapse_blank_squeeze. apply squeeze_no_run. Qed.

Lemma last_repeat_app (k : nat) (s : text) (d : ascii) :
  last (repeat nl k ++ nl :: s) d = last (repeat nl (S k) ++ s) d.
Proof.
  f_equal. change (nl :: s) with ([nl] ++ s). rewrite app_assoc.
  f_equal. symmetry. apply (repeat_cons k nl).
Qed.

Lemma last_cons_default (t : text) (c d : ascii) :
  last (c :: t) d = last t c.
Proof.
  revert c d; induction t as [|y t IH]; intros c d; [reflexivity|].
  change (last (c :: y :: t) d) with (last (y :: t) d).
  now rewrite (IH y d), (IH y c).
Qed.

Lemma last_app_cons (a : text) (c : ascii) (t : text) (d : ascii) :
  last (a ++ c :: t) d = last t c.
Proof.
  revert d; induction a as [|x a IH]; intro d; cbn [app].
  - apply last_cons_default.
  - rewrite last_cons_default. apply IH.
Qed.

Lemma squeeze_last (s : text) (k : nat) (d : ascii) :
  last (squeeze k s) d = last (repeat nl k ++ s) d.
Proof.
  revert k d; induction s as [|c s IH]; intros k d; cbn [squeeze].
  - rewrite app_nil_r. unfold emit.
    destruct (Nat.leb_spec 3 k) as [H|H].
    + destruct k as [|k]; [lia|]. 
      replace (repeat nl (S k)) with (repeat nl k ++ [nl]).
      * now rewrite last_app_cons.
      * symmetry. apply (repeat_cons k nl).
    + reflexivity.
  - destruct (is_nl c) eqn:E.
    + apply is_nl_true in E; subst c. rewrite IH. symmetry.
      apply last_repeat_app.
    + rewrite !last_app_cons. apply IH.
Qed.

(** The clean-up leaves the last character as it is. *)
Lemma collapse_blank_last (s : text) (d : ascii) :
  last (collapse_blank s) d = last s d.
Proof. rewrite collapse_blank_squeeze. apply (squeeze_last s 0 d). Qed.

Lemma endswith_nl_last (s : text) (d : ascii) :
  s <> [] -> endswith_nl s = is_nl (last s d).
Proof.
  destruct s as [|c s]; [congruence|]. intros _. unfold endswith_nl.
  f_equal. symmetry. apply (last_app_cons [] c s d).
Qed.

Lemma squeeze_nil (s : text) (k : nat) : squeeze k s = [] -> k = 0 /\ s = [].
Proof.
  revert k; induction s as [|c s IH]; intro k; cbn [squeeze].
  - unfold emit. destruct (Nat.leb_spec 3 k); [discriminate|].
    destruct k; [auto|discriminate].
  - destruct (is_nl c).
    + intro H. apply IH in H. lia.
    + intro H. destruct (emit k); discriminate.
Qed.

Lemma collapse_blank_endswith (s : text) :
  endswith_nl (collapse_blank s) = endswith_nl s.
Proof.
  destruct s as [|c s]; [reflexivity|].
  destruct (collapse_blank (c :: s)) eqn:E.
  - rewrite collapse_blank_squeeze in E. apply squeeze_nil in E as [_ E].
    discriminate.
  - rewrite <- E.
    rewrite (@endswith_nl_last (collapse_blank (c :: s)) nl) by congruence.
    rewrite (@endswith_nl_last (c :: s) nl) by discriminate.
    now rewrite collapse_blank_last.
Qed.

(** ** Where a match ends *)

Section RunFacts.
Variable A : Type.

Lemma lazy0_inv (cls : ascii -> bool) (s : text) (k : text -> option A) x :
  Re.lazy0 cls s k = Some x ->
  exists s', k s' = Some x /\ length s' <= length s.
Proof.
  induction s as [|c s IH]; cbn [Re.lazy0].
  - destruct (k []) eqn:E; [|discriminate].
    intros [= <-]. exists []. auto.
  - destruct (k (c :: s)) eqn:E.
    + intros [= <-]. exists (c :: s). auto.
    + destruct (cls c); [|discriminate]. intro H.
      destruct (IH H) as (s' & Hk & L). exists s'. cbn [length]. split; [auto|lia].
Qed.

Lemma greedy0_inv (cls : ascii -> bool) (s : text) (k : text -> option A) x :
  Re.greedy0 cls s k = Some x ->
  exists s', k s' = Some x /\ length s' <= length s.
Proof.
  induction s as [|c s IH]; cbn [Re.greedy0].
  - intro H. exists []. auto.
  - destruct (cls c).
    + destruct (Re.greedy0 cls s k) eqn:E.
      * intros [= <-]. destruct (IH eq_refl) as (s' & Hk & L).
        exists s'. cbn [length]. split; [auto|lia].
      * intro H. exists (c :: s). auto.
    + intro H. exists (c :: s). auto.
Qed.

Lemma exactly_inv (cls : ascii -> bool) (n : nat) (s : text)
  (k : text -> option A) x :
  Re.exactly cls n s k = Some x ->
  exists s', k s' = Some x /\ length s' + n <= length s.
Proof.
  revert s; induction n as [|n IH]; intro s; cbn [Re.exactly].
  - intro H. exists s. split; [auto|lia].
  - destruct s as [|c s]; [discriminate|].
    destruct (cls c); [|discriminate]. intro H.
    destruct (IH _ H) as (s' & Hk & L). exists s'. cbn [length].
    split; [auto|lia].
Qed.

Lemma rep_inv g lo cls (s : text) (k : text -> option A) x :
  Re.rep g lo cls s k = Some x ->
  exists s', k s' = Some x /\ length s' + lo <= length s.
Proof.
  unfold Re.rep. intro H. apply exactly_inv in H as (s1 & H & L1).
  destruct g.
  - apply greedy0_inv in H as (s' & H & L). exists s'. split; [auto|lia].
  - apply lazy0_inv in H as (s' & H & L). exists s'. split; [auto|lia].
Qed.

(** A successful run called its continuation on a text that is not
    longer than the input. *)
Lemma run_inv (r : Re.re) :
  forall (s : text) (c : Re.caps) (k : text -> Re.caps -> option A) x,
    Re.run r s c k = Some x ->
    exists s' c', k s' c' = Some x /\ length s' <= length s.
Proof.
  induction r as [w|g lo cls|r1 IH1 r2 IH2|r IH|i r IH];
    intros s c k x; cbn [Re.run].
  - destruct (strip_prefix w s) as [s'|] eqn:E; [|discriminate].
    intro H. exists s', c. split; [auto|].
    apply strip_prefix_Some in E. subst s. rewrite length_app. lia.
  - intro H. apply rep_inv in H as (s' & H & L). exists s', c.
    split; [auto|lia].
  - intro H. apply IH1 in H as (s1 & c1 & H & L1).
    apply IH2 in H as (s2 & c2 & H & L2). exists s2, c2. split; [auto|lia].
  - destruct (Re.run r s c k) eqn:E.
    + intros [= <-]. apply IH in E. exact E.
    + intro H. exists s, c. auto.
  - intro H. apply IH in H as (s' & c' & H & L).
    eexists s', _. split; [exact H|lia].
Qed.
End RunFacts.

(** The equations of [run], one for each form of pattern. *)

Lemma run_lit (A : Type) w s c (k : text -> Re.caps -> option A) :
  Re.run (Re.Lit w) s c k =
  match strip_prefix w s with Some s' => k s' c | None => None end.
Proof. reflexivity. Qed.

Lemma run_rep (A : Type) g lo cls s c (k : text -> Re.caps -> option A) :
  Re.run (Re.Rep g lo cls) s c k = Re.rep g lo cls s (fun s' => k s' c).
Proof. reflexivity. Qed.

Lemma run_seq (A : Type) r1 r2 s c (k : text -> Re.caps -> option A) :
  Re.run (Re.Seq r1 r2) s c k =
  Re.run r1 s c (fun s' c' => Re.run r2 s' c' k).
Proof. reflexivity. Qed.

Lemma run_opt (A : Type) r s c (k : text -> Re.caps -> option A) :
  Re.run (Re.Opt r) s c k =
  match Re.run r s c k with Some x => Some x | None => k s c end.
Proof. reflexivity. Qed.

Lemma run_grp (A : Type) i r s c (k : text -> Re.caps -> option A) :
  Re.run (Re.Grp i r) s c k =
  Re.run r s c
    (fun s' c' => k s' ((i, firstn (length s - length s') s) :: c')).
Proof. reflexivity. Qed.

Lemma run_lit_app (A : Type) w s c (k : text -> Re.caps -> option A) :
  Re.run (Re.Lit w) (w ++ s) c k = k s c.
Proof. rewrite run_lit. now rewrite strip_prefix_app. Qed.

Lemma run_lit_fail (A : Type) w s c (k : text -> Re.caps -> option A) :
  startswith w s = false -> Re.run (Re.Lit w) s c k = None.
Proof. intro H. rewrite run_lit. now rewrite (startswith_false _ _ H). Qed.

(** ** The declarations of [resolve_librs_conflict.py] *)

Lemma lstrip_In (x : ascii) (s : text) : In x (lstrip s) -> In x s.
Proof.
  induction s as [|c s IH]; cbn [lstrip]; [tauto|].
  destruct (is_space c); [right; auto|tauto].
Qed.

Lemma strip_In (x : ascii) (s : text) : In x (strip s) -> In x s.
Proof.
  unfold strip. intro H. apply in_rev in H. apply lstrip_In in H.
  apply in_rev in H. now apply lstrip_In.
Qed.

Lemma line_ok_incl (a b : text) :
  (forall x, In x a -> In x b) -> line_ok b -> line_ok a.
Proof.
  unfold line_ok. rewrite !forallb_forall. auto.
Qed.

Lemma line_ok_strip (l : text) : line_ok l -> line_ok (strip l).
Proof. apply (@line_ok_incl (strip l) l). intro x. apply strip_In. Qed.

Lemma line_ok_firstn (n : nat) (l : text) : line_ok l -> line_ok (firstn n l).
Proof.
  apply (@line_ok_incl (firstn n l) l). intros x H.
  rewrite <- (firstn_skipn n l). apply in_or_app. now left.
Qed.

Lemma declaration_starts (s : text)
  (k : text -> Re.caps -> option (Re.caps * text)) (c : Re.caps) x :
  Re.run LibRs.declaration s c k = Some x ->
  exists s' c', k s' c' = Some x /\ length s' + 3 <= length s.
Proof.
  unfold LibRs.declaration. rewrite run_seq, run_lit.
  destruct (strip_prefix (txt "pub") s) as [s1|] eqn:E; [|discriminate].
  apply strip_prefix_Some in E. subst s. intro H.
  apply run_inv in H as (s' & c' & H & L). exists s', c'.
  split; [exact H|]. rewrite length_app.
  change (length (txt "pub")) with 3. lia.
Qed.

Lemma is_declaration_nonempty (s : text) :
  LibRs.is_declaration s = true -> s <> [].
Proof.
  unfold LibRs.is_declaration, Re.match_at.
  destruct (Re.run LibRs.declaration s [] _) eqn:E; [|discriminate].
  apply declaration_starts in E as (s' & c' & _ & L).
  intros _ ->. cbn [length] in L. lia.
Qed.

Lemma pub_mod_group (s : text) (c : Re.caps) (rest : text) :
  Re.match_at LibRs.pub_mod_pattern s = Some (c, rest) ->
  exists n, Re.group c 1 = firstn n s /\ 3 <= n /\ 3 <= length s.
Proof.
  unfold Re.match_at, LibRs.pub_mod_pattern. rewrite run_grp. intro H.
  apply declaration_starts in H as (s' & c' & H & L).
  injection H as <- <-.
  exists (length s - length s'). split; [reflexivity|lia].
Qed.

Lemma firstn_nonempty (n : nat) (s : text) :
  3 <= n -> 3 <= length s -> firstn n s <> [].
Proof.
  intros Hn Hs E. apply (f_equal (@length ascii)) in E.
  rewrite length_firstn in E. cbn [length] in E. lia.
Qed.

(** Every declaration extracted from a block is a non-empty piece of a
    line. *)
Lemma extract_pub_mods_ok (block e : text) :
  In e (LibRs.extract_pub_mods block) -> entry_ok e.
Proof.
  unfold LibRs.extract_pub_mods.
  pose proof (split_nl_lines block) as Hl.
  enough (G : forall ls acc, Forall line_ok ls -> Forall entry_ok acc ->
            Forall entry_ok (fold_left
              (fun mods line =>
                 match Re.match_at LibRs.pub_mod_pattern (strip line) with
                 | Some (c, _) => set_add (Re.group c 1) mods
                 | None => mods
                 end) ls acc)).
  { intro H. specialize (G (split_nl block) [] Hl (Forall_nil _)).
    rewrite Forall_forall in G. auto. }
  induction ls as [|l ls IH]; intros acc Hls Hacc; [exact Hacc|].
  inversion Hls as [|? ? Hl1 Hls1]; subst. cbn [fold_left]. apply IH; [exact Hls1|].
  destruct (Re.match_at LibRs.pub_mod_pattern (strip l)) as [[c rest]|] eqn:E;
    [|exact Hacc].
  apply pub_mod_group in E as (n & -> & Hn & Hs).
  rewrite Forall_forall in *. intros x Hx. apply set_add_In in Hx as [->|Hx].
  - split.
    + apply line_ok_firstn, line_ok_strip, Hl1.
    + now apply firstn_nonempty.
  - auto.
Qed.

(** ** The loop over the lines *)

Lemma not_start_of_separator (l : text) :
  startswith LibRs.separator_prefix l = true ->
  startswith LibRs.start_prefix l = false.
Proof.
  intro H. apply startswith_inv in H as [r ->]. reflexivity.
Qed.

Lemma not_start_of_end (l : text) :
  startswith LibRs.end_prefix l = true ->
  startswith LibRs.start_prefix l = false /\
  startswith LibRs.separator_prefix l = false.
Proof.
  intro H. apply startswith_inv in H as [r ->]. split; reflexivity.
Qed.

Lemma is_marker_false (l : text) :
  Doc.is_marker l = false ->
  startswith LibRs.start_prefix l = false /\
  startswith LibRs.separator_prefix l = false /\
  startswith LibRs.end_prefix l = false.
Proof.
  unfold Doc.is_marker. intro H.
  apply orb_false_iff in H as [H H3]. apply orb_false_iff in H as [H1 H2].
  auto.
Qed.

Lemma step_start (st : LibRs.scan_state) (l : text) :
  startswith LibRs.start_prefix l = true ->
  LibRs.step st l =
  LibRs.State (LibRs.resolved_lines st) (LibRs.all_pub_mods st) true []
    (LibRs.pub_mods_insertion_point st).
Proof. intro H. unfold LibRs.step. now rewrite H. Qed.

Lemma step_separator (st : LibRs.scan_state) (l : text) :
  startswith LibRs.separator_prefix l = true ->
  LibRs.step st l =
  LibRs.State (LibRs.resolved_lines st)
    (set_update (LibRs.all_pub_mods st)
       (LibRs.extract_pub_mods (LibRs.conflict_section st)))
    (LibRs.in_conflict st) [] (LibRs.pub_mods_insertion_point st).
Proof.
  intro H. unfold LibRs.step.
  now rewrite (@not_start_of_separator _ H), H.
Qed.

Lemma step_end (st : LibRs.scan_state) (l : text) :
  startswith LibRs.end_prefix l = true ->
  LibRs.step st l =
  LibRs.State (LibRs.resolved_lines st)
    (set_update (LibRs.all_pub_mods st)
       (LibRs.extract_pub_mods (LibRs.conflict_section st)))
    false [] (LibRs.mark st).
Proof.
  intro H. unfold LibRs.step.
  destruct (@not_start_of_end _ H) as [H1 H2]. now rewrite H1, H2, H.
Qed.

Lemma step_inside (st : LibRs.scan_state) (l : text) :
  Doc.is_marker l = false -> LibRs.in_conflict st = true ->
  LibRs.step st l =
  LibRs.State (LibRs.resolved_lines st) (LibRs.all_pub_mods st) true
    (LibRs.conflict_section st ++ l ++ [nl])
    (LibRs.pub_mods_insertion_point st).
Proof.
  intros H Hc. unfold LibRs.step.
  destruct (@is_marker_false _ H) as (H1 & H2 & H3).
  now rewrite H1, H2, H3, Hc.
Qed.

Lemma step_outside (st : LibRs.scan_state) (l : text) :
  Doc.is_marker l = false -> LibRs.in_conflict st = false ->
  LibRs.step st l =
  if LibRs.is_declaration (strip l)
  then LibRs.State (LibRs.resolved_lines st)
         (set_add (strip l) (LibRs.all_pub_mods st)) false
         (LibRs.conflict_section st) (LibRs.mark st)
  else LibRs.State (LibRs.resolved_lines st ++ [l]) (LibRs.all_pub_mods st)
         false (LibRs.conflict_section st)
         (LibRs.pub_mods_insertion_point st).
Proof.
  intros H Hc. unfold LibRs.step.
  destruct (@is_marker_false _ H) as (H1 & H2 & H3).
  now rewrite H1, H2, H3, Hc.
Qed.

Lemma fold_inside (side : list text) (st : LibRs.scan_state) :
  Doc.plain side = true -> LibRs.in_conflict st = true ->
  fold_left LibRs.step side st =
  LibRs.State (LibRs.resolved_lines st) (LibRs.all_pub_mods st) true
    (LibRs.conflict_section st ++ Doc.side_text side)
    (LibRs.pub_mods_insertion_point st).
Proof.
  revert st; induction side as [|l side IH]; intros st Hp Hc.
  - cbn. rewrite app_nil_r. destruct st; cbn in *. now subst.
  - cbn [Doc.plain forallb] in Hp. apply andb_true_iff in Hp as [Hl Hp].
    apply negb_true_iff in Hl. cbn [fold_left].
    rewrite (@step_inside _ _ Hl Hc), IH by (auto). cbn.
    now rewrite <- !app_assoc.
Qed.

(** What a well-formed region does to the state: nothing is added to
    the resolved lines. *)
Lemma fold_region (st : LibRs.scan_state) start ours rest finish :
  Doc.well_formed (Doc.Region start ours rest finish) = true ->
  fold_left LibRs.step (Doc.lines_of (Doc.Region start ours rest finish)) st =
  LibRs.State (LibRs.resolved_lines st)
    (region_mods (LibRs.all_pub_mods st) ours rest) false [] (LibRs.mark st).
Proof.
  intros Hw. cbn [Doc.well_formed] in Hw.
  apply andb_true_iff in Hw as [Hw Hf]. apply andb_true_iff in Hw as [Hw Hr].
  apply andb_true_iff in Hw as [Hs Ho].
  destruct rest as [[sep theirs]|]; cbn [Doc.lines_of region_mods fold_left].
  - apply andb_true_iff in Hr as [Hsep Ht].
    rewrite (@step_start _ _ Hs), fold_left_app. cbn [fold_left].
    rewrite (@fold_inside ours) by (try assumption; reflexivity). cbn [app].
    rewrite (@step_separator _ _ Hsep). 
    rewrite fold_left_app. cbn [fold_left].
    rewrite (@fold_inside theirs) by (try assumption; reflexivity). 
    rewrite (@step_end _ _ Hf). reflexivity.
  - rewrite (@step_start _ _ Hs), fold_left_app. cbn [fold_left].
    rewrite (@fold_inside ours) by (try assumption; reflexivity). 
    rewrite (@step_end _ _ Hf). reflexivity.
Qed.

Lemma fold_plain (ls : list text) (st : LibRs.scan_state) :
  Doc.plain ls = true -> LibRs.in_conflict st = false ->
  LibRs.resolved_lines (fold_left LibRs.step ls st) =
    LibRs.resolved_lines st ++ filter kept ls /\
  LibRs.all_pub_mods (fold_left LibRs.step ls st) =
    set_update (LibRs.all_pub_mods st) (segment_entries (Doc.Plain ls)) /\
  LibRs.in_conflict (fold_left LibRs.step ls st) = false.
Proof.
  revert st; induction ls as [|l ls IH]; intros st Hp Hc.
  - cbn. now rewrite app_nil_r.
  - cbn [Doc.plain forallb] in Hp. apply andb_true_iff in Hp as [Hl Hp].
    apply negb_true_iff in Hl. cbn [fold_left].
    rewrite (@step_outside st l Hl Hc).
    cbn [segment_entries filter].
    change (kept l) with (negb (LibRs.is_declaration (strip l))).
    destruct (LibRs.is_declaration (strip l)) eqn:E; cbn [negb map].
    + destruct (IH (LibRs.State (LibRs.resolved_lines st)
                      (set_add (strip l) (LibRs.all_pub_mods st)) false
                      (LibRs.conflict_section st) (LibRs.mark st)) Hp eq_refl)
        as (H1 & H2 & H3).
      rewrite H1, H2, H3. cbn. auto.
    + destruct (IH (LibRs.State (LibRs.resolved_lines st ++ [l])
                      (LibRs.all_pub_mods st) false
                      (LibRs.conflict_section st)
                      (LibRs.pub_mods_insertion_point st)) Hp eq_refl)
        as (H1 & H2 & H3).
      rewrite H1, H2, H3. cbn. rewrite <- app_assoc. auto.
Qed.

Lemma region_mods_In (e : text) (mods ours : list text) rest start finish :
  In e (region_mods mods ours rest) <->
  In e mods \/ In e (segment_entries (Doc.Region start ours rest finish)).
Proof.
  unfold region_mods. cbn [segment_entries Doc.theirs_of].
  destruct rest as [[sep theirs]|].
  - rewrite !set_update_In, in_app_iff. tauto.
  - rewrite set_update_In, in_app_iff.
    change (LibRs.extract_pub_mods (Doc.side_text [])) with (@nil text).
    cbn [In]. tauto.
Qed.

(** The state after a document made of well-formed segments: the
    resolved lines are the lines outside the regions that are not
    declarations, and the set holds the declarations of the segments. *)
Lemma scan_segments (segs : list Doc.segment) :
  forallb Doc.well_formed segs = true ->
  forall st, LibRs.in_conflict st = false ->
    let st' := fold_left LibRs.step (flat_map Doc.lines_of segs) st in
    LibRs.resolved_lines st' =
      LibRs.resolved_lines st ++ filter kept (flat_map Doc.outside segs) /\
    LibRs.in_conflict st' = false /\
    forall e, In e (LibRs.all_pub_mods st') <->
              In e (LibRs.all_pub_mods st) \/
              In e (flat_map segment_entries segs).
Proof.
  induction segs as [|g segs IH]; intros Hw st Hc.
  - cbn. rewrite app_nil_r. repeat split; auto. tauto.
  - cbn [forallb] in Hw. apply andb_true_iff in Hw as [Hg Hw].
    cbn [flat_map]. rewrite fold_left_app.
    destruct g as [ls|start ours rest finish].
    + destruct (@fold_plain ls st Hg Hc) as (H1 & H2 & H3).
      destruct (IH Hw _ H3) as (G1 & G2 & G3). cbn zeta.
      cbn [Doc.lines_of].
      rewrite G1, H1. cbn [Doc.outside]. rewrite filter_app, <- app_assoc.
      repeat split; auto.
      * intro H. apply G3 in H. rewrite H2, set_update_In in H.
        rewrite in_app_iff. tauto.
      * intro H. apply G3. rewrite H2, set_update_In.
        rewrite in_app_iff in H. tauto.
    + rewrite (@fold_region st start ours rest finish Hg).
      destruct (IH Hw (LibRs.State (LibRs.resolved_lines st)
                   (region_mods (LibRs.all_pub_mods st) ours rest) false []
                   (LibRs.mark st)) eq_refl) as (G1 & G2 & G3). cbn zeta.
      rewrite G1. cbn [Doc.outside app LibRs.resolved_lines].
      repeat split; auto.
      * intro H. apply G3 in H. cbn [LibRs.all_pub_mods] in H.
        rewrite (region_mods_In e (LibRs.all_pub_mods st) ours rest start finish) in H.
        rewrite in_app_iff. tauto.
      * intro H. apply G3. cbn [LibRs.all_pub_mods].
        rewrite (region_mods_In e (LibRs.all_pub_mods st) ours rest start finish).
        rewrite in_app_iff in H. tauto.
Qed.

(** ** The insertion of the merged declarations *)

Lemma list_insert_app (k : nat) (m : text) (a b : list text) :
  length a = k \/ (length a <= k /\ b = []) ->
  LibRs.list_insert k m (a ++ b) = (a ++ [m]) ++ b.
Proof.
  unfold LibRs.list_insert. intros [H|[H ->]].
  - subst k. rewrite firstn_app, Nat.sub_diag, firstn_all. cbn [firstn].
    rewrite skipn_app, Nat.sub_diag, skipn_all. cbn [skipn app].
    now rewrite app_nil_r, <- app_assoc.
  - rewrite !app_nil_r, firstn_all2, skipn_all2 by lia. reflexivity.
Qed.

Lemma insert_all_app (ms : list text) (k : nat) (a b : list text) :
  length a = k \/ (length a <= k /\ b = []) ->
  LibRs.insert_all k ms (a ++ b) = a ++ ms ++ b.
Proof.
  revert k a; induction ms as [|m ms IH]; intros k a H; [reflexivity|].
  cbn [LibRs.insert_all]. rewrite list_insert_app by exact H.
  rewrite IH.
  - now rewrite <- app_assoc.
  - rewrite length_app. cbn [length]. destruct H as [H|[H ->]]; [left|right]; 
      try split; auto; lia.
Qed.

Lemma insert_all_at (ms : list text) (k : nat) (l : list text) :
  LibRs.insert_all k ms l = firstn k l ++ ms ++ skipn k l.
Proof.
  rewrite <- (firstn_skipn k l) at 1. apply insert_all_app.
  destruct (Nat.le_gt_cases k (length l)) as [H|H].
  - left. apply firstn_length_le. exact H.
  - right. split; [rewrite length_firstn; lia|]. apply skipn_all2. lia.
Qed.

Lemma merged_lines_at (set_order : list text -> list text) (st : LibRs.scan_state) :
  exists k, LibRs.merged_lines set_order st =
            firstn k (LibRs.resolved_lines st) ++
            LibRs.sorted_mods set_order st ++
            skipn k (LibRs.resolved_lines st).
Proof.
  unfold LibRs.merged_lines.
  destruct (LibRs.sorted_mods set_order st) as [|m ms] eqn:E.
  - exists 0. reflexivity.
  - destruct (LibRs.pub_mods_insertion_point st) as [k|];
      eexists; apply insert_all_at.
Qed.

(** ** From the merged lines to the written text *)

Lemma nonblank_lines_join (ls : list text) :
  Forall line_ok ls -> nonblank_lines (join_nl ls) = filter nonblank ls.
Proof.
  intro H. destruct ls as [|l ls]; [reflexivity|].
  unfold nonblank_lines. rewrite split_join_nl; [reflexivity|discriminate|exact H].
Qed.

Lemma nonblank_lines_ensure (set_order : list text -> list text) (t : text) :
  nonblank_lines (LibRs.ensure_newline t) = nonblank_lines t.
Proof.
  unfold LibRs.ensure_newline. destruct (endswith_nl t); [reflexivity|].
  unfold nonblank_lines. rewrite split_nl_app_nl, filter_app. cbn.
  apply app_nil_r.
Qed.

Lemma rewrite_lines (set_order : list text -> list text) (content : text) :
  Forall line_ok (LibRs.merged_lines set_order
                    (LibRs.scan_lines (split_nl content))) ->
  nonblank_lines (LibRs.rewrite set_order content) =
  filter nonblank (LibRs.merged_lines set_order
                     (LibRs.scan_lines (split_nl content))).
Proof.
  intro H. unfold LibRs.rewrite.
  rewrite (nonblank_lines_ensure set_order), collapse_blank_lines.
  now apply nonblank_lines_join.
Qed.

(** ** Subsequences *)

Lemma Subseq_refl (a : list text) : Subseq a a.
Proof. induction a; [apply Subseq_nil|now apply Subseq_take]. Qed.

Lemma Subseq_app_mid (a b c : list text) : Subseq (a ++ c) (a ++ b ++ c).
Proof.
  induction a as [|x a IH]; cbn [app].
  - induction b as [|y b IH]; [apply Subseq_refl|now apply Subseq_skip].
  - now apply Subseq_take.
Qed.

Lemma Subseq_of_filter (p : text -> bool) (y x : list text) :
  Subseq x (filter p y) -> Subseq x y.
Proof.
  revert x; induction y as [|h y IH]; intros x H; cbn [filter] in H.
  - exact H.
  - destruct (p h).
    + inversion H; subst;
        [apply Subseq_nil|apply Subseq_skip|apply Subseq_take]; auto.
    + apply Subseq_skip; auto.
Qed.

Lemma Subseq_tail (x : text) (a b : list text) :
  Subseq (x :: a) b -> Subseq a b.
Proof.
  induction b as [|y b IH]; intro H; inversion H; subst.
  - apply Subseq_skip; auto.
  - now apply Subseq_skip.
Qed.

Lemma is_subseq_complete (b a : list text) :
  Subseq a b -> is_subseq a b = true.
Proof.
  revert a; induction b as [|y b IH]; intros a H.
  - inversion H; reflexivity.
  - destruct a as [|x a]; [reflexivity|]. cbn [is_subseq].
    destruct (text_eqb x y) eqn:E.
    + apply IH. inversion H; subst; [now apply Subseq_tail with x|assumption].
    + apply IH. inversion H; subst; [assumption|].
      assert (text_eqb y y = true) by now apply text_eqb_eq. congruence.
Qed.

Lemma filter_filter_and (p q : text -> bool) (l : list text) :
  filter p (filter q l) = filter (fun x => p x && q x) l.
Proof.
  induction l as [|x l IH]; [reflexivity|]. cbn [filter].
  destruct (q x); cbn [filter]; rewrite ?andb_true_r, ?andb_false_r;
    destruct (p x); now rewrite IH.
Qed.

(** ** Lines and substrings *)

Lemma split_nl_head (s : text) :
  exists rest, s = hd [] (split_nl s) ++ rest.
Proof.
  pose proof (join_split_nl s) as H.
  destruct (split_nl s) as [|l ls] eqn:E; [now apply split_nl_nonempty in E|].
  destruct ls as [|l' ls].
  - exists []. cbn in *. now rewrite app_nil_r.
  - rewrite join_nl_cons in H by discriminate. eexists. cbn [hd].
    symmetry. exact H.
Qed.

(** A prefix of a line occurs in the text. *)
Lemma contains_line (w : text) (s l : text) :
  In l (split_nl s) -> startswith w l = true -> contains w s = true.
Proof.
  revert l; induction s as [|c s IH]; intros l Hl Hw.
  - cbn in Hl. destruct Hl as [<-|[]]. cbn. now rewrite Hw.
  - destruct (is_nl c) eqn:E.
    + apply is_nl_true in E; subst c. rewrite split_nl_cons_nl in Hl.
      destruct Hl as [<-|Hl].
      * apply startswith_inv in Hw as [r Hr].
        destruct w; [reflexivity|discriminate].
      * rewrite contains_cons, (IH l Hl Hw). apply orb_true_r.
    + rewrite split_nl_cons_char in Hl by exact E.
      destruct Hl as [<-|Hl].
      * destruct (split_nl_head s) as [rest Hr].
        rewrite contains_cons.
        replace (c :: s) with ((c :: hd [] (split_nl s)) ++ rest)
          by (cbn [app]; congruence).
        now rewrite (startswith_app_l _ _ rest Hw).
      * rewrite contains_cons, (IH l) ; [apply orb_true_r| |exact Hw].
        destruct (split_nl s); [destruct Hl|now right].
Qed.

(** ** The declaration tool on a document made of segments *)

Section LibRsFacts.
Variable set_order : list text -> list text.
Hypothesis set_order_perm : forall l, Permutation (set_order l) l.

Lemma sorted_mods_In (st : LibRs.scan_state) (e : text) :
  In e (LibRs.sorted_mods set_order st) <-> In e (LibRs.all_pub_mods st).
Proof.
  unfold LibRs.sorted_mods. rewrite sorted_by_In.
  split; apply Permutation_in;
    [apply set_order_perm | symmetry; apply set_order_perm].
Qed.

Lemma segment_lines_ok (segs : list Doc.segment) (content : text) :
  split_nl content = flat_map Doc.lines_of segs ->
  Forall line_ok (flat_map Doc.lines_of segs).
Proof. intros <-. apply split_nl_lines. Qed.

Lemma outside_lines (g : Doc.segment) (l : text) :
  In l (Doc.outside g) -> In l (Doc.lines_of g).
Proof. destruct g; cbn; tauto. Qed.

Lemma segment_entries_ok (segs : list Doc.segment) (e : text) :
  Forall line_ok (flat_map Doc.lines_of segs) ->
  In e (flat_map segment_entries segs) -> entry_ok e.
Proof.
  intros Hl He. apply in_flat_map in He as (g & Hg & He).
  destruct g as [ls|start ours rest finish]; cbn [segment_entries] in He.
  - apply in_map_iff in He as (l & <- & Hl1).
    apply filter_In in Hl1 as [Hl1 Hd]. split.
    + apply line_ok_strip. rewrite Forall_forall in Hl. apply Hl.
      apply in_flat_map. exists (Doc.Plain ls). auto.
    + now apply is_declaration_nonempty.
  - apply in_app_iff in He as [He|He]; eapply extract_pub_mods_ok; eauto.
Qed.

(** The lines the tool joins: the lines outside the regions that are not
    declarations, with the sorted declarations of all segments put in
    at one place. *)
Lemma librs_shape (segs : list Doc.segment) (content : text) :
  forallb Doc.well_formed segs = true ->
  split_nl content = flat_map Doc.lines_of segs ->
  let st := LibRs.scan_lines (split_nl content) in
  let R := filter kept (flat_map Doc.outside segs) in
  LibRs.resolved_lines st = R /\
  (forall e, In e (LibRs.sorted_mods set_order st) <->
             In e (flat_map segment_entries segs)) /\
  (exists k, LibRs.merged_lines set_order st =
             firstn k R ++ LibRs.sorted_mods set_order st ++ skipn k R) /\
  Forall line_ok (LibRs.merged_lines set_order st).
Proof.
  intros Hw Hs. cbn zeta. unfold LibRs.scan_lines. rewrite Hs.
  destruct (@scan_segments segs Hw LibRs.initial eq_refl) as (H1 & H2 & H3).
  cbn [LibRs.initial LibRs.resolved_lines LibRs.all_pub_mods app] in H1, H3.
  assert (HE : forall e,
             In e (LibRs.sorted_mods set_order
                     (fold_left LibRs.step (flat_map Doc.lines_of segs)
                        LibRs.initial)) <->
             In e (flat_map segment_entries segs)).
  { intro e. rewrite sorted_mods_In, H3. cbn [In]. tauto. }
  pose proof (@segment_lines_ok segs content Hs) as Hl.
  destruct (merged_lines_at set_order
              (fold_left LibRs.step (flat_map Doc.lines_of segs)
                 LibRs.initial)) as [k Hk].
  rewrite H1 in Hk. repeat split; auto.
  - apply HE.
  - apply HE.
  - exists k. exact Hk.
  - rewrite Hk. rewrite Forall_forall in *. intros x Hx.
    assert (HR : forall y, In y (filter kept (flat_map Doc.outside segs)) ->
                           line_ok y).
    { intros y Hy. apply filter_In in Hy as [Hy _].
      apply in_flat_map in Hy as (g & Hg & Hy). apply Hl.
      apply in_flat_map. exists g. split; [exact Hg|].
      now apply outside_lines. }
    apply in_app_iff in Hx as [Hx|Hx].
    + apply HR. rewrite <- (firstn_skipn k). apply in_or_app. now left.
    + apply in_app_iff in Hx as [Hx|Hx].
      * apply HE in Hx. 
        apply (@segment_entries_ok segs x); [|exact Hx].
        rewrite Forall_forall. exact Hl.
      * apply HR. rewrite <- (firstn_skipn k). apply in_or_app. now right.
Qed.

Lemma librs_runs (content : text) :
  contains LibRs.start_prefix content = true ->
  LibRs.resolve_librs_conflict set_order (Some content) =
  Outcome (LibRs.report set_order (LibRs.scan_lines (split_nl content))) []
    (Some (LibRs.rewrite set_order content)) (Returns true).
Proof.
  intro H. unfold LibRs.resolve_librs_conflict. now rewrite H.
Qed.

(** A document with a well-formed region passes the check for
    markers. *)
Lemma region_has_marker (segs : list Doc.segment) (content : text)
  start ours rest finish :
  forallb Doc.well_formed segs = true ->
  split_nl content = flat_map Doc.lines_of segs ->
  In (Doc.Region start ours rest finish) segs ->
  contains LibRs.start_prefix content = true.
Proof.
  intros Hw Hs Hg. apply contains_line with start.
  - rewrite Hs. apply in_flat_map. eexists. split; [exact Hg|].
    destruct rest as [[? ?]|]; cbn; auto.
  - rewrite forallb_forall in Hw. specialize (Hw _ Hg).
    cbn [Doc.well_formed] in Hw.
    apply andb_true_iff in Hw as [Hw _]. apply andb_true_iff in Hw as [Hw _].
    apply andb_true_iff in Hw as [Hw _]. exact Hw.
Qed.

(** Every declaration of a region is a line of the written text. *)
Lemma librs_completeness (segs : list Doc.segment) (content e : text)
  start ours rest finish :
  forallb Doc.well_formed segs = true ->
  split_nl content = flat_map Doc.lines_of segs ->
  In (Doc.Region start ours rest finish) segs ->
  In e (segment_entries (Doc.Region start ours rest finish)) ->
  exists t,
    written (LibRs.resolve_librs_conflict set_order (Some content)) = Some t
    /\ In e (split_nl t).
Proof.
  intros Hw Hs Hg He.
  rewrite librs_runs by (eapply region_has_marker; eauto).
  eexists. split; [reflexivity|].
  destruct (librs_shape segs content Hw Hs) as (H1 & H2 & (k & H3) & H4).
  assert (Hx : In e (flat_map segment_entries segs)).
  { apply in_flat_map. eexists; split; eauto. }
  assert (Hn : In e (nonblank_lines (LibRs.rewrite set_order content))).
  { rewrite rewrite_lines by exact H4. apply filter_In. split.
    - rewrite H3. apply in_or_app. right. apply in_or_app. left.
      now apply H2.
    - apply segment_entries_ok in Hx as [_ Hx];
        [|eapply segment_lines_ok; eauto].
      destruct e; [congruence|reflexivity]. }
  apply filter_In in Hn. tauto.
Qed.

Lemma no_entries_kept (segs : list Doc.segment) :
  flat_map segment_entries segs = [] ->
  filter kept (flat_map Doc.outside segs) = flat_map Doc.outside segs.
Proof.
  induction segs as [|g segs IH]; [reflexivity|].
  cbn [flat_map]. intro H. apply app_eq_nil in H as [Hg H].
  rewrite filter_app, (IH H). f_equal.
  destruct g as [ls|]; [|reflexivity]. cbn [Doc.outside segment_entries] in *.
  apply map_eq_nil in Hg.
  induction ls as [|l ls IHl]; [reflexivity|]. cbn [filter] in *.
  unfold kept at 1. destruct (LibRs.is_declaration (strip l));
    [discriminate|]. cbn [negb]. f_equal. auto.
Qed.

(** When no declaration is found anywhere the written text is made of
    the lines outside the regions: both sides of every region are
    dropped. *)
Lemma librs_no_entries (segs : list Doc.segment) (content : text) :
  forallb Doc.well_formed segs = true ->
  split_nl content = flat_map Doc.lines_of segs ->
  flat_map segment_entries segs = [] ->
  LibRs.rewrite set_order content =
  LibRs.ensure_newline
    (collapse_blank (join_nl (flat_map Doc.outside segs))) /\
  LibRs.report set_order (LibRs.scan_lines (split_nl content)) = [Resolved].
Proof.
  intros Hw Hs He.
  destruct (librs_shape segs content Hw Hs) as (H1 & H2 & _ & _).
  assert (Hm : LibRs.sorted_mods set_order
                 (LibRs.scan_lines (split_nl content)) = []).
  { destruct (LibRs.sorted_mods set_order _) as [|m ms] eqn:E;
      [reflexivity|].
    exfalso. rewrite He in H2. apply (H2 m). now left. }
  split.
  - unfold LibRs.rewrite, LibRs.merged_lines. cbn zeta. rewrite Hm, H1.
    now rewrite no_entries_kept.
  - unfold LibRs.report. now rewrite Hm.
Qed.

(** The non-blank lines outside the regions that are not declarations
    are lines of the written text, in their order. *)
Lemma librs_preservation (segs : list Doc.segment) (content : text) :
  forallb Doc.well_formed segs = true ->
  split_nl content = flat_map Doc.lines_of segs ->
  Subseq (filter (fun l => nonblank l && kept l) (flat_map Doc.outside segs))
    (split_nl (LibRs.rewrite set_order content)).
Proof.
  intros Hw Hs.
  destruct (librs_shape segs content Hw Hs) as (H1 & H2 & (k & H3) & H4).
  apply Subseq_of_filter with nonblank.
  fold (nonblank_lines (LibRs.rewrite set_order content)).
  rewrite rewrite_lines by exact H4. rewrite H3.
  rewrite <- filter_filter_and.
  rewrite <- (firstn_skipn k (filter kept (flat_map Doc.outside segs))) at 1.
  rewrite !filter_app. apply Subseq_app_mid.
Qed.
End LibRsFacts.

(** ** Occurrences of a word *)

Lemma Suffix_refl (s : text) : Suffix s s.
Proof. now exists []. Qed.

Lemma Suffix_cons (t : text) (c : ascii) (s : text) :
  Suffix t s -> Suffix t (c :: s).
Proof. intros [a ->]. now exists (c :: a). Qed.

Lemma Suffix_app (t a s : text) : Suffix t s -> Suffix t (a ++ s).
Proof. intros [b ->]. exists (a ++ b). now rewrite app_assoc. Qed.

Lemma Suffix_trans (a b c : text) : Suffix a b -> Suffix b c -> Suffix a c.
Proof. intros [x ->] [y ->]. exists (y ++ x). now rewrite app_assoc. Qed.

Lemma Suffix_cons_inv (t : text) (c : ascii) (s : text) :
  Suffix t (c :: s) -> t = c :: s \/ Suffix t s.
Proof.
  intros [[|a l] H]; cbn in H.
  - now left.
  - right. injection H as -> ->. now exists l.
Qed.

Lemma Suffix_app_inv (t a b : text) :
  Suffix t (a ++ b) ->
  (exists a1 a2, a = a1 ++ a2 /\ a2 <> [] /\ t = a2 ++ b) \/ Suffix t b.
Proof.
  induction a as [|c a IH]; intro H; [now right|].
  cbn [app] in H. apply Suffix_cons_inv in H as [->|H].
  - left. exists [], (c :: a). repeat split; auto. discriminate.
  - destruct (IH H) as [(a1 & a2 & -> & Hn & ->)|Hb]; [left|now right].
    exists (c :: a1), a2. auto.
Qed.

Lemma contains_false_suffix (w s t : text) :
  contains w s = false -> Suffix t s -> startswith w t = false.
Proof.
  intros H [a ->]. apply contains_false_app in H as [_ H].
  now apply contains_false_startswith.
Qed.

Lemma contains_false_Suffix (w s t : text) :
  contains w s = false -> Suffix t s -> contains w t = false.
Proof.
  intros H [a ->]. now apply contains_false_app in H as [_ H].
Qed.

Lemma startswith_In (w u v : text) (x : ascii) :
  startswith w (u ++ v) = true -> startswith w u = false ->
  In x u -> In x w.
Proof.
  intros H Hu Hx. apply startswith_app_cases in H as [H|H]; [congruence|].
  destruct H as (w1 & w2 & -> & -> & _). apply in_or_app. now left.
Qed.

Lemma last_In (s : text) (d : ascii) : s <> [] -> In (last s d) s.
Proof.
  induction s as [|c s IH]; [congruence|]. intros _.
  destruct s as [|c' s]; [now left|]. right. apply IH. discriminate.
Qed.

Lemma ends_line_last (s : text) :
  ends_line s = true -> s <> [] -> last s nl = nl.
Proof.
  intros H Hn. destruct s as [|c s]; [congruence|].
  cbn [ends_line] in H. rewrite (@endswith_nl_last (c :: s) nl) in H by discriminate.
  now apply is_nl_true.
Qed.

Lemma last_app_nonempty (a b : text) (d : ascii) :
  b <> [] -> last (a ++ b) d = last b d.
Proof.
  intro H. destruct b as [|c b]; [congruence|].
  now rewrite last_app_cons, last_cons_default.
Qed.

(** A word without newline does not start in a text made of whole lines
    unless it lies in it. *)
Lemma no_straddle (w s u1 u2 r : text) :
  forallb not_nl w = true -> contains w s = false -> ends_line s = true ->
  s = u1 ++ u2 -> u2 <> [] -> startswith w (u2 ++ r) = false.
Proof.
  intros Hw Hc He -> Hn.
  destruct (startswith w (u2 ++ r)) eqn:E; [|reflexivity]. exfalso.
  assert (Hu : startswith w u2 = false).
  { eapply contains_false_suffix; [exact Hc|]. now exists u1. }
  assert (Hl : last (u1 ++ u2) nl = nl).
  { apply ends_line_last; [exact He|]. destruct u1; [exact Hn|discriminate]. }
  rewrite last_app_nonempty in Hl by exact Hn.
  pose proof (@startswith_In w u2 r (last u2 nl) E Hu (last_In nl Hn)) as Hin.
  rewrite Hl in Hin. rewrite forallb_forall in Hw. specialize (Hw nl Hin).
  discriminate.
Qed.

Lemma contains_app_lines (w a b : text) :
  forallb not_nl w = true -> contains w a = false -> ends_line a = true ->
  contains w b = false -> contains w (a ++ b) = false.
Proof.
  intros Hw Ha He Hb. 
  enough (G : forall a1 a2, a = a1 ++ a2 -> contains w (a2 ++ b) = false)
    by (apply (G [] a eq_refl)).
  intros a1 a2; revert a1; induction a2 as [|c a2 IH]; intros a1 Ha2.
  - exact Hb.
  - cbn [app]. rewrite contains_cons.
    change (c :: a2 ++ b) with ((c :: a2) ++ b).
    rewrite (@no_straddle w a a1 (c :: a2) b Hw Ha He Ha2) by discriminate.
    apply (IH (a1 ++ [c])). now rewrite <- app_assoc.
Qed.

Lemma ends_line_nonempty (s : text) :
  s <> [] -> ends_line s = is_nl (last s nl).
Proof.
  intro H. destruct s as [|c s]; [congruence|].
  cbn [ends_line]. now apply endswith_nl_last.
Qed.

Lemma ends_line_app (a b : text) :
  ends_line a = true -> ends_line b = true -> ends_line (a ++ b) = true.
Proof.
  intros Ha Hb. destruct b as [|c b]; [now rewrite app_nil_r|].
  rewrite ends_line_nonempty by (destruct a; discriminate).
  rewrite ends_line_nonempty in Hb by discriminate.
  now rewrite last_app_nonempty by discriminate.
Qed.

Lemma startswith_prefix (a b t : text) :
  startswith (a ++ b) t = true -> startswith a t = true.
Proof.
  intro H. apply startswith_inv in H as [r ->].
  rewrite <- app_assoc. apply startswith_app.
Qed.

(** ** Lazy and greedy runs *)

Section Runs.
Variable A : Type.
Implicit Types (k : text -> option A).

Lemma lazy0_skip k (u v : text) :
  (forall u1 u2, u = u1 ++ u2 -> u2 <> [] -> k (u2 ++ v) = None) ->
  Re.lazy0 any_char (u ++ v) k = Re.lazy0 any_char v k.
Proof.
  induction u as [|c u IH]; intro H; [reflexivity|].
  cbn [app Re.lazy0].
  assert (H0 : k (c :: u ++ v) = None)
    by (apply (H [] (c :: u) eq_refl); discriminate).
  rewrite H0. cbn [any_char].
  apply IH. intros u1 u2 -> Hn. apply (H (c :: u1) u2); auto.
Qed.

Lemma lazy0_hit cls k (v : text) x :
  k v = Some x -> Re.lazy0 cls v k = Some x.
Proof. intro H. destruct v; cbn [Re.lazy0]; now rewrite H. Qed.

Lemma lazy0_none cls k (s : text) :
  (forall t, Suffix t s -> k t = None) -> Re.lazy0 cls s k = None.
Proof.
  induction s as [|c s IH]; intro H; cbn [Re.lazy0].
  - now rewrite (H [] (Suffix_refl _)).
  - rewrite (H (c :: s) (Suffix_refl _)). destruct (cls c); [|reflexivity].
    apply IH. intros t Ht. apply H. now apply Suffix_cons.
Qed.

Lemma greedy0_app cls k (u v : text) x :
  forallb cls u = true -> Re.greedy0 cls v k = Some x ->
  Re.greedy0 cls (u ++ v) k = Some x.
Proof.
  induction u as [|c u IH]; intros Hu Hv; [exact Hv|].
  cbn [forallb] in Hu. apply andb_true_iff in Hu as [Hc Hu].
  cbn [app Re.greedy0]. now rewrite Hc, (IH Hu Hv).
Qed.

Lemma greedy0_app_none cls k (u v : text) :
  forallb cls u = true -> Re.greedy0 cls v k = None ->
  (forall u1 u2, u = u1 ++ u2 -> u2 <> [] -> k (u2 ++ v) = None) ->
  Re.greedy0 cls (u ++ v) k = None.
Proof.
  induction u as [|c u IH]; intros Hu Hv H; [exact Hv|].
  cbn [forallb] in Hu. apply andb_true_iff in Hu as [Hc Hu].
  cbn [app Re.greedy0]. rewrite Hc, IH; auto.
  - apply (H [] (c :: u)); [reflexivity|discriminate].
  - intros u1 u2 -> Hn. apply (H (c :: u1) u2); auto.
Qed.

Lemma greedy0_stop cls k (c : ascii) (v : text) :
  cls c = false -> Re.greedy0 cls (c :: v) k = k (c :: v).
Proof. intro H. cbn [Re.greedy0]. now rewrite H. Qed.

Lemma greedy0_nil cls k : Re.greedy0 cls [] k = k [].
Proof. reflexivity. Qed.
End Runs.

Section Patterns.
Variable A : Type.
Implicit Types (k : text -> Re.caps -> option A).

(** The rest of a line and its newline. *)
Lemma run_line r (l s : text) c k :
  forallb not_nl l = true ->
  Re.run (Re.Rep true 0 not_nl ;; Re.Lit [nl] ;; r)%re (l ++ nl :: s) c k
  = Re.run r s c k.
Proof.
  intro Hl. rewrite run_seq, run_rep. unfold Re.rep. cbn [Re.exactly].
  induction l as [|a l IH].
  - cbn [app]. rewrite greedy0_stop by reflexivity. cbv beta.
    rewrite run_seq. change (nl :: s) with ([nl] ++ s).
    now rewrite run_lit_app.
  - cbn [forallb] in Hl. apply andb_true_iff in Hl as [Ha Hl].
    cbn [app Re.greedy0]. rewrite Ha, (IH Hl).
    destruct (Re.run r s c k) eqn:E; [reflexivity|].
    rewrite run_seq. apply run_lit_fail.
    unfold startswith. cbn [strip_prefix]. unfold not_nl in Ha.
    apply negb_true_iff in Ha. rewrite Ascii.eqb_sym in Ha. now rewrite Ha.
Qed.

(** The end of a marker line: the rest of the line and the newline. *)
Lemma run_line_end (l s : text) c k x :
  forallb not_nl l = true -> k s c = Some x ->
  Re.run (Re.Rep true 0 not_nl ;; Re.Opt (Re.Lit [nl]))%re
    (l ++ nl :: s) c k = Some x.
Proof.
  intros Hl Hk. rewrite run_seq, run_rep. unfold Re.rep. cbn [Re.exactly].
  apply greedy0_app; [exact Hl|].
  rewrite greedy0_stop by reflexivity. cbv beta.
  rewrite run_opt. change (nl :: s) with ([nl] ++ s).
  now rewrite run_lit_app, Hk.
Qed.

(** A lazy run in a group reaches the first place where the next
    literal starts. *)
Lemma run_lazy_group i w r (u v : text) c k x :
  (forall u1 u2, u = u1 ++ u2 -> u2 <> [] ->
                 startswith w (u2 ++ w ++ v) = false) ->
  Re.run r v ((i, u) :: c) k = Some x ->
  Re.run (Re.Grp i (Re.Rep false 0 any_char) ;; Re.Lit w ;; r)%re
    (u ++ w ++ v) c k = Some x.
Proof.
  intros Hu Hr. rewrite run_seq, run_grp, run_rep. unfold Re.rep.
  cbn [Re.exactly]. rewrite lazy0_skip.
  - apply lazy0_hit. rewrite run_seq, run_lit_app.
    replace (length (u ++ w ++ v) - length (w ++ v)) with (length u)
      by (rewrite !length_app; lia).
    rewrite firstn_app, Nat.sub_diag, firstn_all. cbn [firstn].
    now rewrite app_nil_r.
  - intros u1 u2 Hu12 Hn. rewrite run_seq. apply run_lit_fail. eauto.
Qed.

Lemma run_lazy r w (u v : text) c k x :
  (forall u1 u2, u = u1 ++ u2 -> u2 <> [] ->
                 startswith w (u2 ++ w ++ v) = false) ->
  Re.run r v c k = Some x ->
  Re.run (Re.Rep false 0 any_char ;; Re.Lit w ;; r)%re
    (u ++ w ++ v) c k = Some x.
Proof.
  intros Hu Hr. rewrite run_seq, run_rep. unfold Re.rep.
  cbn [Re.exactly]. rewrite lazy0_skip.
  - apply lazy0_hit. now rewrite run_seq, run_lit_app.
  - intros u1 u2 Hu12 Hn. rewrite run_seq. apply run_lit_fail. eauto.
Qed.

(** A lazy run followed by a literal that occurs nowhere fails. *)
Lemma run_lazy_none r w (s : text) c k :
  contains w s = false ->
  Re.run (Re.Rep false 0 any_char ;; Re.Lit w ;; r)%re s c k = None.
Proof.
  intro H. rewrite run_seq, run_rep. unfold Re.rep. cbn [Re.exactly].
  apply lazy0_none. intros t Ht. rewrite run_seq. apply run_lit_fail.
  eapply contains_false_suffix; eauto.
Qed.
End Patterns.

(** ** Scanning for matches *)

Lemma scan_nomatch (r : Re.re) (u v : text) :
  (forall u1 u2, u = u1 ++ u2 -> u2 <> [] -> Re.match_at r (u2 ++ v) = None) ->
  Re.scan r (u ++ v) 0 = map (fun c => inl [c]) u ++ Re.scan r v 0.
Proof.
  induction u as [|a u IH]; intro H; [reflexivity|].
  cbn [app Re.scan map].
  change (a :: u ++ v) with ((a :: u) ++ v).
  rewrite (H [] (a :: u) eq_refl) by discriminate. f_equal.
  apply IH. intros u1 u2 -> Hn. apply (H (a :: u1) u2); auto.
Qed.

Lemma scan_match (r : Re.re) (m v : text) (c : Re.caps) :
  m <> [] -> Re.match_at r (m ++ v) = Some (c, v) ->
  Re.scan r (m ++ v) 0 = inr c :: Re.scan r v 0.
Proof.
  intros Hm H. destruct m as [|a m]; [congruence|].
  cbn [app Re.scan]. change (a :: m ++ v) with ((a :: m) ++ v). rewrite H.
  replace (length ((a :: m) ++ v) - length v) with (S (length m))
    by (rewrite length_app; cbn [length]; lia).
  f_equal. rewrite scan_skip by (rewrite length_app; lia).
  now rewrite skipn_app, Nat.sub_diag, skipn_all.
Qed.

Lemma scan_none (r : Re.re) (s : text) :
  (forall t, Suffix t s -> Re.match_at r t = None) ->
  Re.scan r s 0 = map (fun c => inl [c]) s.
Proof.
  intro H. rewrite <- (app_nil_r s) at 1. rewrite scan_nomatch.
  - cbn [Re.scan]. rewrite (H [] (ex_intro _ s (eq_sym (app_nil_r s)))).
    now rewrite app_nil_r.
  - intros u1 u2 -> Hn. apply H. exists u1. now rewrite app_nil_r.
Qed.

Lemma flat_map_chars (B : Type) (f : Re.caps -> text) (u : text) :
  flat_map (fun p : text + Re.caps => match p with inl t => t | inr c => f c end)
    (map (fun c => inl [c]) u) = u.
Proof. induction u as [|a u IH]; [reflexivity|]. cbn. now rewrite IH. Qed.

Lemma flat_map_chars_caps (u : text) :
  flat_map (fun p : text + Re.caps => match p with inl _ => [] | inr c => [c] end)
    (map (fun c => inl [c]) u) = [].
Proof. induction u as [|a u IH]; [reflexivity|]. cbn. exact IH. Qed.

Lemma sub_none (r : Re.re) (f : Re.caps -> text) (s : text) :
  (forall t, Suffix t s -> Re.match_at r t = None) -> Re.sub r f s = s.
Proof.
  intro H. unfold Re.sub. rewrite scan_none by exact H.
  apply (flat_map_chars unit).
Qed.

Lemma finditer_none (r : Re.re) (s : text) :
  (forall t, Suffix t s -> Re.match_at r t = None) -> Re.finditer r s = [].
Proof.
  intro H. unfold Re.finditer. rewrite scan_none by exact H.
  apply flat_map_chars_caps.
Qed.

Lemma search_none (r : Re.re) (s : text) :
  (forall t, Suffix t s -> Re.match_at r t = None) -> Re.search r s = None.
Proof.
  induction s as [|a s IH]; intro H; cbn [Re.search].
  - now rewrite (H [] (Suffix_refl _)).
  - rewrite (H (a :: s) (Suffix_refl _)), IH; [reflexivity|].
    intros t Ht. apply H. now apply Suffix_cons.
Qed.

(** One match in the text: before it and after it nothing matches. *)
Lemma sub_one (r : Re.re) (f : Re.caps -> text) (u m v : text) (c : Re.caps) :
  (forall u1 u2, u = u1 ++ u2 -> u2 <> [] ->
                 Re.match_at r (u2 ++ m ++ v) = None) ->
  m <> [] -> Re.match_at r (m ++ v) = Some (c, v) ->
  (forall t, Suffix t v -> Re.match_at r t = None) ->
  Re.sub r f (u ++ m ++ v) = u ++ f c ++ v.
Proof.
  intros Hu Hm Hc Hv. unfold Re.sub.
  rewrite scan_nomatch by exact Hu. rewrite (@scan_match r m v c Hm Hc).
  rewrite scan_none by exact Hv.
  rewrite flat_map_app. cbn [flat_map].
  now rewrite !(flat_map_chars unit).
Qed.

Lemma finditer_one (r : Re.re) (u m v : text) (c : Re.caps) :
  (forall u1 u2, u = u1 ++ u2 -> u2 <> [] ->
                 Re.match_at r (u2 ++ m ++ v) = None) ->
  m <> [] -> Re.match_at r (m ++ v) = Some (c, v) ->
  (forall t, Suffix t v -> Re.match_at r t = None) ->
  Re.finditer r (u ++ m ++ v) = [c].
Proof.
  intros Hu Hm Hc Hv. unfold Re.finditer.
  rewrite scan_nomatch by exact Hu. rewrite (@scan_match r m v c Hm Hc).
  rewrite scan_none by exact Hv.
  rewrite flat_map_app. cbn [flat_map].
  now rewrite !flat_map_chars_caps.
Qed.

Lemma search_first (r : Re.re) (u s : text) (c : Re.caps) (v : text) :
  (forall u1 u2, u = u1 ++ u2 -> u2 <> [] -> Re.match_at r (u2 ++ s) = None) ->
  Re.match_at r s = Some (c, v) ->
  Re.search r (u ++ s) = Some (u, c, v).
Proof.
  induction u as [|a u IH]; intros Hu Hs.
  - cbn [app]. destruct s; cbn [Re.search]; now rewrite Hs.
  - cbn [app Re.search]. change (a :: u ++ s) with ((a :: u) ++ s).
    rewrite (Hu [] (a :: u) eq_refl) by discriminate.
    rewrite IH; [reflexivity| |exact Hs].
    intros u1 u2 -> Hn. apply (Hu (a :: u1) u2); auto.
Qed.

(** ** The patterns of [resolve_cargo_conflict.py] *)

Lemma strip_prefix_line (w a s t : text) :
  forallb not_nl w = true -> strip_prefix w (a ++ nl :: s) = Some t ->
  exists a', a = w ++ a' /\ t = a' ++ nl :: s.
Proof.
  revert a; induction w as [|x w IH]; intros a Hw H.
  - cbn in H. injection H as <-. now exists a.
  - cbn [forallb] in Hw. apply andb_true_iff in Hw as [Hx Hw].
    destruct a as [|y a]; cbn [app strip_prefix] in H.
    + unfold not_nl in Hx. apply negb_true_iff in Hx. now rewrite Hx in H.
    + destruct (Ascii.eqb x y) eqn:E; [|discriminate].
      apply Ascii.eqb_eq in E; subst y.
      destruct (IH a Hw H) as (a' & -> & ->). now exists a'.
Qed.

Lemma forallb_app_inv (A : Type) (p : A -> bool) (a b : list A) :
  forallb p (a ++ b) = true -> forallb p a = true /\ forallb p b = true.
Proof. rewrite forallb_app. apply andb_true_iff. Qed.

Lemma nil_or_not (l : text) : l = [] \/ l <> [].
Proof. destruct l; [now left|right; discriminate]. Qed.

Lemma firstn_consumed (u v : text) :
  firstn (length (u ++ v) - length v) (u ++ v) = u.
Proof.
  replace (length (u ++ v) - length v) with (length u)
    by (rewrite length_app; lia).
  rewrite firstn_app, Nat.sub_diag, firstn_all. cbn [firstn].
  apply app_nil_r.
Qed.

(** The separator line begins only where it lies: no end of it is a
    beginning of it. *)
Lemma separator_unbordered (u r : text) :
  startswith Cargo.separator_line (u ++ Cargo.separator_line ++ r) = true ->
  u = [] \/ startswith Cargo.separator_line u = true.
Proof.
  intro H.
  apply startswith_app_cases in H as [H|(w1 & w2 & Hw & -> & Hn & Hs)];
    [now right|].
  destruct w1 as [|a1 w1]; [now left|]. exfalso.
  unfold Cargo.separator_line in Hw, Hs.
  cbn [txt list_ascii_of_string app] in Hw, Hs.
  injection Hw as <- Hw.
  do 7 (destruct w1 as [|? w1];
        [cbn [app] in Hw; subst w2; cbv in Hs; discriminate Hs|];
        cbn [app] in Hw; injection Hw as <- Hw).
  symmetry in Hw. apply app_eq_nil in Hw as [_ Hw]. congruence.
Qed.

Lemma match_lit_none (w : text) (r : Re.re) (t : text) :
  startswith w t = false -> Re.match_at (Re.Lit w ;; r)%re t = None.
Proof.
  intro H. unfold Re.match_at. rewrite run_seq. now apply run_lit_fail.
Qed.

Lemma members_pattern_none (t : text) :
  startswith (txt "members") t = false ->
  Re.match_at Cargo.members_pattern t = None.
Proof. apply match_lit_none. Qed.

Lemma members_open_none (t : text) :
  startswith (txt "members") t = false ->
  Re.match_at Cargo.members_open t = None.
Proof. apply match_lit_none. Qed.

(** A block without the word has no members. *)
Lemma extract_members_none (block : text) :
  contains (txt "members") block = false ->
  Cargo.extract_members_from_block block = [].
Proof.
  intro H. unfold Cargo.extract_members_from_block.
  rewrite search_none; [reflexivity|].
  intros t Ht. apply members_pattern_none.
  eapply contains_false_suffix; eauto.
Qed.

Lemma search_members_open_none (s : text) :
  contains (txt "members") s = false ->
  Re.search Cargo.members_open s = None.
Proof.
  intro H. apply search_none. intros t Ht. apply members_open_none.
  eapply contains_false_suffix; eauto.
Qed.

(** The optional members part of a side fails where the word does not
    occur. *)
Lemma members_side_skip (A : Type) (s : text) (c : Re.caps)
  (k : text -> Re.caps -> option A) :
  contains (txt "members") s = false ->
  Re.run Cargo.members_side s c k = k s c.
Proof.
  intro H. unfold Cargo.members_side. rewrite run_opt.
  now rewrite run_lazy_none by exact H.
Qed.

Lemma members_conflict_body_none (A : Type) (s : text) (c : Re.caps)
  (k : text -> Re.caps -> option A) :
  contains (txt "members") s = false ->
  (forall s2, s = Cargo.separator_line ++ s2 ->
              startswith Cargo.end_marker s2 = false) ->
  Re.run members_conflict_body s c k = None.
Proof.
  intros Hm Hs. unfold members_conflict_body.
  rewrite run_seq, members_side_skip by exact Hm.
  rewrite run_seq, run_lit.
  destruct (strip_prefix Cargo.separator_line s) as [s2|] eqn:E;
    [|reflexivity].
  apply strip_prefix_Some in E.
  rewrite run_seq, members_side_skip.
  - rewrite run_seq. apply run_lit_fail. auto.
  - eapply contains_false_Suffix; [exact Hm|]. now exists Cargo.separator_line.
Qed.

(** On a line that is followed by [s], the pattern of the members
    conflicts matches only if its body matches [s]. *)
Lemma members_conflict_at_line (a s : text) :
  forallb not_nl a = true ->
  Re.run members_conflict_body s []
    (fun s' c =>
       Some ((0, firstn (length (a ++ nl :: s) - length s') (a ++ nl :: s))
               :: c, s')) = None ->
  Re.match_at Cargo.members_conflict_pattern (a ++ nl :: s) = None.
Proof.
  intros Ha Hb. unfold Re.match_at, Cargo.members_conflict_pattern.
  rewrite run_seq, run_lit.
  destruct (strip_prefix Cargo.start_marker (a ++ nl :: s)) as [t|] eqn:E;
    [|reflexivity].
  apply strip_prefix_line in E as (a' & -> & ->); [|reflexivity].
  apply forallb_app_inv in Ha as [_ Ha].
  rewrite (run_line _ _ _ _ _ Ha). exact Hb.
Qed.

Section CargoRegion.
Variables pre l1 ours theirs l2 post : text.

Let tail : text :=
  ours ++ Cargo.separator_line ++ theirs ++ Cargo.end_marker ++ l2 ++
  nl :: post.
Let doc : text := pre ++ Cargo.start_marker ++ l1 ++ nl :: tail.

Hypothesis pre_no_start : contains Cargo.start_marker pre = false.
Hypothesis pre_lines : ends_line pre = true.
Hypothesis l1_line : forallb not_nl l1 = true.
Hypothesis l2_line : forallb not_nl l2 = true.
Hypothesis ours_no_separator : contains Cargo.separator_line ours = false.
Hypothesis ours_no_end : contains Cargo.end_marker ours = false.
Hypothesis ours_lines : ends_line ours = true.
Hypothesis theirs_no_end : contains Cargo.end_marker theirs = false.
Hypothesis theirs_lines : ends_line theirs = true.
Hypothesis tail_no_start : contains Cargo.start_marker tail = false.
Hypothesis tail_no_members : contains (txt "members") tail = false.

Lemma before_region (r : Re.re) (u1 u2 rest : text) :
  pre = u1 ++ u2 -> u2 <> [] ->
  Re.match_at (Re.Lit Cargo.start_marker ;; r)%re (u2 ++ rest) = None.
Proof.
  intros H Hn. apply match_lit_none.
  now apply (@no_straddle Cargo.start_marker pre u1 u2 rest).
Qed.

Lemma after_start (r : Re.re) (t : text) :
  Suffix t tail ->
  Re.match_at (Re.Lit Cargo.start_marker ;; r)%re t = None.
Proof.
  intro H. apply match_lit_none. eapply contains_false_suffix; eauto.
Qed.

Lemma post_suffix (t : text) : Suffix t post -> Suffix t tail.
Proof.
  intros [a ->]. unfold tail.
  exists (ours ++ Cargo.separator_line ++ theirs ++ Cargo.end_marker ++
          l2 ++ nl :: a).
  repeat rewrite <- app_assoc. cbn [app]. reflexivity.
Qed.

Lemma ours_to_separator (u1 u2 rest : text) :
  ours = u1 ++ u2 -> u2 <> [] ->
  startswith Cargo.separator_line (u2 ++ Cargo.separator_line ++ rest)
  = false.
Proof.
  intros H Hn.
  destruct (startswith _ _) eqn:E; [|reflexivity]. exfalso.
  apply separator_unbordered in E as [E|E]; [congruence|].
  assert (startswith Cargo.separator_line u2 = false).
  { eapply contains_false_suffix; [exact ours_no_separator|].
    now exists u1. }
  congruence.
Qed.

Lemma ours_to_end (u1 u2 rest : text) :
  ours = u1 ++ u2 -> u2 <> [] ->
  startswith Cargo.end_marker (u2 ++ rest) = false.
Proof.
  intros H Hn. now apply (@no_straddle Cargo.end_marker ours u1 u2 rest).
Qed.

Lemma theirs_to_end (u1 u2 rest : text) :
  theirs = u1 ++ u2 -> u2 <> [] ->
  startswith Cargo.end_marker (u2 ++ rest) = false.
Proof.
  intros H Hn. now apply (@no_straddle Cargo.end_marker theirs u1 u2 rest).
Qed.

(** The generic pattern matches the block: group 1 is "ours". *)
Lemma generic_at_region :
  exists c,
    Re.match_at Cargo.generic_pattern
      (Cargo.start_marker ++ l1 ++ nl :: tail) = Some (c, post) /\
    Re.group c 1 = ours.
Proof.
  eexists. split.
  - unfold Re.match_at, Cargo.generic_pattern.
    rewrite run_seq, run_lit_app, (run_line _ _ _ _ _ l1_line).
    unfold tail. apply run_lazy_group.
    { intros; eapply ours_to_separator; eauto. }
    apply run_lazy.
    { intros; eapply theirs_to_end; eauto. }
    apply run_line_end; [exact l2_line|reflexivity].
  - reflexivity.
Qed.

(** The pattern of [all_members] matches the block: groups 1 and 2 are
    "ours" and "theirs". *)
Lemma conflict_at_region :
  exists c,
    Re.match_at Cargo.conflict_pattern
      (Cargo.start_marker ++ l1 ++ nl :: tail) = Some (c, post) /\
    Re.group c 1 = ours /\ Re.group c 2 = theirs.
Proof.
  eexists. split.
  - unfold Re.match_at, Cargo.conflict_pattern.
    rewrite run_seq, run_lit_app, (run_line _ _ _ _ _ l1_line).
    unfold tail. rewrite run_seq, run_grp, run_rep. unfold Re.rep.
    cbn [Re.exactly]. rewrite lazy0_skip.
    + apply lazy0_hit. rewrite run_seq, run_opt.
      rewrite run_seq, run_lit_app. rewrite <- run_seq.
      erewrite run_lazy_group; [reflexivity| |].
      { intros; eapply theirs_to_end; eauto. }
      apply run_line_end; [exact l2_line|reflexivity].
    + intros u1 u2 Hu Hn. rewrite run_seq, run_opt.
      rewrite run_seq, run_lit_fail
        by (eapply ours_to_separator; eauto).
      rewrite run_seq. apply run_lit_fail. eapply ours_to_end; eauto.
  - split.
    + cbn [Re.group Re.lookup Nat.eqb]. apply firstn_consumed.
    + reflexivity.
Qed.

Hypothesis side_not_empty : nonblank (ours ++ theirs) = true.

Lemma members_conflict_body_at_tail (A : Type) (c : Re.caps)
  (k : text -> Re.caps -> option A) :
  Re.run members_conflict_body tail c k = None.
Proof.
  apply members_conflict_body_none; [exact tail_no_members|].
  intros s2 Hs. unfold tail in Hs.
  destruct (nil_or_not ours) as [Eo|Eo].
  - rewrite Eo in Hs. cbn [app] in Hs. apply app_inv_head in Hs. subst s2.
    destruct (nil_or_not theirs) as [Et|Et].
    + rewrite Eo, Et in side_not_empty. discriminate side_not_empty.
    + now apply (@theirs_to_end [] theirs).
  - exfalso.
    assert (E : startswith Cargo.separator_line
                  (ours ++ Cargo.separator_line ++ theirs ++
                   Cargo.end_marker ++ l2 ++ nl :: post) = true).
    { rewrite Hs. apply startswith_app. }
    rewrite (@ours_to_separator [] ours) in E;
      [discriminate|reflexivity|exact Eo].
Qed.

(** The pattern of the members conflicts matches nowhere. *)
Lemma members_conflict_nowhere (t : text) :
  Suffix t doc -> Re.match_at Cargo.members_conflict_pattern t = None.
Proof.
  intro H. unfold doc in H.
  apply Suffix_app_inv in H as [(u1 & u2 & Hu & Hn & ->)|H].
  { eapply before_region; eauto. }
  rewrite app_assoc in H.
  apply Suffix_app_inv in H as [(u1 & u2 & Hu & Hn & ->)|H].
  - apply members_conflict_at_line.
    + assert (Hl : forallb not_nl (Cargo.start_marker ++ l1) = true)
        by (rewrite forallb_app, l1_line; reflexivity).
      rewrite Hu in Hl. now apply forallb_app_inv in Hl as [_ Hl].
    + apply members_conflict_body_at_tail.
  - apply Suffix_cons_inv in H as [->|H]; [reflexivity|].
    now apply after_start.
Qed.

Lemma remove_members_conflicts :
  Re.sub Cargo.members_conflict_pattern (fun _ => []) doc = doc.
Proof. apply sub_none, members_conflict_nowhere. Qed.

(** The two substitutions keep "ours" and drop the markers and
    "theirs". *)
Lemma remove_conflicts_region :
  Cargo.remove_conflicts doc = pre ++ ours ++ post.
Proof.
  unfold Cargo.remove_conflicts. rewrite remove_members_conflicts.
  destruct generic_at_region as (c & Hc & Hg).
  unfold doc.
  assert (Hm : exists m, m <> [] /\
                 Cargo.start_marker ++ l1 ++ nl :: tail = m ++ post).
  { exists (Cargo.start_marker ++ l1 ++ nl :: ours ++
            Cargo.separator_line ++ theirs ++ Cargo.end_marker ++
            l2 ++ [nl]).
    split; [discriminate|]. unfold tail.
    repeat rewrite <- app_assoc. cbn [app].
    repeat (rewrite <- app_assoc; cbn [app]). reflexivity. }
  destruct Hm as (m & Hm & Em). rewrite Em in *.
  rewrite (@sub_one Cargo.generic_pattern (fun m => Re.group m 1)
             pre m post c); [now rewrite Hg| |exact Hm|exact Hc|].
  - intros u1 u2 Hu Hn. rewrite <- Em. eapply before_region; eauto.
  - intros t Ht. apply after_start. now apply post_suffix.
Qed.

(** The members are those of the text around the block. *)
Lemma all_members_region :
  Cargo.all_members doc =
  set_update [] (Cargo.extract_members_from_block (pre ++ post)).
Proof.
  unfold Cargo.all_members.
  destruct conflict_at_region as (c & Hc & H1 & H2).
  unfold doc.
  assert (Hm : exists m, m <> [] /\
                 Cargo.start_marker ++ l1 ++ nl :: tail = m ++ post).
  { exists (Cargo.start_marker ++ l1 ++ nl :: ours ++
            Cargo.separator_line ++ theirs ++ Cargo.end_marker ++
            l2 ++ [nl]).
    split; [discriminate|]. unfold tail.
    repeat rewrite <- app_assoc. cbn [app].
    repeat (rewrite <- app_assoc; cbn [app]). reflexivity. }
  destruct Hm as (m & Hm & Em). rewrite Em in *.
  assert (Hb : forall u1 u2, pre = u1 ++ u2 -> u2 <> [] ->
               Re.match_at Cargo.conflict_pattern (u2 ++ m ++ post) = None).
  { intros u1 u2 Hu Hn. rewrite <- Em. eapply before_region; eauto. }
  assert (Ha : forall t, Suffix t post ->
               Re.match_at Cargo.conflict_pattern t = None).
  { intros t Ht. apply after_start. now apply post_suffix. }
  rewrite (@finditer_one Cargo.conflict_pattern pre m post c Hb Hm Hc Ha).
  rewrite (@sub_one Cargo.conflict_pattern (fun _ => []) pre m post c
             Hb Hm Hc Ha).
  cbn [fold_left app]. rewrite H1, H2.
  assert (Ho : contains (txt "members") ours = false).
  { unfold tail in tail_no_members.
    now apply contains_false_app in tail_no_members as [H _]. }
  assert (Ht : contains (txt "members") theirs = false).
  { unfold tail in tail_no_members.
    apply contains_false_app in tail_no_members as [_ H].
    apply contains_false_app in H as [_ H].
    now apply contains_false_app in H as [H _]. }
  now rewrite (extract_members_none _ Ho), (extract_members_none _ Ht).
Qed.
End CargoRegion.

(** ** The first members list of a block *)

Lemma run_class_then (A : Type) (cls : ascii -> bool) (r : Re.re)
  (ws : text) (a : ascii) (s : text) (c : Re.caps)
  (k : text -> Re.caps -> option A) x :
  forallb cls ws = true -> cls a = false ->
  Re.run r (a :: s) c k = Some x ->
  Re.run (Re.Rep true 0 cls ;; r)%re (ws ++ a :: s) c k = Some x.
Proof.
  intros Hw Ha Hr. rewrite run_seq, run_rep. unfold Re.rep.
  cbn [Re.exactly]. apply greedy0_app; [exact Hw|].
  now rewrite greedy0_stop.
Qed.

Lemma startswith_char (a : ascii) (u v : text) :
  u <> [] -> startswith [a] (u ++ v) = startswith [a] u.
Proof.
  destruct u as [|b u]; [congruence|]. intros _.
  unfold startswith. cbn [app strip_prefix]. now destruct (Ascii.eqb a b).
Qed.

Lemma members_literal_match (ws1 ws2 body rest : text) :
  forallb is_space ws1 = true -> forallb is_space ws2 = true ->
  contains (txt "]") body = false ->
  exists c,
    Re.match_at Cargo.members_pattern (members_literal ws1 ws2 body ++ rest)
    = Some (c, rest) /\ Re.group c 1 = body.
Proof.
  intros H1 H2 Hb. eexists. split.
  - unfold Re.match_at, Cargo.members_pattern, members_literal.
    repeat rewrite <- app_assoc.
    rewrite run_seq, run_lit_app.
    apply run_class_then; [exact H1|reflexivity|].
    rewrite run_seq. change (txt "=") with ["="%char]. cbn [app].
    change ("="%char :: ws2 ++ txt "[" ++ body ++ txt "]" ++ rest)
      with (["="%char] ++ ws2 ++ txt "[" ++ body ++ txt "]" ++ rest).
    rewrite run_lit_app.
    change (txt "[") with ["["%char]. cbn [app].
    apply run_class_then; [exact H2|reflexivity|].
    rewrite run_seq.
    change ("["%char :: body ++ txt "]" ++ rest)
      with (["["%char] ++ body ++ txt "]" ++ rest).
    rewrite run_lit_app.
    rewrite run_seq, run_grp, run_rep. unfold Re.rep. cbn [Re.exactly].
    rewrite lazy0_skip.
    + apply lazy0_hit. rewrite run_lit_app. reflexivity.
    + intros u1 u2 Hu Hn. apply run_lit_fail.
      change (txt "]") with ["]"%char].
      rewrite startswith_char by exact Hn.
      eapply contains_false_suffix; [exact Hb|]. now exists u1.
  - cbn [Re.group Re.lookup Nat.eqb].
    replace (length (body ++ txt "]" ++ rest) - length (txt "]" ++ rest))
      with (length body) by (rewrite !length_app; lia).
    rewrite firstn_app, Nat.sub_diag, firstn_all. cbn [firstn].
    now rewrite app_nil_r.
Qed.

(** Only the first list of a block is read: what follows it, other
    lists included, adds nothing. *)
Lemma extract_first_literal (pre ws1 ws2 body rest : text) :
  contains (txt "members") pre = false -> ends_line pre = true ->
  forallb is_space ws1 = true -> forallb is_space ws2 = true ->
  contains (txt "]") body = false ->
  Cargo.extract_members_from_block
    (pre ++ members_literal ws1 ws2 body ++ rest) = quoted_strings body.
Proof.
  intros Hp He H1 H2 Hb.
  destruct (@members_literal_match ws1 ws2 body rest H1 H2 Hb)
    as (c & Hc & Hg).
  unfold Cargo.extract_members_from_block.
  rewrite (@search_first Cargo.members_pattern pre _ c rest).
  - now rewrite Hg.
  - intros u1 u2 Hu Hn. apply members_pattern_none.
    now apply (@no_straddle (txt "members") pre u1 u2).
  - exact Hc.
Qed.

(** ** The first match of a substitution *)

Lemma search_inv (r : Re.re) (s p : text) (c : Re.caps) (rest : text) :
  Re.search r s = Some (p, c, rest) ->
  exists s', s = p ++ s' /\ Re.match_at r s' = Some (c, rest) /\
    forall u1 u2, p = u1 ++ u2 -> u2 <> [] -> Re.match_at r (u2 ++ s') = None.
Proof.
  revert p; induction s as [|a s IH]; intros p; cbn [Re.search].
  - destruct (Re.match_at r []) as [[c0 r0]|] eqn:E; [|discriminate].
    intros [= <- <- <-]. exists []. repeat split; auto.
    intros [|? ?] u2 H; [cbn in H; subst; congruence|discriminate].
  - destruct (Re.match_at r (a :: s)) as [[c0 r0]|] eqn:E.
    + intros [= <- <- <-]. exists (a :: s). repeat split; auto.
      intros [|? ?] u2 H; [cbn in H; subst; congruence|discriminate].
    + destruct (Re.search r s) as [[[p' c'] rest']|] eqn:Es; [|discriminate].
      intros [= <- <- <-].
      destruct (IH p' eq_refl) as (s' & -> & Hm & Hn).
      exists s'. repeat split; auto.
      intros [|x u1] u2 H Hu; cbn [app] in H.
      * subst u2. exact E.
      * injection H as _ H. eauto.
Qed.

Lemma sub_first (r : Re.re) (f : Re.caps -> text) (s p : text)
  (c : Re.caps) (rest : text) :
  Re.search r s = Some (p, c, rest) -> exists x, Re.sub r f s = p ++ f c ++ x.
Proof.
  intro H. apply search_inv in H as (s' & -> & Hm & Hn).
  unfold Re.sub. rewrite scan_nomatch by exact Hn.
  rewrite flat_map_app, (flat_map_chars unit).
  destruct s' as [|a s']; cbn [Re.scan]; rewrite Hm.
  - exists []. reflexivity.
  - destruct (length (a :: s') - length rest);
      cbn [flat_map]; eexists; reflexivity.
Qed.

Lemma sub_ext (r : Re.re) (f g : Re.caps -> text) (s : text) :
  (forall c, f c = g c) -> Re.sub r f s = Re.sub r g s.
Proof.
  intro H. unfold Re.sub. apply flat_map_ext. intros [t|c]; auto.
Qed.

(** ** Replacement text without backslash *)

Lemma parse_template_literal (n groups : nat) (t : text) :
  no_backslash t = true -> length t <= n ->
  Re.parse_template n groups t = Some (map (fun c => Re.Chars [c]) t).
Proof.
  revert t; induction n as [|n IH]; intros t Hb Hl.
  - destruct t; [reflexivity|cbn in Hl; lia].
  - destruct t as [|c t]; [reflexivity|].
    cbn [no_backslash forallb] in Hb. apply andb_true_iff in Hb as [Hc Hb].
    apply negb_true_iff in Hc. cbn [Re.parse_template]. rewrite Hc.
    rewrite IH; [reflexivity|exact Hb|cbn in Hl; lia].
Qed.

Lemma expand_literal (t : text) (c : Re.caps) :
  Re.expand (map (fun c => Re.Chars [c]) t) c = t.
Proof.
  unfold Re.expand. induction t as [|a t IH]; [reflexivity|].
  cbn. now rewrite IH.
Qed.

(** A replacement without backslash is put in as it is. *)
Lemma sub_template_literal (groups : nat) (r : Re.re) (t s : text) :
  no_backslash t = true ->
  Re.sub_template groups r t s = Some (Re.sub r (fun _ => t) s).
Proof.
  intro H. unfold Re.sub_template.
  rewrite parse_template_literal by (auto; lia). f_equal.
  apply sub_ext. intro c. apply expand_literal.
Qed.

Lemma parse_template_S (n groups : nat) (c : ascii) (s : text) :
  Re.parse_template (S n) groups (c :: s) =
  if Ascii.eqb c bs then
    match Re.template_escape groups s with
    | Some (p, rest) =>
        match Re.parse_template n groups rest with
        | Some ps => Some (p :: ps)
        | None => None
        end
    | None => None
    end
  else
    match Re.parse_template n groups s with
    | Some ps => Some (Re.Chars [c] :: ps)
    | None => None
    end.
Proof. reflexivity. Qed.

(** The replacement of the insertion after the header: group 1, a
    newline and the block. *)
Lemma sub_template_workspace (r : Re.re) (block s : text) :
  no_backslash block = true ->
  Re.sub_template 1 r (bs :: txt "1" ++ nl :: block) s =
  Some (Re.sub r (fun c => Re.group c 1 ++ nl :: block) s).
Proof.
  intro H. unfold Re.sub_template.
  change (length (bs :: txt "1" ++ nl :: block))
    with (S (S (S (length block)))).
  change (bs :: txt "1" ++ nl :: block) with (bs :: "1"%char :: nl :: block).
  rewrite parse_template_S, Ascii.eqb_refl.
  change (Re.template_escape 1 ("1"%char :: nl :: block))
    with (Some (Re.Ref 1, nl :: block)).
  cbv iota beta.
  rewrite (@parse_template_literal (S (S (length block))) 1 (nl :: block)).
  2:{ cbn [no_backslash forallb]. fold (no_backslash block). now rewrite H. }
  2:{ cbn [length]. lia. }
  f_equal. apply sub_ext. intro c. unfold Re.expand. cbn [flat_map map].
  fold (Re.expand (map (fun c => Re.Chars [c]) block) c).
  now rewrite expand_literal.
Qed.

Lemma no_backslash_app (a b : text) :
  no_backslash (a ++ b) = no_backslash a && no_backslash b.
Proof. apply forallb_app. Qed.

Lemma no_backslash_join (sep : text) (ls : list text) :
  no_backslash sep = true -> forallb no_backslash ls = true ->
  no_backslash (Cargo.join sep ls) = true.
Proof.
  intros Hs. induction ls as [|l ls IH]; [reflexivity|].
  cbn [forallb]. intro H. apply andb_true_iff in H as [Hl Hls].
  destruct ls as [|l' ls]; [exact Hl|].
  change (Cargo.join sep (l :: l' :: ls))
    with (l ++ sep ++ Cargo.join sep (l' :: ls)).
  now rewrite !no_backslash_app, Hl, Hs, IH.
Qed.

Lemma new_members_block_no_backslash (ms : list text) :
  forallb no_backslash ms = true ->
  no_backslash (Cargo.new_members_block ms) = true.
Proof.
  intro H. destruct ms as [|m ms]; [reflexivity|].
  unfold Cargo.new_members_block.
  change (nl :: txt "    " ++ ?x) with ((nl :: txt "    ") ++ x).
  rewrite !no_backslash_app.
  rewrite no_backslash_join.
  - reflexivity.
  - reflexivity.
  - clear -H. induction (m :: ms) as [|x l IH]; [reflexivity|].
    cbn [forallb map] in *. apply andb_true_iff in H as [Hx Hl].
    rewrite (IH Hl), andb_true_r. unfold Cargo.quote.
    change (dq :: x ++ [dq]) with ([dq] ++ x ++ [dq]).
    now rewrite !no_backslash_app, Hx.
Qed.

(** ** The members block lists every member *)

Lemma join_In (sep l : text) (ls : list text) :
  In l ls -> exists x y, Cargo.join sep ls = x ++ l ++ y.
Proof.
  induction ls as [|l0 ls IH]; [intros []|].
  intros [->|H].
  - destruct ls as [|l1 ls].
    + exists [], []. cbn. now rewrite app_nil_r.
    + exists [], (sep ++ Cargo.join sep (l1 :: ls)). reflexivity.
  - destruct (IH H) as (x & y & E). destruct ls as [|l1 ls]; [destruct H|].
    exists (l0 ++ sep ++ x), y.
    change (Cargo.join sep (l0 :: l1 :: ls))
      with (l0 ++ sep ++ Cargo.join sep (l1 :: ls)).
    rewrite E. now rewrite <- !app_assoc.
Qed.

Lemma new_members_block_lists (ms : list text) (e : text) :
  In e ms -> exists x y, Cargo.new_members_block ms = x ++ Cargo.quote e ++ y.
Proof.
  intro H. destruct ms as [|m ms]; [destruct H|].
  destruct (@join_In (txt "," ++ nl :: txt "    ") (Cargo.quote e)
              (map Cargo.quote (m :: ms)) (in_map _ _ _ H)) as (x & y & E).
  unfold Cargo.new_members_block. rewrite E.
  exists (txt "members = [" ++ nl :: txt "    " ++ x),
         (y ++ txt "," ++ nl :: txt "]").
  repeat (rewrite <- app_assoc; cbn [app]). reflexivity.
Qed.

(** ** The members of the conflict blocks are merged *)

Lemma all_members_sides (content : text) (m : Re.caps) (e : text) :
  In m (Re.finditer Cargo.conflict_pattern content) ->
  In e (Cargo.extract_members_from_block (Re.group m 1)) \/
  In e (Cargo.extract_members_from_block (Re.group m 2)) ->
  In e (Cargo.all_members content).
Proof.
  intros Hm He. unfold Cargo.all_members. apply set_update_In. left.
  generalize (@nil text).
  induction (Re.finditer Cargo.conflict_pattern content) as [|m0 ms IH];
    [destruct Hm|]. intro acc. cbn [fold_left].
  destruct Hm as [->|Hm].
  - enough (G : forall ms acc, In e acc ->
              In e (fold_left
                (fun acc m => set_update
                   (set_update acc
                      (Cargo.extract_members_from_block (Re.group m 1)))
                   (Cargo.extract_members_from_block (Re.group m 2))) ms acc)).
    { apply G. rewrite !set_update_In. tauto. }
    clear. induction ms as [|m ms IH]; intros acc H; [exact H|].
    cbn [fold_left]. apply IH. rewrite !set_update_In. tauto.
  - now apply IH.
Qed.

(** ** The last newline of the declaration tool *)

Lemma endswith_nl_snoc (s : text) : endswith_nl (s ++ [nl]) = true.
Proof.
  rewrite (@endswith_nl_last (s ++ [nl]) nl) by (destruct s; discriminate).
  now rewrite last_app_cons.
Qed.

Lemma startswith_three_snoc (s : text) :
  endswith_nl s = false ->
  startswith three_newlines (s ++ [nl]) = startswith three_newlines s.
Proof.
  intro H. destruct s as [|a [|b [|c s]]]; try reflexivity.
  - cbn in H. unfold startswith, three_newlines. cbn [app strip_prefix].
    unfold is_nl in H. rewrite (Ascii.eqb_sym nl b), H.
    now destruct (Ascii.eqb nl a).
  - unfold startswith, three_newlines. cbn [app strip_prefix].
    destruct (Ascii.eqb nl a), (Ascii.eqb nl b), (Ascii.eqb nl c);
      reflexivity.
Qed.

Lemma endswith_nl_tail (a : ascii) (s : text) :
  s <> [] -> endswith_nl (a :: s) = endswith_nl s.
Proof.
  intro H. rewrite (@endswith_nl_last (a :: s) nl) by discriminate.
  rewrite (@endswith_nl_last s nl) by exact H.
  destruct s; [congruence|reflexivity].
Qed.

Lemma no_run_snoc (s : text) :
  endswith_nl s = false -> contains three_newlines s = false ->
  contains three_newlines (s ++ [nl]) = false.
Proof.
  induction s as [|a s IH]; intros He Hc; [reflexivity|].
  cbn [app]. rewrite contains_cons.
  change (a :: s ++ [nl]) with ((a :: s) ++ [nl]).
  rewrite startswith_three_snoc by exact He.
  rewrite contains_cons in Hc. apply orb_false_iff in Hc as [Hs Hc].
  rewrite Hs. cbn [orb].
  destruct s as [|b s]; [reflexivity|].
  apply IH; [|exact Hc]. now rewrite <- (@endswith_nl_tail a (b :: s)).
Qed.

(** The text of the declaration tool ends with a newline and has no
    three newlines in a row. *)
Lemma ensure_newline_end (t : text) :
  contains three_newlines t = false ->
  endswith_nl (LibRs.ensure_newline t) = true /\
  contains three_newlines (LibRs.ensure_newline t) = false.
Proof.
  intro H. unfold LibRs.ensure_newline.
  destruct (endswith_nl t) eqn:E; [auto|].
  split; [apply endswith_nl_snoc|now apply no_run_snoc].
Qed.

(** ** Lines of a text made of whole lines *)

Lemma ends_line_split (a : text) :
  ends_line a = true -> a <> [] -> exists a', a = a' ++ [nl].
Proof.
  intros H Hn. exists (removelast a).
  rewrite (app_removelast_last nl Hn) at 1.
  now rewrite (ends_line_last H Hn).
Qed.

Lemma nonblank_lines_snoc (a : text) :
  nonblank_lines (a ++ [nl]) = nonblank_lines a.
Proof.
  unfold nonblank_lines. rewrite split_nl_app_nl, filter_app. cbn.
  apply app_nil_r.
Qed.

Lemma nonblank_lines_app (a b : text) :
  ends_line a = true ->
  nonblank_lines (a ++ b) = nonblank_lines a ++ nonblank_lines b.
Proof.
  intro H. destruct (nil_or_not a) as [->|Hn]; [reflexivity|].
  destruct (ends_line_split H Hn) as [a' ->].
  rewrite nonblank_lines_snoc. rewrite <- app_assoc. cbn [app].
  unfold nonblank_lines. now rewrite split_nl_app_nl, filter_app.
Qed.

(** ** The header of the workspace *)

Lemma search_literal (w s : text) :
  contains w s = true ->
  exists p c rest,
    Re.search (Re.Grp 1 (Re.Lit w)) s = Some (p, c, rest) /\
    Re.group c 1 = w.
Proof.
  induction s as [|a s IH]; intro H.
  - cbn in H. rewrite orb_false_r in H.
    apply startswith_inv in H as [r Hr].
    symmetry in Hr. apply app_eq_nil in Hr as [-> ->].
    exists [], [(0, []); (1, [])], []. split; reflexivity.
  - rewrite contains_cons in H.
    destruct (startswith w (a :: s)) eqn:E.
    + apply startswith_inv in E as [r Hr]. rewrite Hr.
      exists [], [(0, firstn (length (w ++ r) - length r) (w ++ r));
                  (1, firstn (length (w ++ r) - length r) (w ++ r))], r.
      split.
      * assert (M : Re.match_at (Re.Grp 1 (Re.Lit w)) (w ++ r) =
                    Some ([(0, firstn (length (w ++ r) - length r) (w ++ r));
                           (1, firstn (length (w ++ r) - length r) (w ++ r))],
                          r)).
        { unfold Re.match_at. now rewrite run_grp, run_lit_app. }
        destruct (w ++ r); cbn [Re.search]; now rewrite M.
      * cbn [Re.group Re.lookup Nat.eqb]. apply firstn_consumed.
    + cbn [orb] in H. destruct (IH H) as (p & c & rest & Hs & Hg).
      exists (a :: p), c, rest. split; [|exact Hg].
      cbn [Re.search]. unfold Re.match_at at 1.
      rewrite run_grp, run_lit_fail by exact E. now rewrite Hs.
Qed.

(** ** The manifest tool as a whole *)

Lemma cargo_runs (content : text) :
  contains (txt "<<<<<<< ") content = true ->
  Cargo.resolve_cargo_conflict (Some content) =
  match Cargo.place_members (sorted (Cargo.all_members content))
          (Cargo.remove_conflicts content) with
  | None =>
      Outcome []
        match Cargo.all_members content with [] => [NoMembers] | _ => [] end
        None Raises
  | Some resolved =>
      Outcome (Cargo.report (sorted (Cargo.all_members content)))
        match Cargo.all_members content with [] => [NoMembers] | _ => [] end
        (Some (collapse_blank resolved)) (Returns true)
  end.
Proof. intro H. unfold Cargo.resolve_cargo_conflict. now rewrite H. Qed.

Lemma sorted_no_backslash (ms : list text) :
  forallb no_backslash ms = true -> forallb no_backslash (sorted ms) = true.
Proof.
  rewrite !forallb_forall. intros H x Hx. apply H.
  unfold sorted in Hx. now apply sorted_by_In in Hx.
Qed.

(** With members free of backslash the block is put in as it is, where
    the text has a place for it. *)
Lemma place_members_block (ms : list text) (resolved : text) :
  forallb no_backslash ms = true -> ms <> [] ->
  has_place resolved = true ->
  exists a b,
    Cargo.place_members ms resolved =
    Some (a ++ Cargo.new_members_block ms ++ b).
Proof.
  intros Hb Hn Hp. unfold Cargo.place_members, has_place in *.
  pose proof (new_members_block_no_backslash ms Hb) as Hk.
  destruct (Re.search Cargo.members_open resolved) as [o|] eqn:Eo;
    cbn [is_some] in Hp.
  - rewrite sub_template_literal by exact Hk.
    destruct (Re.search Cargo.members_block_pattern resolved)
      as [[[p c] rest]|] eqn:Em; [|discriminate].
    destruct (@sub_first Cargo.members_block_pattern
                (fun _ => Cargo.new_members_block ms) resolved p c rest Em)
      as [x Hx].
    exists p, x. now rewrite Hx.
  - rewrite Hp. destruct ms as [|m ms]; [congruence|].
    cbn [length Nat.eqb negb andb].
    rewrite sub_template_workspace by exact Hk.
    destruct (search_literal _ _ Hp) as (p & c & rest & Hs & Hg).
    destruct (@sub_first Cargo.workspace_pattern
                (fun c => Re.group c 1 ++
                          nl :: Cargo.new_members_block (m :: ms))
                resolved p c rest Hs) as [x Hx].
    exists (p ++ txt "[workspace]" ++ [nl]), x.
    rewrite Hx, Hg.
    repeat (rewrite <- app_assoc; cbn [app]). reflexivity.
Qed.

(** The members of both sides of a conflict block are listed in the block
    that is written, when the text has a place for it. *)
Lemma cargo_completeness (content : text) (m : Re.caps) (e : text) :
  contains (txt "<<<<<<< ") content = true ->
  In m (Re.finditer Cargo.conflict_pattern content) ->
  In e (Cargo.extract_members_from_block (Re.group m 1)) \/
  In e (Cargo.extract_members_from_block (Re.group m 2)) ->
  forallb no_backslash (Cargo.all_members content) = true ->
  has_place (Cargo.remove_conflicts content) = true ->
  exists a x y b,
    written (Cargo.resolve_cargo_conflict (Some content)) =
      Some (collapse_blank (a ++ (x ++ Cargo.quote e ++ y) ++ b)) /\
    x ++ Cargo.quote e ++ y =
      Cargo.new_members_block (sorted (Cargo.all_members content)).
Proof.
  intros Hc Hm He Hb Hp.
  assert (Hin : In e (sorted (Cargo.all_members content))).
  { unfold sorted. apply sorted_by_In. eapply all_members_sides; eauto. }
  destruct (@place_members_block (sorted (Cargo.all_members content))
              (Cargo.remove_conflicts content)) as (a & b & Ep).
  - now apply sorted_no_backslash.
  - intro E. rewrite E in Hin. destruct Hin.
  - exact Hp.
  - destruct (new_members_block_lists _ _ Hin) as (x & y & Exy).
    exists a, x, y, b. split; [|now symmetry].
    rewrite cargo_runs by exact Hc. rewrite Ep. cbn [written].
    now rewrite Exy.
Qed.

(** A document with one conflict block from which no members are
    extracted, in a text without members: "ours" is kept, "theirs" and
    the three marker lines are dropped. *)
Section GenericRegion.
Variables pre label ours theirs l2 post : text.

Let doc : text :=
  pre ++ conflict_text (" "%char :: label) ours theirs l2 ++ post.

Hypothesis pre_no_start : contains Cargo.start_marker pre = false.
Hypothesis pre_lines : ends_line pre = true.
Hypothesis label_line : forallb not_nl label = true.
Hypothesis l2_line : forallb not_nl l2 = true.
Hypothesis ours_no_separator : contains Cargo.separator_line ours = false.
Hypothesis ours_no_end : contains Cargo.end_marker ours = false.
Hypothesis ours_lines : ends_line ours = true.
Hypothesis theirs_no_end : contains Cargo.end_marker theirs = false.
Hypothesis theirs_lines : ends_line theirs = true.
Hypothesis side_not_empty : nonblank (ours ++ theirs) = true.
Hypothesis rest_no_start :
  contains Cargo.start_marker
    (ours ++ Cargo.separator_line ++ theirs ++ Cargo.end_marker ++ l2 ++
     nl :: post) = false.
Hypothesis rest_no_members :
  contains (txt "members")
    (ours ++ Cargo.separator_line ++ theirs ++ Cargo.end_marker ++ l2 ++
     nl :: post) = false.
Hypothesis pre_no_members : contains (txt "members") pre = false.

Lemma doc_shape :
  doc = pre ++ Cargo.start_marker ++ (" "%char :: label) ++
        nl :: ours ++ Cargo.separator_line ++ theirs ++
        Cargo.end_marker ++ l2 ++ nl :: post.
Proof.
  unfold doc, conflict_text.
  repeat (rewrite <- app_assoc; cbn [app]). reflexivity.
Qed.

Lemma doc_has_marker : contains (txt "<<<<<<< ") doc = true.
Proof.
  rewrite doc_shape.
  change (Cargo.start_marker ++ (" "%char :: label) ++ ?x)
    with (txt "<<<<<<< " ++ label ++ x).
  apply contains_intro.
Qed.

Lemma generic_region_members : Cargo.all_members doc = [].
Proof.
  rewrite doc_shape, all_members_region; auto.
  - rewrite extract_members_none; [reflexivity|].
    apply contains_app_lines; auto.
    repeat match goal with
    | H : contains (txt "members") (_ ++ _) = false |- _ =>
        apply contains_false_app in H as [_ H]
    end.
    rewrite contains_cons in rest_no_members.
    now apply orb_false_iff in rest_no_members as [_ H].
Qed.

Lemma generic_region_removed :
  Cargo.remove_conflicts doc = pre ++ ours ++ post.
Proof.
  rewrite doc_shape. apply remove_conflicts_region; auto.
Qed.

Lemma generic_region_outcome :
  Cargo.resolve_cargo_conflict (Some doc) =
  Outcome [Resolved] [NoMembers]
    (Some (collapse_blank (pre ++ ours ++ post))) (Returns true).
Proof.
  rewrite cargo_runs by apply doc_has_marker.
  rewrite generic_region_members, generic_region_removed.
  unfold Cargo.place_members. cbn [sorted sorted_by fold_left].
  rewrite search_members_open_none.
  - cbn [length Nat.eqb negb]. rewrite andb_false_r. reflexivity.
  - apply contains_app_lines; auto.
    assert (H := rest_no_members).
    apply contains_false_app in H as [Ho H].
    apply contains_app_lines; auto.
    repeat apply contains_false_app in H as [_ H].
    rewrite contains_cons in H.
    now apply orb_false_iff in H as [_ H].
Qed.
End GenericRegion.

(** * Further properties of the two tools *)

(** ** The clean-up of the blank lines *)

Lemma contains_long_run (k : nat) (s : text) :
  3 <= k -> contains three_newlines (repeat nl k ++ s) = true.
Proof.
  intro H. destruct k as [|[|[|k]]]; try lia.
  change (repeat nl (S (S (S k))) ++ s)
    with (three_newlines ++ repeat nl k ++ s).
  apply (contains_intro three_newlines []).
Qed.

Lemma repeat_nl_shift (k : nat) (s : text) :
  repeat nl k ++ nl :: s = repeat nl (S k) ++ s.
Proof.
  change (nl :: s) with ([nl] ++ s). rewrite app_assoc. f_equal.
  symmetry. apply (repeat_cons k nl).
Qed.

Lemma squeeze_same (s : text) (k : nat) :
  contains three_newlines (repeat nl k ++ s) = false ->
  squeeze k s = repeat nl k ++ s.
Proof.
  revert k; induction s as [|c s IH]; intros k H.
  - cbn [squeeze]. unfold emit. destruct (Nat.leb_spec 3 k) as [L|L].
    + now rewrite contains_long_run in H.
    + now rewrite app_nil_r.
  - cbn [squeeze]. destruct (is_nl c) eqn:E.
    + apply is_nl_true in E; subst c. rewrite repeat_nl_shift in *.
      now apply IH.
    + unfold emit. destruct (Nat.leb_spec 3 k) as [L|L].
      * now rewrite contains_long_run in H.
      * f_equal. f_equal. apply (IH 0).
        apply contains_false_app in H as [_ H].
        rewrite contains_cons in H. now apply orb_false_iff in H as [_ H].
Qed.

(** X1. The clean-up leaves a text without three newlines in a row as it
    is. *)
Theorem collapse_blank_fixed :
  forall s : text,
    contains three_newlines s = false -> collapse_blank s = s.
Proof.
  intros s Hs. rewrite collapse_blank_squeeze. now apply (squeeze_same s 0).
Qed.

Lemma collapse_blank_fixed_witness :
  collapse_blank (txt "a" ++ [nl; nl] ++ txt "b") =
  txt "a" ++ [nl; nl] ++ txt "b".
Proof.
  apply collapse_blank_fixed. vm_compute; reflexivity.
Defined.

(** X2. Cleaning up twice is cleaning up once. *)
Theorem collapse_blank_idempotent :
  forall s : text, collapse_blank (collapse_blank s) = collapse_blank s.
Proof.
  intro s. rewrite (collapse_blank_squeeze (collapse_blank s)).
  apply (squeeze_same (collapse_blank s) 0), collapse_blank_no_run.
Qed.

(** ** Order and uniqueness of the merged entries *)

Lemma code_inj (a b : ascii) : code a = code b -> a = b.
Proof.
  unfold code. intro H.
  rewrite <- (ascii_nat_embedding a), <- (ascii_nat_embedding b).
  now rewrite H.
Qed.

Lemma text_ltb_irrefl (a : text) : text_ltb a a = false.
Proof.
  induction a as [|x a IH]; [reflexivity|]. cbn [text_ltb].
  now rewrite Nat.ltb_irrefl, Nat.eqb_refl, IH.
Qed.

Lemma text_ltb_asym (a b : text) :
  text_ltb a b = true -> text_ltb b a = false.
Proof.
  revert b; induction a as [|x a IH]; intros [|y b] H; try reflexivity;
    try discriminate.
  cbn [text_ltb] in *. apply orb_true_iff in H as [H|H].
  - apply Nat.ltb_lt in H.
    destruct (Nat.ltb_spec (code y) (code x)); [lia|].
    destruct (Nat.eqb_spec (code y) (code x)); [lia|reflexivity].
  - apply andb_true_iff in H as [E H]. apply Nat.eqb_eq in E.
    rewrite E, Nat.ltb_irrefl, Nat.eqb_refl. cbn. now apply IH.
Qed.

Lemma text_ltb_total (a b : text) :
  text_ltb a b = false -> text_ltb b a = false -> a = b.
Proof.
  revert b; induction a as [|x a IH]; intros [|y b] H1 H2;
    try reflexivity; try discriminate.
  cbn [text_ltb] in *.
  apply orb_false_iff in H1 as [L1 E1]. apply orb_false_iff in H2 as [L2 E2].
  apply Nat.ltb_ge in L1, L2.
  assert (E : code x = code y) by lia.
  rewrite E, Nat.eqb_refl in E1, E2. cbn in E1, E2.
  apply code_inj in E. subst y. f_equal. now apply IH.
Qed.

Lemma text_ltb_trans (a b c : text) :
  text_ltb a b = true -> text_ltb b c = true -> text_ltb a c = true.
Proof.
  revert b c; induction a as [|x a IH]; intros [|y b] [|z c] H1 H2;
    try reflexivity; try discriminate.
  cbn [text_ltb] in *.
  apply orb_true_iff in H1 as [H1|H1]; apply orb_true_iff in H2 as [H2|H2].
  - apply Nat.ltb_lt in H1, H2.
    destruct (Nat.ltb_spec (code x) (code z)); [reflexivity|lia].
  - apply andb_true_iff in H2 as [E2 H2]. apply Nat.eqb_eq in E2.
    rewrite <- E2, H1. reflexivity.
  - apply andb_true_iff in H1 as [E1 H1]. apply Nat.eqb_eq in E1.
    rewrite E1, H2. reflexivity.
  - apply andb_true_iff in H1 as [E1 H1]. apply andb_true_iff in H2 as [E2 H2].
    apply Nat.eqb_eq in E1, E2. rewrite E1, E2, Nat.eqb_refl.
    rewrite (IH b c H1 H2). apply orb_true_r.
Qed.

Section SortedFacts.
Variable A : Type.
Variable key : A -> text.

Lemma insert_by_HdRel (x a : A) (l : list A) :
  key_le key a x -> HdRel (key_le key) a l ->
  HdRel (key_le key) a (insert_by key x l).
Proof.
  intros Hx Hl. destruct l as [|y l]; cbn [insert_by].
  - now constructor.
  - destruct (text_ltb (key x) (key y)); constructor; auto.
    now inversion Hl.
Qed.

Lemma insert_by_sorted (x : A) (l : list A) :
  Sorted (key_le key) l -> Sorted (key_le key) (insert_by key x l).
Proof.
  induction l as [|y l IH]; intro H; cbn [insert_by].
  - repeat constructor.
  - inversion H as [|? ? Hs Hh]; subst.
    destruct (text_ltb (key x) (key y)) eqn:E.
    + constructor; [exact H|]. constructor. unfold key_le.
      now apply text_ltb_asym.
    + constructor; [now apply IH|].
      apply insert_by_HdRel; [exact E|exact Hh].
Qed.

Lemma sorted_by_sorted (l : list A) :
  Sorted (key_le key) (sorted_by key l).
Proof.
  unfold sorted_by.
  enough (H : forall acc, Sorted (key_le key) acc ->
              Sorted (key_le key)
                (fold_left (fun acc x => insert_by key x acc) l acc))
    by (apply H; constructor).
  induction l as [|x l IH]; intros acc Hacc; [exact Hacc|].
  cbn [fold_left]. apply IH. now apply insert_by_sorted.
Qed.
End SortedFacts.

Lemma set_add_NoDup (x : text) (s : list text) :
  NoDup s -> NoDup (set_add x s).
Proof.
  intro H. unfold set_add. destruct (mem x s) eqn:E; [exact H|].
  apply NoDup_app; [exact H|repeat constructor; intros []|].
  intros y Hy [<-|[]]. apply mem_In in Hy. congruence.
Qed.

Lemma set_update_NoDup (t s : list text) :
  NoDup s -> NoDup (set_update s t).
Proof.
  unfold set_update. revert s; induction t as [|x t IH]; intros s H;
    [exact H|].
  cbn [fold_left]. apply IH. now apply set_add_NoDup.
Qed.

Lemma all_members_NoDup (content : text) : NoDup (Cargo.all_members content).
Proof.
  unfold Cargo.all_members. apply set_update_NoDup.
  generalize (NoDup_nil text). generalize (@nil text).
  induction (Re.finditer Cargo.conflict_pattern content) as [|m ms IH];
    intros acc H; [exact H|].
  cbn [fold_left]. apply IH. now do 2 apply set_update_NoDup.
Qed.

Lemma sorted_strict (l : list text) :
  NoDup l -> ascending (sorted l).
Proof.
  intro H. unfold ascending. apply Sorted_StronglySorted.
  { intros a b c. apply text_ltb_trans. }
  assert (Hn : NoDup (sorted l)).
  { eapply Permutation_NoDup; [symmetry; apply sorted_by_perm|exact H]. }
  pose proof (sorted_by_sorted (fun x : text => x) l) as Hs.
  fold (sorted l) in Hs.
  induction Hs as [|a s Hs IH Hh]; [constructor|].
  inversion Hn as [|? ? Hna Hns]; subst.
  constructor; [now apply IH|].
  destruct Hh as [|b s Hab]; constructor.
  unfold key_le in Hab.
  destruct (text_ltb a b) eqn:E; [reflexivity|]. exfalso.
  apply Hna. left. symmetry. now apply text_ltb_total.
Qed.

(** X3. The members the manifest tool merges are listed once each, in
    strictly ascending order of their text, and they are the members
    collected: sorting drops and adds nothing. *)
Theorem merged_members_sorted_unique :
  forall content : text,
    NoDup (sorted (Cargo.all_members content)) /\
    ascending (sorted (Cargo.all_members content)) /\
    forall m, In m (sorted (Cargo.all_members content)) <->
              In m (Cargo.all_members content).
Proof.
  intro content. pose proof (all_members_NoDup content) as H.
  split; [|split].
  - eapply Permutation_NoDup; [symmetry; apply sorted_by_perm|exact H].
  - now apply sorted_strict.
  - intro m. apply sorted_by_In.
Qed.

(** ** The manifest tool fails on a backslash only *)

Lemma place_members_succeeds (ms : list text) (resolved : text) :
  forallb no_backslash ms = true ->
  Cargo.place_members ms resolved <> None.
Proof.
  intro Hb. unfold Cargo.place_members.
  pose proof (new_members_block_no_backslash ms Hb) as Hk.
  destruct (Re.search Cargo.members_open resolved).
  - rewrite sub_template_literal by exact Hk. discriminate.
  - destruct (contains (txt "[workspace]") resolved &&
              negb (length ms =? 0)); [|discriminate].
    rewrite sub_template_workspace by exact Hk. discriminate.
Qed.

(** X4. When no member collected from the document has a backslash the
    manifest tool does not fail: it returns success and [main] exits
    with code 0, and for a document with the start marker the file is
    written. *)
Theorem no_backslash_no_failure :
  forall content : text,
    forallb no_backslash (Cargo.all_members content) = true ->
    result (Cargo.main (Some content)) = Returns true /\
    exit_code (Cargo.main (Some content)) = 0 /\
    (contains (txt "<<<<<<< ") content = true ->
     exists t, written (Cargo.main (Some content)) = Some t).
Proof.
  intros content Hb.
  pose proof (@place_members_succeeds (sorted (Cargo.all_members content))
                (Cargo.remove_conflicts content)
                (sorted_no_backslash _ Hb)) as Hp.
  unfold Cargo.main, exit_code, Cargo.resolve_cargo_conflict.
  destruct (contains (txt "<<<<<<< ") content); cbn [negb].
  - destruct (Cargo.place_members _ _) as [r|]; [|congruence].
    cbn [result written]. repeat split. intros _. now exists (collapse_blank r).
  - cbn [result]. repeat split. discriminate.
Qed.

Lemma no_backslash_no_failure_witness :
  result (Cargo.main (Some Example.scenario_a)) = Returns true.
Proof.
  apply (no_backslash_no_failure Example.scenario_a). vm_compute; reflexivity.
Defined.

(** ** The declaration tool on any document *)

Lemma extract_pub_mods_inv (block e : text) :
  In e (LibRs.extract_pub_mods block) ->
  exists line c rest,
    In line (split_nl block) /\
    Re.match_at LibRs.pub_mod_pattern (strip line) = Some (c, rest) /\
    e = Re.group c 1.
Proof.
  unfold LibRs.extract_pub_mods.
  enough (G : forall ls acc,
            In e (fold_left
              (fun mods line =>
                 match Re.match_at LibRs.pub_mod_pattern (strip line) with
                 | Some (c, _) => set_add (Re.group c 1) mods
                 | None => mods
                 end) ls acc) ->
            In e acc \/
            exists line c rest,
              In line ls /\
              Re.match_at LibRs.pub_mod_pattern (strip line) = Some (c, rest) /\
              e = Re.group c 1).
  { intro H. apply G in H as [[]|H]. exact H. }
  induction ls as [|l ls IH]; intros acc H; [now left|].
  cbn [fold_left] in H. apply IH in H as [H|(line & c & rest & H1 & H2 & H3)].
  - destruct (Re.match_at LibRs.pub_mod_pattern (strip l)) as [[c rest]|] eqn:E;
      [|now left].
    apply set_add_In in H as [->|H]; [|now left].
    right. exists l, c, rest. cbn [In]. auto.
  - right. exists line, c, rest. cbn [In]. auto.
Qed.

Lemma declaration_pub (s : text)
  (k : text -> Re.caps -> option (Re.caps * text)) (c : Re.caps) x :
  Re.run LibRs.declaration s c k = Some x -> startswith (txt "pub") s = true.
Proof.
  unfold LibRs.declaration. rewrite run_seq, run_lit.
  destruct (strip_prefix (txt "pub") s) as [s1|] eqn:E; [|discriminate].
  apply strip_prefix_Some in E. subst s. intros _. apply startswith_app.
Qed.

Lemma is_declaration_pub (s : text) :
  LibRs.is_declaration s = true -> startswith (txt "pub") s = true.
Proof.
  unfold LibRs.is_declaration, Re.match_at.
  destruct (Re.run LibRs.declaration s [] _) eqn:E; [|discriminate].
  intros _. eapply declaration_pub, E.
Qed.

Lemma pub_firstn (n : nat) (s : text) :
  3 <= n -> startswith (txt "pub") s = true ->
  startswith (txt "pub") (firstn n s) = true.
Proof.
  intros Hn H. apply startswith_inv in H as [r ->].
  destruct n as [|[|[|n]]]; try lia. reflexivity.
Qed.

Lemma pub_not_marker (e : text) :
  startswith (txt "pub") e = true -> Doc.is_marker e = false.
Proof. intro H. apply startswith_inv in H as [r ->]. reflexivity. Qed.

(** An entry of the set of declarations: a piece of a line that begins
    with [pub]. *)
Lemma extract_pub_mods_pub (block e : text) :
  In e (LibRs.extract_pub_mods block) ->
  line_ok e /\ startswith (txt "pub") e = true.
Proof.
  intro H. pose proof (extract_pub_mods_ok _ _ H) as [Hl _].
  split; [exact Hl|].
  apply extract_pub_mods_inv in H as (line & c & rest & _ & Hm & ->).
  pose proof Hm as Hg. apply pub_mod_group in Hg as (n & -> & Hn & _).
  apply pub_firstn; [exact Hn|].
  unfold Re.match_at, LibRs.pub_mod_pattern in Hm. rewrite run_grp in Hm.
  eapply declaration_pub, Hm.
Qed.

Lemma scan_clean (ls : list text) (st : LibRs.scan_state) :
  Forall line_ok ls ->
  Forall (fun l => line_ok l /\ Doc.is_marker l = false)
    (LibRs.resolved_lines st) ->
  Forall (fun e => line_ok e /\ startswith (txt "pub") e = true)
    (LibRs.all_pub_mods st) ->
  NoDup (LibRs.all_pub_mods st) ->
  let st' := fold_left LibRs.step ls st in
  Forall (fun l => line_ok l /\ Doc.is_marker l = false)
    (LibRs.resolved_lines st') /\
  Forall (fun e => line_ok e /\ startswith (txt "pub") e = true)
    (LibRs.all_pub_mods st') /\
  NoDup (LibRs.all_pub_mods st').
Proof.
  cbn zeta. revert st. induction ls as [|l ls IH]; intros st Hls HR HM HN;
    [now cbn|].
  inversion Hls as [|? ? Hl Hls']; subst. cbn [fold_left].
  assert (HU : Forall (fun e => line_ok e /\ startswith (txt "pub") e = true)
                 (set_update (LibRs.all_pub_mods st)
                    (LibRs.extract_pub_mods (LibRs.conflict_section st)))).
  { rewrite Forall_forall in *. intros e He.
    apply set_update_In in He as [He|He]; [now apply HM|].
    now apply extract_pub_mods_pub in He. }
  apply IH; [exact Hls'| | |]; unfold LibRs.step;
    destruct (startswith LibRs.start_prefix l) eqn:E1;
    cbn [LibRs.resolved_lines LibRs.all_pub_mods]; auto;
    destruct (startswith LibRs.separator_prefix l) eqn:E2;
    cbn [LibRs.resolved_lines LibRs.all_pub_mods];
    auto using set_update_NoDup;
    destruct (startswith LibRs.end_prefix l) eqn:E3;
    cbn [LibRs.resolved_lines LibRs.all_pub_mods];
    auto using set_update_NoDup;
    destruct (LibRs.in_conflict st);
    cbn [LibRs.resolved_lines LibRs.all_pub_mods]; auto;
    destruct (LibRs.is_declaration (strip l)) eqn:E4;
    cbn [LibRs.resolved_lines LibRs.all_pub_mods];
    auto using set_add_NoDup.
  - apply Forall_app. split; [exact HR|]. constructor; [|constructor].
    split; [exact Hl|]. unfold Doc.is_marker. now rewrite E1, E2, E3.
  - rewrite Forall_forall in *. intros e He.
    apply set_add_In in He as [->|He]; [|now apply HM].
    split; [now apply line_ok_strip|now apply is_declaration_pub].
Qed.

Lemma scan_lines_clean (content : text) :
  let st := LibRs.scan_lines (split_nl content) in
  Forall (fun l => line_ok l /\ Doc.is_marker l = false)
    (LibRs.resolved_lines st) /\
  Forall (fun e => line_ok e /\ startswith (txt "pub") e = true)
    (LibRs.all_pub_mods st) /\
  NoDup (LibRs.all_pub_mods st).
Proof.
  apply scan_clean; cbn; try constructor. apply split_nl_lines.
Qed.

Section LibRsAny.
Variable set_order : list text -> list text.
Hypothesis set_order_perm : forall l, Permutation (set_order l) l.

Lemma merged_lines_clean (content : text) :
  Forall (fun l => line_ok l /\ Doc.is_marker l = false)
    (LibRs.merged_lines set_order (LibRs.scan_lines (split_nl content))).
Proof.
  destruct (scan_lines_clean content) as (HR & HM & _).
  destruct (merged_lines_at set_order
              (LibRs.scan_lines (split_nl content))) as [k ->].
  rewrite Forall_forall in *. intros x Hx.
  apply in_app_iff in Hx as [Hx|Hx].
  - apply HR. rewrite <- (firstn_skipn k). apply in_or_app. now left.
  - apply in_app_iff in Hx as [Hx|Hx].
    + apply (@sorted_mods_In set_order set_order_perm) in Hx. apply HM in Hx as [H1 H2].
      split; [exact H1|now apply pub_not_marker].
    + apply HR. rewrite <- (firstn_skipn k). apply in_or_app. now right.
Qed.

Lemma rewrite_plain (content : text) :
  Doc.plain (split_nl (LibRs.rewrite set_order content)) = true.
Proof.
  pose proof (merged_lines_clean content) as HC.
  assert (HL : Forall line_ok
                 (LibRs.merged_lines set_order
                    (LibRs.scan_lines (split_nl content)))).
  { eapply Forall_impl; [|exact HC]. now intros a [H _]. }
  pose proof (rewrite_lines set_order content HL) as HN.
  unfold Doc.plain. apply forallb_forall. intros l Hl.
  destruct l as [|c l]; [reflexivity|].
  assert (Hn : In (c :: l) (nonblank_lines (LibRs.rewrite set_order content))).
  { unfold nonblank_lines. apply filter_In. now split. }
  rewrite HN in Hn. apply filter_In in Hn as [Hn _].
  rewrite Forall_forall in HC. apply HC in Hn as [_ ->]. reflexivity.
Qed.
End LibRsAny.

(** X5. Whatever the document, no line of the text the declaration tool
    writes begins with a conflict marker: not with the start marker, not
    with seven equals signs, not with the end marker. It holds also
    where the markers are unbalanced or nested. *)
Theorem no_marker_line_written :
  forall set_order : list text -> list text,
    (forall l, Permutation (set_order l) l) ->
    forall content t,
      written (LibRs.main set_order (Some content)) = Some t ->
      Doc.plain (split_nl t) = true.
Proof.
  intros set_order Hp content t. unfold LibRs.main, LibRs.resolve_librs_conflict.
  destruct (contains LibRs.start_prefix content); cbn; [|discriminate].
  intro H. injection H as <-. apply (@rewrite_plain set_order Hp content).
Qed.

Lemma no_marker_line_written_witness :
  Doc.plain
    (split_nl (txt "z" ++ [nl])) = true.
Proof.
  apply (@no_marker_line_written Example.insertion_order
           (fun l => Permutation_refl l) Example.nested).
  vm_compute. reflexivity.
Defined.

(** X6. The declarations the tool writes are the entries of its set,
    once each, in the order of their module names, and they stand
    together at one place among the lines kept. *)
Theorem merged_declarations_sorted_unique :
  forall set_order : list text -> list text,
    (forall l, Permutation (set_order l) l) ->
    forall content : text,
      let st := LibRs.scan_lines (split_nl content) in
      NoDup (LibRs.sorted_mods set_order st) /\
      Sorted (key_le LibRs.extract_mod_name) (LibRs.sorted_mods set_order st) /\
      (forall e, In e (LibRs.sorted_mods set_order st) <->
                 In e (LibRs.all_pub_mods st)) /\
      exists k, LibRs.merged_lines set_order st =
                firstn k (LibRs.resolved_lines st) ++
                LibRs.sorted_mods set_order st ++
                skipn k (LibRs.resolved_lines st).
Proof.
  intros set_order Hp content. cbn zeta.
  destruct (scan_lines_clean content) as (_ & _ & HN).
  split; [|split; [|split]].
  - unfold LibRs.sorted_mods.
    eapply Permutation_NoDup; [symmetry; apply sorted_by_perm|].
    eapply Permutation_NoDup; [symmetry; apply Hp|exact HN].
  - apply sorted_by_sorted.
  - intro e. apply (@sorted_mods_In set_order Hp).
  - apply merged_lines_at.
Qed.

Lemma merged_declarations_sorted_unique_witness :
  NoDup (LibRs.sorted_mods Example.insertion_order
           (LibRs.scan_lines (split_nl Example.scenario_b))).
Proof.
  exact (proj1 (@merged_declarations_sorted_unique Example.insertion_order
                  (fun l => Permutation_refl l) Example.scenario_b)).
Defined.

(** ** The extraction of the members *)

Section RunSuffix.
Variable A : Type.

Lemma lazy0_suffix (cls : ascii -> bool) (s : text) (k : text -> option A) x :
  Re.lazy0 cls s k = Some x -> exists s', k s' = Some x /\ Suffix s' s.
Proof.
  induction s as [|c s IH]; cbn [Re.lazy0].
  - destruct (k []) eqn:E; [|discriminate].
    intros [= <-]. exists []. split; [exact E|apply Suffix_refl].
  - destruct (k (c :: s)) eqn:E.
    + intros [= <-]. exists (c :: s). split; [exact E|apply Suffix_refl].
    + destruct (cls c); [|discriminate]. intro H.
      destruct (IH H) as (s' & Hk & L). exists s'.
      split; [exact Hk|now apply Suffix_cons].
Qed.

Lemma greedy0_suffix (cls : ascii -> bool) (s : text) (k : text -> option A)
  x :
  Re.greedy0 cls s k = Some x -> exists s', k s' = Some x /\ Suffix s' s.
Proof.
  induction s as [|c s IH]; cbn [Re.greedy0].
  - intro H. exists []. split; [exact H|apply Suffix_refl].
  - destruct (cls c).
    + destruct (Re.greedy0 cls s k) eqn:E.
      * intros [= <-]. destruct (IH eq_refl) as (s' & Hk & L).
        exists s'. split; [exact Hk|now apply Suffix_cons].
      * intro H. exists (c :: s). split; [exact H|apply Suffix_refl].
    + intro H. exists (c :: s). split; [exact H|apply Suffix_refl].
Qed.

Lemma exactly_suffix (cls : ascii -> bool) (n : nat) (s : text)
  (k : text -> option A) x :
  Re.exactly cls n s k = Some x -> exists s', k s' = Some x /\ Suffix s' s.
Proof.
  revert s; induction n as [|n IH]; intro s; cbn [Re.exactly].
  - intro H. exists s. split; [exact H|apply Suffix_refl].
  - destruct s as [|c s]; [discriminate|].
    destruct (cls c); [|discriminate]. intro H.
    destruct (IH _ H) as (s' & Hk & L). exists s'.
    split; [exact Hk|now apply Suffix_cons].
Qed.

(** A successful run called its continuation on what remains of the
    input after some prefix. *)
Lemma run_suffix (r : Re.re) :
  forall (s : text) (c : Re.caps) (k : text -> Re.caps -> option A) x,
    Re.run r s c k = Some x ->
    exists s' c', k s' c' = Some x /\ Suffix s' s.
Proof.
  induction r as [w|g lo cls|r1 IH1 r2 IH2|r IH|i r IH];
    intros s c k x; cbn [Re.run].
  - destruct (strip_prefix w s) as [s'|] eqn:E; [|discriminate].
    intro H. exists s', c. split; [exact H|].
    apply strip_prefix_Some in E. now exists w.
  - unfold Re.rep. intro H. apply exactly_suffix in H as (s1 & H & L1).
    destruct g.
    + apply greedy0_suffix in H as (s' & H & L). exists s', c.
      split; [exact H|eapply Suffix_trans; eauto].
    + apply lazy0_suffix in H as (s' & H & L). exists s', c.
      split; [exact H|eapply Suffix_trans; eauto].
  - intro H. apply IH1 in H as (s1 & c1 & H & L1).
    apply IH2 in H as (s2 & c2 & H & L2). exists s2, c2.
    split; [exact H|eapply Suffix_trans; eauto].
  - destruct (Re.run r s c k) eqn:E.
    + intros [= <-]. apply IH in E. exact E.
    + intro H. exists s, c. split; [exact H|apply Suffix_refl].
  - intro H. apply IH in H as (s' & c' & H & L).
    eexists s', _. split; [exact H|exact L].
Qed.

(** A pattern that ends with a word matches only where the word
    occurs. *)
Lemma run_lit_contains (w s : text) c (k : text -> Re.caps -> option A) x :
  Re.run (Re.Lit w) s c k = Some x -> contains w s = true.
Proof.
  rewrite run_lit. destruct (strip_prefix w s) as [s'|] eqn:E;
    [|discriminate].
  intros _. apply strip_prefix_Some in E. subst s.
  apply (contains_intro w [] s').
Qed.

Lemma run_seq_contains (w : text) (r1 r2 : Re.re) :
  (forall s c (k : text -> Re.caps -> option A) x,
      Re.run r2 s c k = Some x -> contains w s = true) ->
  forall s c (k : text -> Re.caps -> option A) x,
    Re.run (Re.Seq r1 r2) s c k = Some x -> contains w s = true.
Proof.
  intros H2 s c k x H. rewrite run_seq in H.
  apply run_suffix in H as (s1 & c1 & H & L).
  apply H2 in H. destruct (contains w s) eqn:E; [reflexivity|].
  now rewrite (contains_false_Suffix _ E L) in H.
Qed.
End RunSuffix.

Lemma members_pattern_bracket (s : text) (c : Re.caps) (rest : text) :
  Re.match_at Cargo.members_pattern s = Some (c, rest) ->
  contains (txt "members") s = true /\ contains (txt "]") s = true.
Proof.
  unfold Re.match_at, Cargo.members_pattern. intro H. split.
  - rewrite run_seq in H. eapply run_lit_contains, H.
  - revert H. do 6 apply run_seq_contains. apply run_lit_contains.
Qed.

(** X7. A block in which the word [members] or the closing bracket does
    not occur has no members: a list that is not closed is not read, and
    nothing fails. *)
Theorem no_list_no_members :
  forall block : text,
    contains (txt "members") block = false \/
    contains (txt "]") block = false ->
    Cargo.extract_members_from_block block = [].
Proof.
  intros block H. unfold Cargo.extract_members_from_block.
  rewrite search_none; [reflexivity|].
  intros t Ht.
  destruct (Re.match_at Cargo.members_pattern t) as [[c rest]|] eqn:E;
    [|reflexivity].
  apply members_pattern_bracket in E as [E1 E2].
  destruct H as [H|H];
    rewrite (contains_false_Suffix _ H Ht) in *; discriminate.
Qed.

Lemma no_list_no_members_witness :
  Cargo.extract_members_from_block
    (txt "members = [" ++ Cargo.quote (txt "a") ++ txt ",") = [].
Proof.
  apply no_list_no_members. right. vm_compute. reflexivity.
Defined.

(** ** What is written can be read back *)

Lemma not_dq_no_match (s t : text) :
  forallb not_dq s = true -> Suffix t s ->
  Re.match_at Cargo.quoted_pattern t = None.
Proof.
  intros Hs [a ->]. apply match_lit_none.
  apply forallb_app_inv in Hs as [_ Ht].
  destruct t as [|c t]; [reflexivity|].
  cbn [forallb] in Ht. apply andb_true_iff in Ht as [Hc _].
  unfold not_dq in Hc. apply negb_true_iff in Hc.
  unfold startswith. cbn [strip_prefix]. rewrite Ascii.eqb_sym. now rewrite Hc.
Qed.

Lemma not_dq_no_match_app (u u1 u2 v : text) :
  forallb not_dq u = true -> u = u1 ++ u2 -> u2 <> [] ->
  Re.match_at Cargo.quoted_pattern (u2 ++ v) = None.
Proof.
  intros Hu -> Hn. apply match_lit_none.
  apply forallb_app_inv in Hu as [_ Ht].
  destruct u2 as [|c t]; [congruence|].
  cbn [forallb] in Ht. apply andb_true_iff in Ht as [Hc _].
  unfold not_dq in Hc. apply negb_true_iff in Hc.
  unfold startswith. cbn [strip_prefix app]. rewrite Ascii.eqb_sym.
  now rewrite Hc.
Qed.

Lemma quoted_match (m v : text) :
  m <> [] -> forallb not_dq m = true ->
  Re.match_at Cargo.quoted_pattern (Cargo.quote m ++ v) =
  Some ([(0, Cargo.quote m); (1, m)], v).
Proof.
  intros Hn Hm. destruct m as [|a m]; [congruence|].
  cbn [forallb] in Hm. apply andb_true_iff in Hm as [Ha Hm].
  unfold Re.match_at, Cargo.quoted_pattern.
  assert (E : Cargo.quote (a :: m) ++ v = [dq] ++ (a :: m) ++ [dq] ++ v).
  { unfold Cargo.quote. cbn [app]. now rewrite <- app_assoc. }
  rewrite E.
  rewrite run_seq, run_lit_app, run_seq, run_grp, run_rep. unfold Re.rep.
  cbn [Re.exactly app]. rewrite Ha.
  erewrite greedy0_app; [reflexivity|exact Hm|].
  rewrite greedy0_stop by reflexivity.
  change (dq :: v) with ([dq] ++ v). rewrite run_lit_app.
  do 3 f_equal.
  - f_equal. change (dq :: a :: m ++ [dq] ++ v)
      with ([dq] ++ (a :: m) ++ [dq] ++ v).
    rewrite <- E. apply firstn_consumed.
  - do 2 f_equal. change (a :: m ++ [dq] ++ v) with ((a :: m) ++ [dq] ++ v).
    apply firstn_consumed.
Qed.

Lemma finditer_quoted_step (u m v : text) :
  forallb not_dq u = true -> m <> [] -> forallb not_dq m = true ->
  Re.finditer Cargo.quoted_pattern (u ++ Cargo.quote m ++ v) =
  [(0, Cargo.quote m); (1, m)] :: Re.finditer Cargo.quoted_pattern v.
Proof.
  intros Hu Hn Hm. unfold Re.finditer.
  rewrite scan_nomatch
    by (intros u1 u2 E N; apply (@not_dq_no_match_app u u1 u2 _ Hu E N)).
  rewrite flat_map_app, flat_map_chars_caps.
  rewrite (@scan_match Cargo.quoted_pattern (Cargo.quote m) v
             [(0, Cargo.quote m); (1, m)]).
  - reflexivity.
  - discriminate.
  - now apply quoted_match.
Qed.

Lemma forallb_join (P : ascii -> bool) (sep : text) (ls : list text) :
  forallb P sep = true -> forallb (forallb P) ls = true ->
  forallb P (Cargo.join sep ls) = true.
Proof.
  intros Hs. induction ls as [|l ls IH]; [reflexivity|].
  cbn [forallb]. intro H. apply andb_true_iff in H as [Hl Hls].
  destruct ls as [|l' ls]; [exact Hl|].
  change (Cargo.join sep (l :: l' :: ls))
    with (l ++ sep ++ Cargo.join sep (l' :: ls)).
  rewrite !forallb_app, Hl, Hs. now apply IH.
Qed.

Lemma finditer_quoted_join (sep tail : text) (ms : list text) :
  forallb not_dq sep = true -> forallb not_dq tail = true ->
  Forall (fun m => m <> [] /\ forallb not_dq m = true) ms ->
  forall u, forallb not_dq u = true ->
    map (fun c => Re.group c 1)
      (Re.finditer Cargo.quoted_pattern
         (u ++ Cargo.join sep (map Cargo.quote ms) ++ tail)) = ms.
Proof.
  intros Hs Ht. induction ms as [|m ms IH]; intros Hms u Hu.
  - cbn [map Cargo.join app]. rewrite finditer_none; [reflexivity|].
    intros t Hsuf. eapply not_dq_no_match; [|exact Hsuf].
    now rewrite forallb_app, Hu, Ht.
  - inversion Hms as [|? ? [Hn Hm] Hms']; subst.
    destruct ms as [|m' ms].
    + cbn [map Cargo.join]. rewrite finditer_quoted_step by assumption.
      cbn [map]. f_equal.
      apply (IH Hms' [] eq_refl).
    + change (Cargo.join sep (map Cargo.quote (m :: m' :: ms)))
        with (Cargo.quote m ++ sep ++
              Cargo.join sep (map Cargo.quote (m' :: ms))).
      rewrite <- !app_assoc.
      rewrite finditer_quoted_step by assumption.
      cbn [map]. f_equal. apply (IH Hms' sep Hs).
Qed.

Lemma fold_set_add_fresh (ms acc : list text) :
  NoDup (acc ++ ms) ->
  fold_left (fun a x => set_add x a) ms acc = acc ++ ms.
Proof.
  revert acc; induction ms as [|m ms IH]; intros acc H.
  - now rewrite app_nil_r.
  - cbn [fold_left]. unfold set_add at 2.
    destruct (mem m acc) eqn:E.
    + apply mem_In in E. apply NoDup_remove_2 in H. exfalso. apply H.
      apply in_or_app. now left.
    + rewrite IH; rewrite <- app_assoc; [reflexivity|exact H].
Qed.

Lemma quoted_strings_map (body : text) :
  quoted_strings body =
  fold_left (fun a x => set_add x a)
    (map (fun c => Re.group c 1) (Re.finditer Cargo.quoted_pattern body)) [].
Proof.
  unfold quoted_strings. generalize (@nil text).
  induction (Re.finditer Cargo.quoted_pattern body) as [|c cs IH];
    intro acc; [reflexivity|].
  cbn [fold_left map]. apply IH.
Qed.

Lemma no_char_contains (a : ascii) (s : text) :
  forallb (fun c => negb (Ascii.eqb c a)) s = true ->
  contains [a] s = false.
Proof.
  induction s as [|c s IH]; [reflexivity|].
  cbn [forallb]. intro H. apply andb_true_iff in H as [Hc Hs].
  rewrite contains_cons, (IH Hs). apply negb_true_iff in Hc.
  unfold startswith. cbn [strip_prefix]. rewrite Ascii.eqb_sym, Hc.
  reflexivity.
Qed.

Lemma member_ok_inv (m : text) :
  member_ok m = true ->
  m <> [] /\ forallb not_dq m = true /\
  forallb (fun c => negb (Ascii.eqb c "]"%char)) m = true.
Proof.
  unfold member_ok. intro H. apply andb_true_iff in H as [Hn H].
  split; [destruct m; [discriminate|discriminate]|].
  rewrite forallb_forall in H. split; apply forallb_forall; intros c Hc;
    specialize (H c Hc); apply andb_true_iff in H as [H1 H2]; assumption.
Qed.

Lemma new_members_block_literal (ms : list text) :
  ms <> [] ->
  Cargo.new_members_block ms =
  [] ++ members_literal (txt " ") (txt " ")
          ((nl :: txt "    ") ++
           Cargo.join (txt "," ++ nl :: txt "    ") (map Cargo.quote ms) ++
           txt "," ++ [nl]) ++ [].
Proof.
  destruct ms as [|m ms]; [congruence|]. intros _.
  unfold Cargo.new_members_block, members_literal.
  rewrite app_nil_r. rewrite <- !app_assoc. reflexivity.
Qed.

(** X8. A block written for members that are distinct, not empty and
    without quote and closing bracket is read back as exactly these
    members. *)
Theorem members_block_round_trip :
  forall ms : list text,
    NoDup ms -> forallb member_ok ms = true ->
    Cargo.extract_members_from_block (Cargo.new_members_block ms) = ms.
Proof.
  intros ms Hd Hok.
  destruct ms as [|m0 ms0] eqn:Ems; [reflexivity|].
  assert (Hne : ms <> []) by (rewrite Ems; discriminate).
  rewrite <- Ems in *. clear Ems m0 ms0.
  rewrite (new_members_block_literal Hne).
  assert (Hall : Forall (fun m => m <> [] /\ forallb not_dq m = true) ms /\
                 forallb (forallb (fun c => negb (Ascii.eqb c "]"%char)))
                   (map Cargo.quote ms) = true).
  { clear - Hok. induction ms as [|m ms IH]; [split; [constructor|reflexivity]|].
    cbn [forallb] in Hok. apply andb_true_iff in Hok as [Hm Hms].
    destruct (IH Hms) as [I1 I2]. apply member_ok_inv in Hm as (H1 & H2 & H3).
    split; [constructor; auto|].
    cbn [map forallb]. rewrite I2, andb_true_r.
    unfold Cargo.quote. cbn [forallb]. rewrite forallb_app, H3. reflexivity. }
  destruct Hall as [H1 H2].
  rewrite extract_first_literal; try reflexivity.
  - rewrite quoted_strings_map, finditer_quoted_join; try reflexivity.
    + now apply (@fold_set_add_fresh ms []).
    + exact H1.
  - change (txt "]") with ["]"%char]. apply no_char_contains.
    rewrite !forallb_app. rewrite forallb_join; [reflexivity|reflexivity|].
    exact H2.
Qed.

Lemma members_block_round_trip_witness :
  Cargo.extract_members_from_block
    (Cargo.new_members_block [txt "crates/a"; txt "crates/b"]) =
  [txt "crates/a"; txt "crates/b"].
Proof.
  apply members_block_round_trip.
  - repeat constructor; cbn; intuition discriminate.
  - vm_compute. reflexivity.
Defined.

(** ** The replacement of the members lists *)

Lemma members_unbordered (u r : text) :
  u <> [] ->
  startswith (txt "members") (u ++ txt "members" ++ r) = true ->
  startswith (txt "members") u = true.
Proof.
  intros Hu H.
  apply startswith_app_cases in H as [H|(w1 & w2 & Hw & -> & Hn & Hs)];
    [exact H|].
  destruct w1 as [|a1 w1]; [congruence|]. exfalso.
  cbn [txt list_ascii_of_string app] in Hw, Hs.
  injection Hw as <- Hw.
  do 6 (destruct w1 as [|? w1];
        [cbn [app] in Hw; subst w2; cbv in Hs; discriminate Hs|];
        cbn [app] in Hw; injection Hw as <- Hw).
  symmetry in Hw. apply app_eq_nil in Hw as [_ Hw]. congruence.
Qed.

Lemma before_list_no_match (r : Re.re) (before u1 u2 ws1 ws2 body rest : text) :
  contains (txt "members") before = false ->
  before = u1 ++ u2 -> u2 <> [] ->
  Re.match_at (Re.Lit (txt "members") ;; r)%re
    (u2 ++ members_literal ws1 ws2 body ++ rest) = None.
Proof.
  intros Hb E Hn. apply match_lit_none.
  destruct (startswith (txt "members")
              (u2 ++ members_literal ws1 ws2 body ++ rest)) eqn:Es;
    [|reflexivity].
  unfold members_literal in Es. rewrite <- app_assoc in Es.
  apply members_unbordered in Es; [|exact Hn].
  rewrite (@contains_false_suffix (txt "members") before u2 Hb) in Es;
    [discriminate|]. now exists u1.
Qed.

Lemma members_block_match (ws1 ws2 body rest : text) :
  forallb is_space ws1 = true -> forallb is_space ws2 = true ->
  contains (txt "]") body = false ->
  exists c,
    Re.match_at Cargo.members_block_pattern
      (members_literal ws1 ws2 body ++ rest) = Some (c, rest).
Proof.
  intros H1 H2 Hb. eexists.
  unfold Re.match_at, Cargo.members_block_pattern, members_literal.
  repeat rewrite <- app_assoc.
  rewrite run_seq, run_lit_app.
  apply run_class_then; [exact H1|reflexivity|].
  rewrite run_seq. change (txt "=") with ["="%char]. cbn [app].
  change ("="%char :: ws2 ++ txt "[" ++ body ++ txt "]" ++ rest)
    with (["="%char] ++ ws2 ++ txt "[" ++ body ++ txt "]" ++ rest).
  rewrite run_lit_app.
  change (txt "[") with ["["%char]. cbn [app].
  apply run_class_then; [exact H2|reflexivity|].
  rewrite run_seq.
  change ("["%char :: body ++ txt "]" ++ rest)
    with (["["%char] ++ body ++ txt "]" ++ rest).
  rewrite run_lit_app.
  rewrite run_seq, run_rep. unfold Re.rep. cbn [Re.exactly].
  rewrite lazy0_skip.
  - apply lazy0_hit. rewrite run_lit_app. reflexivity.
  - intros u1 u2 Hu Hn. apply run_lit_fail.
    change (txt "]") with ["]"%char].
    rewrite startswith_char by exact Hn.
    eapply contains_false_suffix; [exact Hb|]. now exists u1.
Qed.

Lemma members_open_match (ws1 ws2 body rest : text) :
  forallb is_space ws1 = true -> forallb is_space ws2 = true ->
  exists c,
    Re.match_at Cargo.members_open (members_literal ws1 ws2 body ++ rest)
    = Some (c, body ++ txt "]" ++ rest).
Proof.
  intros H1 H2. eexists.
  unfold Re.match_at, Cargo.members_open, members_literal.
  repeat rewrite <- app_assoc.
  rewrite run_seq, run_lit_app.
  apply run_class_then; [exact H1|reflexivity|].
  rewrite run_seq. change (txt "=") with ["="%char]. cbn [app].
  change ("="%char :: ws2 ++ txt "[" ++ body ++ txt "]" ++ rest)
    with (["="%char] ++ ws2 ++ txt "[" ++ body ++ txt "]" ++ rest).
  rewrite run_lit_app.
  change (txt "[") with ["["%char]. cbn [app].
  apply run_class_then; [exact H2|reflexivity|].
  change ("["%char :: body ++ txt "]" ++ rest)
    with (["["%char] ++ body ++ txt "]" ++ rest).
  rewrite run_lit_app. reflexivity.
Qed.

Lemma manifest_with_cons (render : text -> text -> text -> text)
  (before ws1 ws2 body after : text) lists :
  manifest_with render before ((ws1, ws2, body, after) :: lists) =
  before ++ render ws1 ws2 body ++ manifest_with render after lists.
Proof.
  unfold manifest_with. cbn [flat_map]. now rewrite <- !app_assoc.
Qed.

Lemma list_ok_inv (ws1 ws2 body after : text) :
  list_ok (ws1, ws2, body, after) = true ->
  forallb is_space ws1 = true /\ forallb is_space ws2 = true /\
  contains (txt "]") body = false /\
  contains (txt "members") after = false.
Proof.
  unfold list_ok. intro H.
  apply andb_true_iff in H as [H H4]. apply andb_true_iff in H as [H H3].
  apply andb_true_iff in H as [H1 H2].
  apply negb_true_iff in H3, H4. auto.
Qed.

Lemma members_literal_nonempty (ws1 ws2 body : text) :
  members_literal ws1 ws2 body <> [].
Proof. discriminate. Qed.

Lemma sub_lists (block : text) lists :
  forallb list_ok lists = true ->
  forall before,
    contains (txt "members") before = false ->
    Re.sub Cargo.members_block_pattern (fun _ => block)
      (manifest_with members_literal before lists) =
    manifest_with (fun _ _ _ => block) before lists.
Proof.
  induction lists as [|[[[ws1 ws2] body] after] lists IH];
    intros Hok before Hb.
  - unfold manifest_with. cbn [flat_map]. rewrite app_nil_r.
    apply sub_none. intros t Ht. apply match_lit_none.
    eapply contains_false_suffix; eauto.
  - cbn [forallb] in Hok. apply andb_true_iff in Hok as [Hi Hok].
    apply list_ok_inv in Hi as (H1 & H2 & H3 & H4).
    rewrite !manifest_with_cons.
    destruct (@members_block_match ws1 ws2 body
                (manifest_with members_literal after lists) H1 H2 H3)
      as [c Hc].
    unfold Re.sub.
    rewrite scan_nomatch
      by (intros u1 u2 E N;
          apply (@before_list_no_match _ before u1 u2 _ _ _ _ Hb E N)).
    rewrite flat_map_app, (flat_map_chars unit).
    rewrite (@scan_match _ _ _ c (@members_literal_nonempty ws1 ws2 body) Hc).
    cbn [flat_map]. do 2 f_equal. apply (IH Hok after H4).
Qed.

(** X9. Where the text left by the removal of the conflicts has members
    lists, every one of them is replaced by the merged block, not only
    the list of the workspace: the text between the lists is kept as it
    is. *)
Theorem every_members_list_replaced :
  forall (ms : list text) (before : text) lists,
    forallb no_backslash ms = true ->
    contains (txt "members") before = false ->
    lists <> [] -> forallb list_ok lists = true ->
    Cargo.place_members ms (manifest_with members_literal before lists) =
    Some (manifest_with (fun _ _ _ => Cargo.new_members_block ms)
            before lists).
Proof.
  intros ms before lists Hbs Hb Hne Hok. unfold Cargo.place_members.
  destruct lists as [|[[[ws1 ws2] body] after] lists]; [congruence|].
  pose proof Hok as Hok'. cbn [forallb] in Hok'.
  apply andb_true_iff in Hok' as [Hi _].
  apply list_ok_inv in Hi as (H1 & H2 & _ & _).
  rewrite manifest_with_cons at 1.
  destruct (@members_open_match ws1 ws2 body
              (manifest_with members_literal after lists) H1 H2) as [c Hc].
  rewrite (@search_first Cargo.members_open before _ c _
             (fun u1 u2 E N =>
                @before_list_no_match _ before u1 u2 _ _ _ _ Hb E N) Hc).
  rewrite sub_template_literal
    by (now apply new_members_block_no_backslash).
  f_equal. now apply sub_lists.
Qed.

Lemma every_members_list_replaced_witness :
  Cargo.place_members [txt "a"]
    (manifest_with members_literal (txt "[workspace]" ++ [nl])
       [(txt " ", txt " ", Cargo.quote (txt "x"), nl :: txt "[other]" ++ [nl]);
        (txt " ", txt " ", Cargo.quote (txt "z"), [nl])]) =
  Some (manifest_with (fun _ _ _ => Cargo.new_members_block [txt "a"])
          (txt "[workspace]" ++ [nl])
          [(txt " ", txt " ", Cargo.quote (txt "x"),
            nl :: txt "[other]" ++ [nl]);
           (txt " ", txt " ", Cargo.quote (txt "z"), [nl])]).
Proof.
  apply every_members_list_replaced; try (vm_compute; reflexivity).
  discriminate.
Defined.

(** ** Declarations as they are usually written *)

Lemma word_not_space (c : ascii) : is_word c = true -> is_space c = false.
Proof.
  destruct c as [[] [] [] [] [] [] [] []]; intro H; try reflexivity;
    vm_compute in H; discriminate H.
Qed.

Lemma word_not_nl (c : ascii) : is_word c = true -> not_nl c = true.
Proof.
  destruct c as [[] [] [] [] [] [] [] []]; intro H; try reflexivity;
    vm_compute in H; discriminate H.
Qed.

Lemma run_class1_then (A : Type) (cls : ascii -> bool) (r : Re.re)
  (ws : text) (a : ascii) (s : text) (c : Re.caps)
  (k : text -> Re.caps -> option A) x :
  ws <> [] -> forallb cls ws = true -> cls a = false ->
  Re.run r (a :: s) c k = Some x ->
  Re.run (Re.Rep true 1 cls ;; r)%re (ws ++ a :: s) c k = Some x.
Proof.
  intros Hn Hw Ha Hr. destruct ws as [|w ws]; [congruence|].
  cbn [forallb] in Hw. apply andb_true_iff in Hw as [Hw1 Hw].
  rewrite run_seq, run_rep. unfold Re.rep.
  cbn [Re.exactly app]. rewrite Hw1. apply greedy0_app; [exact Hw|].
  now rewrite greedy0_stop.
Qed.

Lemma pub_mod_shape (name rest : text) :
  pub_mod name ++ rest =
  txt "pub" ++ [" "%char] ++ ("m"%char :: txt "od" ++ [" "%char] ++
                              name ++ ";"%char :: rest).
Proof.
  unfold pub_mod. cbn [txt list_ascii_of_string app].
  now rewrite <- app_assoc.
Qed.

Lemma declaration_run (A : Type) (name rest : text) (c : Re.caps)
  (k : text -> Re.caps -> option A) x :
  name <> [] -> forallb is_word name = true ->
  k rest c = Some x ->
  Re.run LibRs.declaration (pub_mod name ++ rest) c k = Some x.
Proof.
  intros Hn Hw Hk. rewrite pub_mod_shape. unfold LibRs.declaration.
  rewrite run_seq, run_lit_app, run_seq, run_opt.
  rewrite run_seq, run_lit_fail by reflexivity.
  apply run_class1_then; [discriminate|reflexivity|reflexivity|].
  change ("m"%char :: txt "od" ++ [" "%char] ++ name ++ ";"%char :: rest)
    with (txt "mod" ++ [" "%char] ++ name ++ ";"%char :: rest).
  rewrite run_seq, run_lit_app.
  destruct name as [|a name]; [congruence|].
  pose proof Hw as Hw'. cbn [forallb] in Hw'.
  apply andb_true_iff in Hw' as [Ha _].
  cbn [app].
  change (" "%char :: a :: name ++ ";"%char :: rest)
    with ([" "%char] ++ a :: name ++ ";"%char :: rest).
  apply run_class1_then;
    [discriminate|reflexivity|now apply word_not_space|].
  change (a :: name ++ ";"%char :: rest)
    with ((a :: name) ++ ";"%char :: rest).
  apply run_class1_then; [discriminate|exact Hw|reflexivity|].
  apply (@run_class_then A is_space (Re.Lit (txt ";")) [] ";"%char rest c k x);
    [reflexivity|reflexivity|].
  change (";"%char :: rest) with (txt ";" ++ rest).
  now rewrite run_lit_app.
Qed.

Lemma pub_mod_match (name rest : text) :
  name <> [] -> forallb is_word name = true ->
  Re.match_at LibRs.pub_mod_pattern (pub_mod name ++ rest) =
  Some ([(0, pub_mod name); (1, pub_mod name)], rest).
Proof.
  intros Hn Hw. unfold Re.match_at, LibRs.pub_mod_pattern. rewrite run_grp.
  apply declaration_run; [exact Hn|exact Hw|].
  now rewrite !firstn_consumed.
Qed.

Lemma strip_pub_mod (name : text) : strip (pub_mod name) = pub_mod name.
Proof.
  unfold strip. change (lstrip (pub_mod name)) with (pub_mod name).
  unfold pub_mod at 1. rewrite !rev_app_distr.
  change (rev (txt ";")) with (txt ";").
  change (lstrip ((txt ";" ++ rev name) ++ rev (txt "pub mod ")))
    with ((txt ";" ++ rev name) ++ rev (txt "pub mod ")).
  rewrite !rev_app_distr, !rev_involutive. reflexivity.
Qed.

Lemma pub_mod_line_ok (name : text) :
  forallb is_word name = true -> forallb not_nl (pub_mod name) = true.
Proof.
  intro H. unfold pub_mod. rewrite !forallb_app.
  replace (forallb not_nl name) with true; [reflexivity|].
  symmetry. apply forallb_forall. intros c Hc. apply word_not_nl.
  rewrite forallb_forall in H. auto.
Qed.

Lemma mod_name_match (name rest : text) :
  name <> [] -> forallb is_word name = true ->
  exists c,
    Re.match_at LibRs.mod_name_pattern
      (txt "mod " ++ name ++ ";"%char :: rest) = Some (c, ";"%char :: rest) /\
    Re.group c 1 = name.
Proof.
  intros Hn Hw. destruct name as [|a name]; [congruence|].
  pose proof Hw as Hw'. cbn [forallb] in Hw'.
  apply andb_true_iff in Hw' as [Ha Hw''].
  eexists. split.
  - unfold Re.match_at, LibRs.mod_name_pattern.
    change (txt "mod " ++ (a :: name) ++ ";"%char :: rest)
      with (txt "mod" ++ [" "%char] ++ a :: name ++ ";"%char :: rest).
    rewrite run_seq, run_lit_app.
    apply run_class1_then;
      [discriminate|reflexivity|now apply word_not_space|].
    rewrite run_grp, run_rep. unfold Re.rep. cbn [Re.exactly]. rewrite Ha.
    apply greedy0_app; [exact Hw''|].
    rewrite greedy0_stop by reflexivity. reflexivity.
  - cbn [Re.group Re.lookup Nat.eqb].
    change (a :: name ++ ";"%char :: rest)
      with ((a :: name) ++ ";"%char :: rest).
    apply firstn_consumed.
Qed.

(** X10. A line [pub mod name;] whose name is made of word characters is
    a declaration; the key it is sorted by is the name; and a side of a
    conflict made of this line gives this line as its entry. *)
Theorem plain_declaration_recognised :
  forall name : text,
    name <> [] -> forallb is_word name = true ->
    LibRs.is_declaration (pub_mod name) = true /\
    LibRs.extract_mod_name (pub_mod name) = name /\
    LibRs.extract_pub_mods (pub_mod name ++ [nl]) = [pub_mod name].
Proof.
  intros name Hn Hw. split; [|split].
  - unfold LibRs.is_declaration, Re.match_at.
    rewrite <- (app_nil_r (pub_mod name)).
    erewrite declaration_run; [reflexivity| | |reflexivity]; assumption.
  - unfold LibRs.extract_mod_name.
    destruct (@mod_name_match name [] Hn Hw) as (c & Hc & Hg).
    change (pub_mod name) with (txt "pub " ++ txt "mod " ++ name ++ txt ";").
    rewrite (@search_first LibRs.mod_name_pattern (txt "pub ") _ c (txt ";"));
      [exact Hg| |exact Hc].
    intros u1 u2 E N. apply match_lit_none.
    destruct u1 as [|? [|? [|? [|? u1]]]]; cbn [app] in E;
      try (injection E as <- <- <- <- E); try (injection E as <- <- <- E);
      try (injection E as <- <- E); try (injection E as <- E);
      subst; try reflexivity.
    symmetry in E. apply app_eq_nil in E as [_ E]. congruence.
  - unfold LibRs.extract_pub_mods.
    rewrite split_nl_app_nl, split_nl_line by now apply pub_mod_line_ok.
    pose proof (@pub_mod_match name [] Hn Hw) as E.
    rewrite app_nil_r in E.
    cbn [split_nl app fold_left]. rewrite strip_pub_mod, E.
    reflexivity.
Qed.

Lemma plain_declaration_recognised_witness :
  LibRs.extract_mod_name (pub_mod (txt "alpha")) = txt "alpha".
Proof.
  apply (plain_declaration_recognised (name := txt "alpha")).
  - discriminate.
  - vm_compute. reflexivity.
Defined.

(** ** The place of the declarations when no place was marked *)

Lemma after_uses_spec (lines : list text) :
  forall idx ins, ins <= idx ->
    let k := LibRs.after_uses idx ins lines in
    ins <= k /\ k <= idx + length lines /\
    (k = ins \/
     idx < k /\
     startswith (txt "use ") (strip (nth (k - idx - 1) lines [])) = true) /\
    forallb skippable (firstn (k - idx) lines) = true.
Proof.
  induction lines as [|line rest IH]; intros idx ins Hi; cbn zeta.
  - cbn [LibRs.after_uses length].
    split; [lia|split; [lia|split; [now left|]]].
    now rewrite firstn_nil.
  - cbn [LibRs.after_uses length].
    destruct (startswith (txt "use ") (strip line)) eqn:Eu.
    + destruct (IH (S idx) (S idx) (le_n _)) as (I1 & I2 & I3 & I4).
      cbn zeta in *. set (k := LibRs.after_uses (S idx) (S idx) rest) in *.
      split; [lia|split; [lia|split]].
      * right. split; [lia|].
        destruct I3 as [E|[L U]].
        -- replace (k - idx - 1) with 0 by lia. exact Eu.
        -- replace (k - idx - 1) with (S (k - S idx - 1)) by lia. exact U.
      * replace (k - idx) with (S (k - S idx)) by lia.
        cbn [firstn forallb]. rewrite I4. unfold skippable. now rewrite Eu.
    + destruct (negb (length (strip line) =? 0) &&
                negb (startswith (txt "//") (strip line)) &&
                negb (startswith (txt "#") (strip line))) eqn:Ec.
      * split; [lia|split; [lia|split; [now left|]]].
        replace (ins - idx) with 0 by lia. reflexivity.
      * destruct (IH (S idx) ins (le_S _ _ Hi)) as (I1 & I2 & I3 & I4).
        cbn zeta in *. set (k := LibRs.after_uses (S idx) ins rest) in *.
        split; [lia|split; [lia|split]].
        -- destruct I3 as [E|[L U]]; [now left|right].
           split; [lia|].
           replace (k - idx - 1) with (S (k - S idx - 1)) by lia. exact U.
        -- destruct (Nat.le_gt_cases k idx) as [L|L].
           ++ replace (k - idx) with 0 by lia. reflexivity.
           ++ replace (k - idx) with (S (k - S idx)) by lia.
              cbn [firstn forallb]. rewrite I4, andb_true_r.
              unfold skippable. rewrite Eu. cbn [orb].
              destruct (length (strip line) =? 0); [reflexivity|].
              destruct (startswith (txt "//") (strip line)); [reflexivity|].
              destruct (startswith (txt "#") (strip line)); [reflexivity|].
              discriminate Ec.
Qed.

(** X11. When the loop marked no place for the declarations (no conflict
    was closed and no declaration stood outside), they are put in after
    the last [use] line of the leading lines that are [use] lines, blank
    lines, comments or attributes, and at the top when there is no such
    [use] line. *)
Theorem declarations_after_uses :
  forall (set_order : list text -> list text) (st : LibRs.scan_state),
    LibRs.pub_mods_insertion_point st = None ->
    let R := LibRs.resolved_lines st in
    let k := LibRs.after_uses 0 0 R in
    LibRs.merged_lines set_order st =
      firstn k R ++ LibRs.sorted_mods set_order st ++ skipn k R /\
    k <= length R /\
    (k = 0 \/ startswith (txt "use ") (strip (nth (k - 1) R [])) = true) /\
    forallb skippable (firstn k R) = true.
Proof.
  intros set_order st Hp. cbn zeta.
  destruct (@after_uses_spec (LibRs.resolved_lines st) 0 0 (le_n _))
    as (_ & I2 & I3 & I4).
  cbn zeta in *. rewrite Nat.sub_0_r in *.
  split; [|split; [|split]].
  - unfold LibRs.merged_lines. rewrite Hp.
    destruct (LibRs.sorted_mods set_order st) eqn:E.
    + cbn [app]. now rewrite firstn_skipn.
    + apply insert_all_at.
  - exact I2.
  - destruct I3 as [E|[_ U]]; [now left|now right].
  - exact I4.
Qed.

Lemma declarations_after_uses_witness :
  LibRs.merged_lines Example.insertion_order
    (LibRs.scan_lines (split_nl Example.unterminated)) =
  [txt "use std::fmt;"; txt "pub mod b;"].
Proof.
  pose proof (@declarations_after_uses Example.insertion_order
                (LibRs.scan_lines (split_nl Example.unterminated))
                eq_refl) as H.
  cbn zeta in H. destruct H as [H _]. rewrite H. vm_compute. reflexivity.
Defined.

(** ** A backslash before a letter that is no escape *)

Lemma template_escape_bad (groups : nat) (c : ascii) (s : text) :
  bad_escape c = true -> Re.template_escape groups (c :: s) = None.
Proof.
  destruct c as [[] [] [] [] [] [] [] []]; intro H;
    try (vm_compute in H; discriminate H); reflexivity.
Qed.

Lemma parse_template_bad (groups : nat) (t1 : text) (c : ascii) (t2 : text) :
  no_backslash t1 = true -> bad_escape c = true ->
  forall n, length (t1 ++ bs :: c :: t2) <= n ->
    Re.parse_template n groups (t1 ++ bs :: c :: t2) = None.
Proof.
  intros H1 Hc. induction t1 as [|a t1 IH]; intros n Hn.
  - destruct n as [|n]; [cbn in Hn; lia|].
    cbn [app]. rewrite parse_template_S, Ascii.eqb_refl.
    now rewrite template_escape_bad.
  - destruct n as [|n]; [cbn in Hn; lia|].
    cbn [no_backslash forallb] in H1. apply andb_true_iff in H1 as [Ha H1].
    apply negb_true_iff in Ha.
    cbn [app]. rewrite parse_template_S, Ha.
    rewrite IH; [reflexivity|exact H1|cbn in Hn; lia].
Qed.

Lemma sub_template_bad (groups : nat) (r : Re.re) (t1 : text) (c : ascii)
  (t2 s : text) :
  no_backslash t1 = true -> bad_escape c = true ->
  Re.sub_template groups r (t1 ++ bs :: c :: t2) s = None.
Proof.
  intros H1 Hc. unfold Re.sub_template.
  now rewrite parse_template_bad.
Qed.

Lemma sub_template_workspace_bad (r : Re.re) (t1 : text) (c : ascii)
  (t2 s : text) :
  no_backslash t1 = true -> bad_escape c = true ->
  Re.sub_template 1 r (bs :: txt "1" ++ nl :: t1 ++ bs :: c :: t2) s = None.
Proof.
  intros H1 Hc. unfold Re.sub_template.
  change (length (bs :: txt "1" ++ nl :: t1 ++ bs :: c :: t2))
    with (S (S (S (length (t1 ++ bs :: c :: t2))))).
  change (bs :: txt "1" ++ nl :: t1 ++ bs :: c :: t2)
    with (bs :: "1"%char :: nl :: t1 ++ bs :: c :: t2).
  rewrite parse_template_S, Ascii.eqb_refl.
  change (Re.template_escape 1 ("1"%char :: nl :: t1 ++ bs :: c :: t2))
    with (Some (Re.Ref 1, nl :: t1 ++ bs :: c :: t2)).
  cbv iota beta.
  change (nl :: t1 ++ bs :: c :: t2) with ((nl :: t1) ++ bs :: c :: t2).
  rewrite parse_template_bad; [reflexivity| |exact Hc|cbn [length app]; lia].
  cbn [no_backslash forallb]. exact H1.
Qed.

(** X12. When the merged block has a backslash before a letter that is
    no escape of a replacement template, and the text has a members list
    or the workspace header, the manifest tool fails: nothing is
    written, the error line goes to stderr and the exit code is 1. *)
Theorem bad_escape_fails :
  forall (content t1 : text) (c : ascii) (t2 : text),
    contains (txt "<<<<<<< ") content = true ->
    Cargo.new_members_block (sorted (Cargo.all_members content)) =
      t1 ++ bs :: c :: t2 ->
    no_backslash t1 = true -> bad_escape c = true ->
    has_place (Cargo.remove_conflicts content) = true ->
    result (Cargo.main (Some content)) = Raises /\
    written (Cargo.main (Some content)) = None /\
    In Failure (stderr (Cargo.main (Some content))) /\
    exit_code (Cargo.main (Some content)) = 1.
Proof.
  intros content t1 c t2 Hm Hb H1 Hc Hp.
  assert (Hn : sorted (Cargo.all_members content) <> []).
  { intro E. rewrite E in Hb. cbn [Cargo.new_members_block] in Hb.
    assert (F : no_backslash (t1 ++ bs :: c :: t2) = true)
      by (rewrite <- Hb; reflexivity).
    rewrite no_backslash_app in F. apply andb_true_iff in F as [_ F].
    cbn in F. discriminate F. }
  assert (Hpl : Cargo.place_members (sorted (Cargo.all_members content))
                  (Cargo.remove_conflicts content) = None).
  { unfold Cargo.place_members. rewrite Hb. unfold has_place in Hp.
    destruct (Re.search Cargo.members_open (Cargo.remove_conflicts content));
      cbn [is_some] in Hp.
    - now apply sub_template_bad.
    - rewrite Hp.
      destruct (sorted (Cargo.all_members content)); [congruence|].
      cbn [length Nat.eqb negb andb].
      now apply sub_template_workspace_bad. }
  unfold Cargo.main, exit_code, Cargo.resolve_cargo_conflict.
  rewrite Hm, Hpl. cbn. repeat split; try reflexivity.
  apply in_or_app. right. now left.
Qed.

Lemma bad_escape_fails_witness :
  exit_code (Cargo.main (Some Example.bad_escape_doc)) = 1.
Proof.
  apply (@bad_escape_fails Example.bad_escape_doc
           (txt "members = [" ++ nl :: txt "    " ++ Cargo.quote (txt "b") ++
            txt "," ++ nl :: txt "    " ++ dq :: txt "crates")
           "c"%char (txt "ore" ++ dq :: txt "," ++ nl :: txt "]"));
    vm_compute; reflexivity.
Defined.

(** ** The insertion after the workspace header *)

Lemma header_unbordered (u r : text) :
  u <> [] ->
  startswith (txt "[workspace]") (u ++ txt "[workspace]" ++ r) = true ->
  startswith (txt "[workspace]") u = true.
Proof.
  intros Hu H.
  apply startswith_app_cases in H as [H|(w1 & w2 & Hw & -> & Hn & Hs)];
    [exact H|].
  destruct w1 as [|a1 w1]; [congruence|]. exfalso.
  cbn [txt list_ascii_of_string app] in Hw, Hs.
  injection Hw as <- Hw.
  do 10 (destruct w1 as [|? w1];
         [cbn [app] in Hw; subst w2; cbv in Hs; discriminate Hs|];
         cbn [app] in Hw; injection Hw as <- Hw).
  symmetry in Hw. apply app_eq_nil in Hw as [_ Hw]. congruence.
Qed.

Lemma header_match (v : text) :
  Re.match_at Cargo.workspace_pattern (txt "[workspace]" ++ v) =
  Some ([(0, txt "[workspace]"); (1, txt "[workspace]")], v).
Proof.
  unfold Re.match_at, Cargo.workspace_pattern.
  rewrite run_grp, run_lit_app. now rewrite !firstn_consumed.
Qed.

Lemma header_no_match (t : text) :
  startswith (txt "[workspace]") t = false ->
  Re.match_at Cargo.workspace_pattern t = None.
Proof.
  intro H. unfold Re.match_at, Cargo.workspace_pattern.
  rewrite run_grp. now apply run_lit_fail.
Qed.

Lemma with_headers_cons (insert before after : text) afters :
  with_headers insert before (after :: afters) =
  before ++ txt "[workspace]" ++ insert ++ with_headers insert after afters.
Proof.
  unfold with_headers. cbn [flat_map]. now rewrite <- !app_assoc.
Qed.

Lemma sub_headers (insert : text) afters :
  forallb (fun a => negb (contains (txt "[workspace]") a)) afters = true ->
  forall before,
    contains (txt "[workspace]") before = false ->
    Re.sub Cargo.workspace_pattern (fun c => Re.group c 1 ++ insert)
      (with_headers [] before afters) =
    with_headers insert before afters.
Proof.
  induction afters as [|after afters IH]; intros Hok before Hb.
  - unfold with_headers. cbn [flat_map]. rewrite app_nil_r.
    apply sub_none. intros t Ht. apply header_no_match.
    eapply contains_false_suffix; eauto.
  - cbn [forallb] in Hok. apply andb_true_iff in Hok as [Ha Hok].
    apply negb_true_iff in Ha.
    rewrite !with_headers_cons. cbn [app].
    unfold Re.sub.
    rewrite scan_nomatch.
    + rewrite flat_map_app, (flat_map_chars unit).
      rewrite (@scan_match Cargo.workspace_pattern (txt "[workspace]") _ _
                 ltac:(discriminate) (header_match _)).
      cbn [flat_map]. f_equal.
      change (Re.group [(0, txt "[workspace]"); (1, txt "[workspace]")] 1)
        with (txt "[workspace]").
      rewrite <- !app_assoc. do 2 f_equal. apply (IH Hok after Ha).
    + intros u1 u2 E N. apply header_no_match.
      destruct (startswith (txt "[workspace]")
                  (u2 ++ txt "[workspace]" ++ with_headers [] after afters))
        eqn:Es; [|reflexivity].
      apply header_unbordered in Es; [|exact N].
      rewrite (@contains_false_suffix (txt "[workspace]") before u2 Hb) in Es;
        [discriminate|]. now exists u1.
Qed.

(** X13. Where the text left by the removal of the conflicts has no
    members list, the merged block is put on a line of its own after
    every occurrence of the workspace header, and the text around the
    headers is kept as it is. *)
Theorem block_after_every_header :
  forall (ms : list text) (before : text) (afters : list text),
    ms <> [] -> forallb no_backslash ms = true ->
    afters <> [] ->
    contains (txt "members") (with_headers [] before afters) = false ->
    contains (txt "[workspace]") before = false ->
    forallb (fun a => negb (contains (txt "[workspace]") a)) afters = true ->
    Cargo.place_members ms (with_headers [] before afters) =
    Some (with_headers (nl :: Cargo.new_members_block ms) before afters).
Proof.
  intros ms before afters Hn Hbs Ha Hm Hb Hok. unfold Cargo.place_members.
  rewrite (search_members_open_none _ Hm).
  assert (Hw : contains (txt "[workspace]") (with_headers [] before afters)
               = true).
  { destruct afters as [|after afters]; [congruence|].
    rewrite with_headers_cons. apply contains_intro. }
  rewrite Hw. destruct ms as [|m ms]; [congruence|].
  cbn [length Nat.eqb negb andb].
  rewrite sub_template_workspace
    by (now apply new_members_block_no_backslash).
  f_equal. now apply sub_headers.
Qed.

Lemma block_after_every_header_witness :
  Cargo.place_members [txt "a"]
    (with_headers [] (txt "# x" ++ [nl]) [nl :: txt "# see "; [nl]]) =
  Some (with_headers (nl :: Cargo.new_members_block [txt "a"])
          (txt "# x" ++ [nl]) [nl :: txt "# see "; [nl]]).
Proof.
  apply block_after_every_header; try (vm_compute; reflexivity);
    discriminate.
Defined.

(** ** A conflict with a members list on both sides *)

(** The members part of a side matches up to the point where the rest of
    the pattern goes on: before the list the word does not occur, and
    after the list the rest of the pattern fails until [rest]. *)
Lemma members_side_match (A : Type) (r : Re.re)
  (a ws1 ws2 b c rest : text) (caps : Re.caps)
  (k : text -> Re.caps -> option A) x :
  contains (txt "members") a = false ->
  forallb is_space ws1 = true -> forallb is_space ws2 = true ->
  contains (txt "]") b = false ->
  (forall u1 u2, c = u1 ++ u2 -> u2 <> [] ->
                 Re.run r (u2 ++ rest) caps k = None) ->
  Re.run r rest caps k = Some x ->
  Re.run (Cargo.members_side ;; r)%re
    (a ++ members_literal ws1 ws2 b ++ c ++ rest) caps k = Some x.
Proof.
  intros Ha H1 H2 Hb Hc Hr.
  rewrite run_seq. unfold Cargo.members_side. rewrite run_opt.
  unfold members_literal. repeat rewrite <- app_assoc.
  erewrite run_lazy; [reflexivity| |].
  { intros u1 u2 E N.
    destruct (startswith (txt "members")
                (u2 ++ txt "members" ++ ws1 ++ txt "=" ++ ws2 ++ txt "[" ++
                 b ++ txt "]" ++ c ++ rest)) eqn:Es; [|reflexivity].
    apply members_unbordered in Es; [|exact N].
    rewrite (@contains_false_suffix (txt "members") a u2 Ha) in Es;
      [discriminate|]. now exists u1. }
  apply run_class_then; [exact H1|reflexivity|].
  rewrite run_seq. change (txt "=") with ["="%char]. cbn [app].
  change ("="%char :: ws2 ++ txt "[" ++ b ++ txt "]" ++ c ++ rest)
    with (["="%char] ++ ws2 ++ txt "[" ++ b ++ txt "]" ++ c ++ rest).
  rewrite run_lit_app.
  change (txt "[") with ["["%char]. cbn [app].
  apply run_class_then; [exact H2|reflexivity|].
  rewrite run_seq.
  change ("["%char :: b ++ txt "]" ++ c ++ rest)
    with (["["%char] ++ b ++ txt "]" ++ c ++ rest).
  rewrite run_lit_app.
  apply run_lazy.
  { intros u1 u2 E N. change (txt "]") with ["]"%char].
    rewrite startswith_char by exact N.
    eapply contains_false_suffix; [exact Hb|]. now exists u1. }
  rewrite run_rep. unfold Re.rep. cbn [Re.exactly].
  rewrite lazy0_skip by exact Hc.
  now apply lazy0_hit.
Qed.

Section MembersRegion.
Variables pre l1 a1 w1 w2 b1 c1 a2 w3 w4 b2 c2 l2 post : text.

Let ours : text := a1 ++ members_literal w1 w2 b1 ++ c1.
Let theirs : text := a2 ++ members_literal w3 w4 b2 ++ c2.
Let tail : text :=
  ours ++ Cargo.separator_line ++ theirs ++ Cargo.end_marker ++ l2 ++
  nl :: post.
Let doc : text := pre ++ Cargo.start_marker ++ l1 ++ nl :: tail.

Hypothesis pre_no_start : contains Cargo.start_marker pre = false.
Hypothesis pre_lines : ends_line pre = true.
Hypothesis l1_line : forallb not_nl l1 = true.
Hypothesis l2_line : forallb not_nl l2 = true.
Hypothesis ours_no_separator : contains Cargo.separator_line ours = false.
Hypothesis ours_no_end : contains Cargo.end_marker ours = false.
Hypothesis ours_lines : ends_line ours = true.
Hypothesis theirs_no_end : contains Cargo.end_marker theirs = false.
Hypothesis theirs_lines : ends_line theirs = true.
Hypothesis post_no_start : contains Cargo.start_marker post = false.
Hypothesis a1_no_members : contains (txt "members") a1 = false.
Hypothesis w1_space : forallb is_space w1 = true.
Hypothesis w2_space : forallb is_space w2 = true.
Hypothesis b1_open : contains (txt "]") b1 = false.
Hypothesis a2_no_members : contains (txt "members") a2 = false.
Hypothesis w3_space : forallb is_space w3 = true.
Hypothesis w4_space : forallb is_space w4 = true.
Hypothesis b2_open : contains (txt "]") b2 = false.

Lemma c1_to_separator (u1 u2 rest : text) :
  c1 = u1 ++ u2 -> u2 <> [] ->
  startswith Cargo.separator_line (u2 ++ Cargo.separator_line ++ rest)
  = false.
Proof.
  intros H Hn.
  destruct (startswith _ _) eqn:E; [|reflexivity]. exfalso.
  apply separator_unbordered in E as [E|E]; [congruence|].
  assert (startswith Cargo.separator_line u2 = false).
  { eapply contains_false_suffix; [exact ours_no_separator|].
    unfold ours. exists (a1 ++ members_literal w1 w2 b1 ++ u1).
    rewrite H. now rewrite <- !app_assoc. }
  congruence.
Qed.

Lemma c2_to_end (u1 u2 rest : text) :
  c2 = u1 ++ u2 -> u2 <> [] ->
  startswith Cargo.end_marker (u2 ++ rest) = false.
Proof.
  intros H Hn.
  apply (@no_straddle Cargo.end_marker theirs
           (a2 ++ members_literal w3 w4 b2 ++ u1) u2 rest);
    auto.
  unfold theirs. rewrite H. now rewrite <- !app_assoc.
Qed.

(** The pattern of the members conflicts matches the whole block. *)
Lemma members_conflict_at_region :
  exists c,
    Re.match_at Cargo.members_conflict_pattern
      (Cargo.start_marker ++ l1 ++ nl :: tail) = Some (c, post).
Proof.
  eexists.
  unfold Re.match_at, Cargo.members_conflict_pattern.
  rewrite run_seq, run_lit_app, (run_line _ _ _ _ _ l1_line).
  unfold tail, ours, theirs. repeat rewrite <- app_assoc.
  apply members_side_match; auto.
  { intros u1 u2 E N. rewrite run_seq. apply run_lit_fail.
    eapply c1_to_separator; eauto. }
  rewrite run_seq, run_lit_app.
  apply members_side_match; auto.
  { intros u1 u2 E N. rewrite run_seq. apply run_lit_fail.
    eapply c2_to_end; eauto. }
  rewrite run_seq, run_lit_app.
  apply run_line_end; [exact l2_line|reflexivity].
Qed.

Lemma block_text :
  exists m, m <> [] /\ Cargo.start_marker ++ l1 ++ nl :: tail = m ++ post.
Proof.
  exists (Cargo.start_marker ++ l1 ++ nl :: ours ++
          Cargo.separator_line ++ theirs ++ Cargo.end_marker ++
          l2 ++ [nl]).
  split; [discriminate|]. unfold tail.
  repeat rewrite <- app_assoc. cbn [app].
  repeat (rewrite <- app_assoc; cbn [app]). reflexivity.
Qed.

Lemma after_block (r : Re.re) (t : text) :
  Suffix t post ->
  Re.match_at (Re.Lit Cargo.start_marker ;; r)%re t = None.
Proof.
  intro H. apply match_lit_none. eapply contains_false_suffix; eauto.
Qed.

Lemma around_no_start : contains Cargo.start_marker (pre ++ post) = false.
Proof. apply contains_app_lines; auto. Qed.

(** The block goes with both of its sides: what remains is the text
    around it. *)
Lemma members_region_removed : Cargo.remove_conflicts doc = pre ++ post.
Proof.
  unfold Cargo.remove_conflicts, doc.
  destruct members_conflict_at_region as (c & Hc).
  destruct block_text as (m & Hm & Em). rewrite Em in *.
  rewrite (@sub_one Cargo.members_conflict_pattern (fun _ => [])
             pre m post c); [|idtac|exact Hm|exact Hc|].
  - cbn [app]. apply sub_none. intros t Ht. apply match_lit_none.
    eapply contains_false_suffix; [exact around_no_start|exact Ht].
  - intros u1 u2 Hu Hn. rewrite <- Em.
    apply (@before_region pre pre_no_start pre_lines _ u1 u2 _ Hu Hn).
  - intros t Ht. now apply after_block.
Qed.

Lemma side_members (a ws1 ws2 b c : text) :
  contains (txt "members") a = false ->
  forallb is_space ws1 = true -> forallb is_space ws2 = true ->
  contains (txt "]") b = false ->
  Cargo.extract_members_from_block (a ++ members_literal ws1 ws2 b ++ c)
  = quoted_strings b.
Proof.
  intros Ha H1 H2 Hb.
  destruct (@members_literal_match ws1 ws2 b c H1 H2 Hb) as (g & Hg & Hq).
  unfold Cargo.extract_members_from_block.
  rewrite (@search_first Cargo.members_pattern a _ g c).
  - now rewrite Hq.
  - intros u1 u2 E N.
    apply (@before_list_no_match _ a u1 u2 ws1 ws2 b c Ha E N).
  - exact Hg.
Qed.

(** The members collected are those of the two lists and of the text
    around the block. *)
Lemma members_region_members (e : text) :
  In e (Cargo.all_members doc) <->
  In e (quoted_strings b1) \/ In e (quoted_strings b2) \/
  In e (Cargo.extract_members_from_block (pre ++ post)).
Proof.
  unfold Cargo.all_members, doc.
  destruct (@conflict_at_region l1 ours theirs l2 post l1_line l2_line
              ours_no_separator ours_no_end ours_lines theirs_no_end
              theirs_lines) as (c & Hc & H1 & H2).
  fold tail in Hc.
  destruct block_text as (m & Hm & Em). rewrite Em in *.
  assert (Hb : forall u1 u2, pre = u1 ++ u2 -> u2 <> [] ->
               Re.match_at Cargo.conflict_pattern (u2 ++ m ++ post) = None).
  { intros u1 u2 Hu Hn. rewrite <- Em.
    apply (@before_region pre pre_no_start pre_lines _ u1 u2 _ Hu Hn). }
  assert (Ha : forall t, Suffix t post ->
               Re.match_at Cargo.conflict_pattern t = None).
  { intros t Ht. now apply after_block. }
  rewrite (@finditer_one Cargo.conflict_pattern pre m post c Hb Hm Hc Ha).
  rewrite (@sub_one Cargo.conflict_pattern (fun _ => []) pre m post c
             Hb Hm Hc Ha).
  cbn [fold_left app]. rewrite H1, H2. unfold ours, theirs.
  rewrite !side_members by assumption.
  rewrite !set_update_In. cbn [In]. tauto.
Qed.
End MembersRegion.

(** X14. A conflict block with a members list on each side is removed
    with both of its sides: no line of it is kept, the lines around the
    lists included. The members of the two lists are collected with
    those of the text around the block, and what is written is the text
    around the block with the merged block put in. *)
Theorem members_conflict_removed :
  forall pre label a1 w1 w2 b1 c1 a2 w3 w4 b2 c2 l2 post : text,
    let ours := a1 ++ members_literal w1 w2 b1 ++ c1 in
    let theirs := a2 ++ members_literal w3 w4 b2 ++ c2 in
    let doc :=
      pre ++ conflict_text (" "%char :: label) ours theirs l2 ++ post in
    contains Cargo.start_marker pre = false ->
    ends_line pre = true ->
    forallb not_nl label = true ->
    forallb not_nl l2 = true ->
    contains Cargo.separator_line ours = false ->
    contains Cargo.end_marker ours = false ->
    ends_line ours = true ->
    contains Cargo.end_marker theirs = false ->
    ends_line theirs = true ->
    contains Cargo.start_marker post = false ->
    contains (txt "members") a1 = false ->
    forallb is_space w1 = true -> forallb is_space w2 = true ->
    contains (txt "]") b1 = false ->
    contains (txt "members") a2 = false ->
    forallb is_space w3 = true -> forallb is_space w4 = true ->
    contains (txt "]") b2 = false ->
    Cargo.remove_conflicts doc = pre ++ post /\
    (forall e, In e (Cargo.all_members doc) <->
               In e (quoted_strings b1) \/ In e (quoted_strings b2) \/
               In e (Cargo.extract_members_from_block (pre ++ post))) /\
    written (Cargo.resolve_cargo_conflict (Some doc)) =
    match Cargo.place_members (sorted (Cargo.all_members doc)) (pre ++ post)
    with
    | Some resolved => Some (collapse_blank resolved)
    | None => None
    end.
Proof.
  intros pre label a1 w1 w2 b1 c1 a2 w3 w4 b2 c2 l2 post ours theirs doc
    P1 P2 L1 L2 O1 O2 O3 T1 T2 Q1 A1 W1 W2 B1 A2 W3 W4 B2.
  assert (Ed : doc = pre ++ Cargo.start_marker ++ (" "%char :: label) ++
                     nl :: ours ++ Cargo.separator_line ++ theirs ++
                     Cargo.end_marker ++ l2 ++ nl :: post).
  { unfold doc, conflict_text.
    repeat (rewrite <- app_assoc; cbn [app]). reflexivity. }
  assert (Hl : forallb not_nl (" "%char :: label) = true)
    by (cbn [forallb]; now rewrite L1).
  assert (Hr : Cargo.remove_conflicts doc = pre ++ post).
  { rewrite Ed. now apply members_region_removed. }
  split; [exact Hr|split].
  - intro e. rewrite Ed. now apply members_region_members.
  - rewrite cargo_runs.
    + rewrite Hr. now destruct (Cargo.place_members _ _).
    + rewrite Ed.
      change (Cargo.start_marker ++ (" "%char :: label) ++ ?x)
        with (txt "<<<<<<< " ++ label ++ x).
      apply contains_intro.
Qed.

Lemma members_conflict_removed_witness :
  Cargo.remove_conflicts
    ((txt "[workspace]" ++ [nl]) ++
     conflict_text (" "%char :: txt "HEAD")
       ([] ++ members_literal (txt " ") (txt " ") (Cargo.quote (txt "a")) ++
        [nl])
       ([] ++ members_literal (txt " ") (txt " ") (Cargo.quote (txt "b")) ++
        [nl])
       (txt " x") ++
     (txt "# end" ++ [nl])) =
  (txt "[workspace]" ++ [nl]) ++ (txt "# end" ++ [nl]).
Proof.
  refine (proj1 (@members_conflict_removed
                   (txt "[workspace]" ++ [nl]) (txt "HEAD")
                   [] (txt " ") (txt " ") (Cargo.quote (txt "a")) [nl]
                   [] (txt " ") (txt " ") (Cargo.quote (txt "b")) [nl]
                   (txt " x") (txt "# end" ++ [nl])
                   _ _ _ _ _ _ _ _ _ _ _ _ _ _ _ _ _ _));
    vm_compute; reflexivity.
Defined.

(** ** The sort key of the declarations *)

Section GreedySplit.
Variable A : Type.

Lemma greedy0_split (cls : ascii -> bool) (s : text) (k : text -> option A) x :
  Re.greedy0 cls s k = Some x ->
  exists u s', s = u ++ s' /\ forallb cls u = true /\ k s' = Some x.
Proof.
  induction s as [|c s IH]; cbn [Re.greedy0].
  - intro H. exists [], []. auto.
  - destruct (cls c) eqn:Ec.
    + destruct (Re.greedy0 cls s k) eqn:E.
      * intros [= <-]. destruct (IH eq_refl) as (u & s' & -> & Hu & Hk).
        exists (c :: u), s'. cbn [forallb app]. rewrite Ec, Hu. auto.
      * intro H. exists [], (c :: s). auto.
    + intro H. exists [], (c :: s). auto.
Qed.

Lemma greedy1_split (cls : ascii -> bool) (s : text) (k : text -> option A)
  x :
  Re.rep true 1 cls s k = Some x ->
  exists u s', s = u ++ s' /\ u <> [] /\ forallb cls u = true /\
               k s' = Some x.
Proof.
  unfold Re.rep. cbn [Re.exactly]. destruct s as [|c s]; [discriminate|].
  destruct (cls c) eqn:Ec; [|discriminate]. intro H.
  apply greedy0_split in H as (u & s' & -> & Hu & Hk).
  exists (c :: u), s'. cbn [forallb app]. rewrite Ec, Hu.
  repeat split; auto. discriminate.
Qed.

Lemma greedy0_some (cls : ascii -> bool) (s : text) (k : text -> option A) :
  (forall s', k s' <> None) -> Re.greedy0 cls s k <> None.
Proof.
  intro Hk. induction s as [|c s IH]; cbn [Re.greedy0]; [apply Hk|].
  destruct (cls c); [|apply Hk].
  destruct (Re.greedy0 cls s k); [discriminate|apply Hk].
Qed.
End GreedySplit.

Lemma search_exists (r : Re.re) (p t : text) :
  Re.match_at r t <> None -> Re.search r (p ++ t) <> None.
Proof.
  intro H. induction p as [|a p IH]; cbn [app].
  - destruct t as [|b t]; cbn [Re.search];
      destruct (Re.match_at r _) as [[c rest]|]; congruence.
  - cbn [Re.search]. destruct (Re.match_at r (a :: p ++ t)) as [[c rest]|];
      [discriminate|].
    destruct (Re.search r (p ++ t)) as [[[p' c'] rest']|];
      [discriminate|congruence].
Qed.

Lemma mod_name_found (e : text) :
  has_mod_name e -> Re.search LibRs.mod_name_pattern e <> None.
Proof.
  intros (pre & ws & name & tail & -> & Hn & Hs & Hm & Hw).
  apply search_exists.
  unfold Re.match_at, LibRs.mod_name_pattern.
  rewrite run_seq, run_lit_app.
  destruct name as [|a name]; [congruence|].
  cbn [forallb] in Hw. apply andb_true_iff in Hw as [Ha Hw].
  cbn [app].
  match goal with
  | |- Re.run _ _ _ ?k <> None =>
      destruct (Re.run (Re.Grp 1 (Re.Rep true 1 is_word))
                  (a :: name ++ tail) [] k) as [x|] eqn:E
  end.
  - erewrite run_class1_then; [discriminate|exact Hn|exact Hs| |exact E].
    now apply word_not_space.
  - exfalso. revert E. rewrite run_grp, run_rep. unfold Re.rep.
    cbn [Re.exactly]. rewrite Ha. apply greedy0_some. discriminate.
Qed.

Lemma mod_name_group (t : text) (c : Re.caps) (rest : text) :
  Re.match_at LibRs.mod_name_pattern t = Some (c, rest) ->
  Re.group c 1 <> [] /\ forallb is_word (Re.group c 1) = true.
Proof.
  unfold Re.match_at, LibRs.mod_name_pattern.
  rewrite run_seq, run_lit.
  destruct (strip_prefix (txt "mod") t) as [t1|]; [|discriminate].
  rewrite run_seq. intro H.
  apply run_suffix in H as (t2 & c2 & H & _).
  rewrite run_grp, run_rep in H.
  apply greedy1_split in H as (v & s' & -> & Hv & Hw & H).
  injection H as <- <-.
  cbn [Re.group Re.lookup Nat.eqb]. rewrite firstn_consumed. auto.
Qed.

Lemma declaration_has_mod_name (A : Type) (s : text) (c : Re.caps)
  (k : text -> Re.caps -> option A) x :
  Re.run LibRs.declaration s c k = Some x ->
  exists pre ws name post rest c',
    s = pre ++ txt "mod" ++ ws ++ name ++ post ++ rest /\
    ws <> [] /\ forallb is_space ws = true /\
    name <> [] /\ forallb is_word name = true /\
    k rest c' = Some x.
Proof.
  unfold LibRs.declaration. rewrite run_seq, run_lit.
  destruct (strip_prefix (txt "pub") s) as [s1|] eqn:E1; [|discriminate].
  apply strip_prefix_Some in E1. subst s.
  rewrite run_seq. intro H.
  apply run_suffix in H as (s2 & c2 & H & [o ->]).
  rewrite run_seq in H.
  apply run_suffix in H as (s3 & c3 & H & [ws1 ->]).
  rewrite run_seq, run_lit in H.
  destruct (strip_prefix (txt "mod") s3) as [s4|] eqn:E3; [|discriminate].
  apply strip_prefix_Some in E3. subst s3.
  rewrite run_seq, run_rep in H.
  apply greedy1_split in H as (ws & s5 & -> & Hn & Hs & H).
  rewrite run_seq, run_rep in H.
  apply greedy1_split in H as (name & s6 & -> & Hm & Hw & H).
  apply run_suffix in H as (rest & c' & H & [post ->]).
  exists (txt "pub" ++ o ++ ws1), ws, name, post, rest, c'.
  repeat split; auto. now rewrite <- !app_assoc.
Qed.

Lemma is_declaration_has_mod_name (s : text) :
  LibRs.is_declaration s = true -> has_mod_name s.
Proof.
  unfold LibRs.is_declaration, Re.match_at.
  destruct (Re.run LibRs.declaration s [] _) eqn:E; [|discriminate].
  intros _.
  apply declaration_has_mod_name
    in E as (pre & ws & name & post & rest & c' & -> & Hn & Hs & Hm & Hw & _).
  exists pre, ws, name, (post ++ rest). auto.
Qed.

Lemma extract_pub_mods_has_mod_name (block e : text) :
  In e (LibRs.extract_pub_mods block) -> has_mod_name e.
Proof.
  intro H.
  apply extract_pub_mods_inv in H as (line & c & rest & _ & Hm & ->).
  unfold Re.match_at, LibRs.pub_mod_pattern in Hm. rewrite run_grp in Hm.
  apply declaration_has_mod_name
    in Hm as (pre & ws & name & post & r & c' & E & Hn & Hs & Hn' & Hw & Hk).
  injection Hk as <- <-.
  cbn [Re.group Re.lookup Nat.eqb].
  exists pre, ws, name, post. repeat split; auto.
  rewrite E.
  replace (pre ++ txt "mod" ++ ws ++ name ++ post ++ r)
    with ((pre ++ txt "mod" ++ ws ++ name ++ post) ++ r)
    by (now rewrite <- !app_assoc).
  apply firstn_consumed.
Qed.

Lemma scan_entries (P : text -> Prop) (ls : list text) :
  (forall block e, In e (LibRs.extract_pub_mods block) -> P e) ->
  (forall s, LibRs.is_declaration s = true -> P s) ->
  forall st, Forall P (LibRs.all_pub_mods st) ->
    Forall P (LibRs.all_pub_mods (fold_left LibRs.step ls st)).
Proof.
  intros HE HD. induction ls as [|l ls IH]; intros st HM; [exact HM|].
  cbn [fold_left]. apply IH.
  assert (HU : Forall P (set_update (LibRs.all_pub_mods st)
                           (LibRs.extract_pub_mods (LibRs.conflict_section st)))).
  { rewrite Forall_forall in *. intros e He.
    apply set_update_In in He as [He|He]; [now apply HM|].
    eapply HE, He. }
  unfold LibRs.step.
  destruct (startswith LibRs.start_prefix l); [exact HM|].
  destruct (startswith LibRs.separator_prefix l); [exact HU|].
  destruct (startswith LibRs.end_prefix l); [exact HU|].
  destruct (LibRs.in_conflict st); [exact HM|].
  destruct (LibRs.is_declaration (strip l)) eqn:E; [|exact HM].
  cbn [LibRs.all_pub_mods]. rewrite Forall_forall in *. intros e He.
  apply set_add_In in He as [->|He]; [now apply HD|now apply HM].
Qed.

(** X15.  The sort key of every declaration the tool collects is found
    by the pattern for the name: it is a run of word characters, not
    empty, and the fall-back of [extract_mod_name] to the declaration
    itself is never taken for them. *)
Theorem sort_key_found :
  forall content e : text,
    In e (LibRs.all_pub_mods (LibRs.scan_lines (split_nl content))) ->
    exists p c rest,
      Re.search LibRs.mod_name_pattern e = Some (p, c, rest) /\
      LibRs.extract_mod_name e = Re.group c 1 /\
      Re.group c 1 <> [] /\ forallb is_word (Re.group c 1) = true.
Proof.
  intros content e He.
  assert (HM : has_mod_name e).
  { pose proof (@scan_entries has_mod_name (split_nl content)
                  extract_pub_mods_has_mod_name is_declaration_has_mod_name
                  LibRs.initial (Forall_nil _)) as H.
    rewrite Forall_forall in H. now apply H. }
  apply mod_name_found in HM.
  destruct (Re.search LibRs.mod_name_pattern e) as [[[p c] rest]|] eqn:E;
    [|congruence].
  exists p, c, rest. split; [reflexivity|].
  split; [unfold LibRs.extract_mod_name; now rewrite E|].
  apply search_inv in E as (s' & _ & Hm & _).
  eapply mod_name_group, Hm.
Qed.

Lemma sort_key_found_witness :
  exists p c rest,
    Re.search LibRs.mod_name_pattern (txt "pub mod alpha;") =
      Some (p, c, rest) /\
    LibRs.extract_mod_name (txt "pub mod alpha;") = Re.group c 1 /\
    Re.group c 1 <> [] /\ forallb is_word (Re.group c 1) = true.
Proof.
  apply (@sort_key_found Example.scenario_b (txt "pub mod alpha;")).
  vm_compute. auto.
Defined.

(** ** A second run of the declaration tool *)

Lemma contains_nil (s : text) : contains [] s = true.
Proof. destruct s; reflexivity. Qed.

Lemma contains_mid (w a t b : text) :
  contains w t = true -> contains w (a ++ t ++ b) = true.
Proof. intro H. apply contains_app_r. now apply contains_app_l. Qed.

Lemma lstrip_suffix (s : text) : exists a, s = a ++ lstrip s.
Proof.
  induction s as [|c s [a IH]]; [now exists []|].
  cbn [lstrip]. destruct (is_space c).
  - exists (c :: a). cbn [app]. now rewrite <- IH.
  - now exists [].
Qed.

Lemma strip_part (s : text) : exists a b, s = a ++ strip s ++ b.
Proof.
  unfold strip. destruct (lstrip_suffix s) as [a Ha].
  destruct (lstrip_suffix (rev (lstrip s))) as [b Hb].
  exists a, (rev b). rewrite <- rev_app_distr, <- Hb, rev_involutive.
  exact Ha.
Qed.

Lemma contains_strip (w s : text) :
  contains w s = false -> contains w (strip s) = false.
Proof.
  intro H. destruct (strip_part s) as (a & b & E).
  destruct (contains w (strip s)) eqn:C; [|reflexivity].
  rewrite E in H. now rewrite contains_mid in H.
Qed.

Lemma contains_firstn (w : text) (n : nat) (s : text) :
  contains w s = false -> contains w (firstn n s) = false.
Proof.
  intro H. rewrite <- (firstn_skipn n s) in H.
  now apply contains_false_app in H as [H _].
Qed.

Lemma split_nl_hd_app (w r : text) :
  forallb not_nl w = true ->
  hd [] (split_nl (w ++ r)) = w ++ hd [] (split_nl r).
Proof.
  induction w as [|c w IH]; [reflexivity|].
  cbn [forallb]. intro H. apply andb_true_iff in H as [Hc Hw].
  unfold not_nl in Hc. apply negb_true_iff in Hc.
  cbn [app]. rewrite split_nl_cons_char by exact Hc. cbn [hd].
  now rewrite IH.
Qed.

Lemma hd_In (s : text) : In (hd [] (split_nl s)) (split_nl s).
Proof.
  destruct (split_nl s) eqn:E; [now apply split_nl_nonempty in E|].
  now left.
Qed.

(** A word without newline that occurs in a text occurs in one of its
    lines. *)
Lemma contains_in_line (w s : text) :
  forallb not_nl w = true -> contains w s = true ->
  exists l, In l (split_nl s) /\ contains w l = true.
Proof.
  intro Hw. induction s as [|c s IH]; intro H.
  - exists []. split; [now left|exact H].
  - rewrite contains_cons in H. apply orb_true_iff in H as [H|H].
    + apply startswith_inv in H as [r Hr].
      exists (hd [] (split_nl (c :: s))). split; [apply hd_In|].
      rewrite Hr, split_nl_hd_app by exact Hw.
      apply (contains_intro w [] _).
    + destruct (IH H) as (l & Hl & Hc).
      destruct (is_nl c) eqn:E.
      * apply is_nl_true in E. subst c. rewrite split_nl_cons_nl.
        exists l. split; [now right|exact Hc].
      * rewrite split_nl_cons_char by exact E.
        destruct (split_nl s) as [|l0 ls] eqn:Es; [destruct Hl|].
        cbn [hd tl]. destruct Hl as [<-|Hl].
        -- exists (c :: l0). split; [now left|].
           rewrite contains_cons, Hc. apply orb_true_r.
        -- exists l. split; [now right|exact Hc].
Qed.

Lemma split_nl_side_text (ls : list text) :
  Forall line_ok ls -> split_nl (Doc.side_text ls) = ls ++ [[]].
Proof.
  induction ls as [|l ls IH]; intro H; [reflexivity|].
  inversion H as [|? ? Hl Hls]; subst.
  cbn [Doc.side_text flat_map]. rewrite <- app_assoc. cbn [app].
  rewrite split_nl_app_nl, split_nl_line by exact Hl.
  fold (Doc.side_text ls). now rewrite (IH Hls).
Qed.

Section SecondRun.
Let clean (l : text) : Prop := contains LibRs.start_prefix l = false.

Lemma extract_pub_mods_clean (ls : list text) (e : text) :
  Forall (fun l => line_ok l /\ clean l) ls ->
  In e (LibRs.extract_pub_mods (Doc.side_text ls)) -> clean e.
Proof.
  intros Hls He.
  apply extract_pub_mods_inv in He as (line & c & rest & Hin & Hm & ->).
  apply pub_mod_group in Hm as (n & -> & _).
  apply contains_firstn, contains_strip.
  rewrite split_nl_side_text in Hin
    by (eapply Forall_impl; [|exact Hls]; now intros a [H _]).
  apply in_app_iff in Hin as [Hin|[<-|[]]]; [|reflexivity].
  rewrite Forall_forall in Hls. now apply Hls.
Qed.

Lemma scan_keeps_clean (ls : list text) :
  Forall (fun l => line_ok l /\
                   (startswith LibRs.start_prefix l = false -> clean l))
    ls ->
  forall st,
    Forall clean (LibRs.resolved_lines st) ->
    Forall clean (LibRs.all_pub_mods st) ->
    (exists side, LibRs.conflict_section st = Doc.side_text side /\
                  Forall (fun l => line_ok l /\ clean l) side) ->
    let st' := fold_left LibRs.step ls st in
    Forall clean (LibRs.resolved_lines st') /\
    Forall clean (LibRs.all_pub_mods st').
Proof.
  induction ls as [|l ls IH]; intros Hls st HR HM HS; cbn zeta;
    [now split|].
  inversion Hls as [|? ? [Hl Hc] Hls']; subst. cbn [fold_left].
  destruct HS as (side & Es & Hside).
  assert (HU : Forall clean
                 (set_update (LibRs.all_pub_mods st)
                    (LibRs.extract_pub_mods (LibRs.conflict_section st)))).
  { rewrite Forall_forall in *. intros e He.
    apply set_update_In in He as [He|He]; [now apply HM|].
    rewrite Es in He. eapply extract_pub_mods_clean; [|exact He].
    now apply Forall_forall. }
  assert (HE : exists side0, [] = Doc.side_text side0 /\
                 Forall (fun l => line_ok l /\ clean l) side0)
    by (exists []; split; [reflexivity|constructor]).
  unfold LibRs.step.
  destruct (startswith LibRs.start_prefix l) eqn:E1;
    [now apply (IH Hls')|].
  specialize (Hc eq_refl).
  destruct (startswith LibRs.separator_prefix l) eqn:E2;
    [now apply (IH Hls')|].
  destruct (startswith LibRs.end_prefix l) eqn:E3;
    [now apply (IH Hls')|].
  destruct (LibRs.in_conflict st) eqn:E4.
  - apply (IH Hls'); cbn [LibRs.resolved_lines LibRs.all_pub_mods
                          LibRs.conflict_section]; auto.
    exists (side ++ [l]). split.
    + rewrite Es. unfold Doc.side_text. rewrite flat_map_app. cbn [flat_map].
      now rewrite app_nil_r.
    + apply Forall_app. split; [exact Hside|]. now repeat constructor.
  - destruct (LibRs.is_declaration (strip l)) eqn:E5.
    + apply (IH Hls'); cbn [LibRs.resolved_lines LibRs.all_pub_mods
                            LibRs.conflict_section]; eauto.
      rewrite Forall_forall in *. intros e He.
      apply set_add_In in He as [->|He]; [|now apply HM].
      now apply contains_strip.
    + apply (IH Hls'); cbn [LibRs.resolved_lines LibRs.all_pub_mods
                            LibRs.conflict_section]; eauto.
      apply Forall_app. split; [exact HR|]. now repeat constructor.
Qed.
End SecondRun.

Lemma ensure_newline_lines (t l : text) :
  In l (split_nl (LibRs.ensure_newline t)) -> l = [] \/ In l (split_nl t).
Proof.
  unfold LibRs.ensure_newline. destruct (endswith_nl t); [now right|].
  rewrite split_nl_app_nl. intro H.
  apply in_app_iff in H as [H|[<-|[]]]; [now right|now left].
Qed.

(** When the start marker with its space stands at the start of lines
    only, the text the declaration tool makes has none. *)
Lemma rewrite_free (set_order : list text -> list text) (content : text) :
  (forall l, Permutation (set_order l) l) ->
  (forall l, In l (split_nl content) ->
             startswith LibRs.start_prefix l = false ->
             contains LibRs.start_prefix l = false) ->
  contains LibRs.start_prefix (LibRs.rewrite set_order content) = false.
Proof.
  intros Hp Hc.
  destruct (contains LibRs.start_prefix (LibRs.rewrite set_order content))
    eqn:E; [|reflexivity]. exfalso.
  apply contains_in_line in E as (l & Hl & Hcl); [|reflexivity].
  assert (Hls : Forall (fun l => line_ok l /\
                  (startswith LibRs.start_prefix l = false ->
                   contains LibRs.start_prefix l = false))
                  (split_nl content)).
  { pose proof (split_nl_lines content) as H.
    rewrite Forall_forall in *. intros x Hx. split; [now apply H|auto]. }
  destruct (@scan_keeps_clean (split_nl content) Hls LibRs.initial
              (Forall_nil _) (Forall_nil _)) as [HR HM].
  { exists []. split; [reflexivity|constructor]. }
  cbn zeta in HR, HM. fold (LibRs.scan_lines (split_nl content)) in HR, HM.
  pose proof (@merged_lines_clean set_order Hp content) as HC.
  assert (HL : Forall line_ok
                 (LibRs.merged_lines set_order
                    (LibRs.scan_lines (split_nl content)))).
  { eapply Forall_impl; [|exact HC]. now intros a [H _]. }
  pose proof (rewrite_lines set_order content HL) as HN.
  destruct l as [|a l]; [discriminate Hcl|].
  assert (Hn : In (a :: l)
                 (nonblank_lines (LibRs.rewrite set_order content))).
  { unfold nonblank_lines. apply filter_In. now split. }
  rewrite HN in Hn. apply filter_In in Hn as [Hn _].
  destruct (merged_lines_at set_order
              (LibRs.scan_lines (split_nl content))) as [k Hk].
  rewrite Hk in Hn. rewrite Forall_forall in HR, HM.
  assert (Cl : contains LibRs.start_prefix (a :: l) = false).
  { apply in_app_iff in Hn as [Hn|Hn].
    - apply HR. rewrite <- (firstn_skipn k). apply in_or_app. now left.
    - apply in_app_iff in Hn as [Hn|Hn].
      + apply HM. now apply (@sorted_mods_In set_order Hp) in Hn.
      + apply HR. rewrite <- (firstn_skipn k). apply in_or_app. now right. }
  congruence.
Qed.

(** What the declaration tool writes, when it writes. *)
Lemma librs_written (set_order : list text -> list text) (content t : text) :
  written (LibRs.main set_order (Some content)) = Some t ->
  contains LibRs.start_prefix content = true /\
  t = LibRs.rewrite set_order content.
Proof.
  unfold LibRs.main, LibRs.resolve_librs_conflict.
  destruct (contains LibRs.start_prefix content); cbn; [|discriminate].
  intro H. split; [reflexivity|]. now injection H.
Qed.

(** X16.  When in the document the start marker with its space occurs
    only at the start of lines, the text the declaration tool writes
    has no start marker at all, and a second run on this text reports
    that there are no conflict markers and writes nothing. *)
Theorem second_run_writes_nothing :
  forall set_order : list text -> list text,
    (forall l, Permutation (set_order l) l) ->
    forall content t : text,
      (forall l, In l (split_nl content) ->
                 startswith LibRs.start_prefix l = false ->
                 contains LibRs.start_prefix l = false) ->
      written (LibRs.main set_order (Some content)) = Some t ->
      contains LibRs.start_prefix t = false /\
      LibRs.main set_order (Some t) =
        Outcome [NoMarkers] [] None (Returns true).
Proof.
  intros set_order Hp content t Hc Hw.
  apply librs_written in Hw as [_ ->].
  pose proof (rewrite_free set_order content Hp Hc) as Ht.
  split; [exact Ht|].
  unfold LibRs.main, LibRs.resolve_librs_conflict. now rewrite Ht.
Qed.

Lemma second_run_writes_nothing_witness :
  LibRs.main Example.insertion_order
    (Some (txt "use std::fmt;" ++ nl :: txt "pub mod alpha;" ++ nl ::
           txt "pub mod zeta;" ++ [nl])) =
  Outcome [NoMarkers] [] None (Returns true).
Proof.
  refine (proj2 (@second_run_writes_nothing Example.insertion_order
                   (fun l => Permutation_refl l) Example.scenario_b
                   _ _ _)).
  - intros l Hl. vm_compute in Hl.
    repeat (destruct Hl as [<-|Hl]; [vm_compute; auto; discriminate|]).
    destruct Hl.
  - vm_compute. reflexivity.
Defined.

(** * Manifests with several conflict blocks *)

(** ** One step of a substitution *)

Lemma sub_skip (r : Re.re) (f : Re.caps -> text) (u v : text) :
  (forall u1 u2, u = u1 ++ u2 -> u2 <> [] -> Re.match_at r (u2 ++ v) = None) ->
  Re.sub r f (u ++ v) = u ++ Re.sub r f v.
Proof.
  intro H. unfold Re.sub. rewrite scan_nomatch by exact H.
  now rewrite flat_map_app, (flat_map_chars unit).
Qed.

Lemma sub_take (r : Re.re) (f : Re.caps -> text) (m v : text) (c : Re.caps) :
  m <> [] -> Re.match_at r (m ++ v) = Some (c, v) ->
  Re.sub r f (m ++ v) = f c ++ Re.sub r f v.
Proof.
  intros Hm Hc. unfold Re.sub. now rewrite (@scan_match r m v c Hm Hc).
Qed.

Lemma no_match_app (r : Re.re) (u v rest : text) :
  (forall u1 u2, u = u1 ++ u2 -> u2 <> [] ->
                 Re.match_at r (u2 ++ v ++ rest) = None) ->
  (forall v1 v2, v = v1 ++ v2 -> v2 <> [] ->
                 Re.match_at r (v2 ++ rest) = None) ->
  forall w1 w2, u ++ v = w1 ++ w2 -> w2 <> [] ->
                Re.match_at r (w2 ++ rest) = None.
Proof.
  intros Hu Hv w1 w2 E Hn.
  assert (S : Suffix (w2 ++ rest) (u ++ v ++ rest)).
  { exists w1. now rewrite !app_assoc, <- E. }
  apply Suffix_app_inv in S as [(u1 & u2 & Eu & Nu & Ew)|S].
  - rewrite Ew. now apply (Hu u1 u2).
  - apply Suffix_app_inv in S as [(v1 & v2 & Ev & Nv & Ew)|S].
    + rewrite Ew. now apply (Hv v1 v2).
    + exfalso. destruct S as [a Ea].
      apply (f_equal (@length ascii)) in Ea.
      rewrite !length_app in Ea. destruct w2; [congruence|cbn in Ea; lia].
Qed.

(** ** Where the word is, and what follows it *)

Lemma after_word (w t1 t2 u s : text) :
  t1 ++ t2 = u ++ w ++ s -> contains w t1 = false -> Suffix s t2.
Proof.
  revert u. induction t1 as [|c t1 IH]; intros u E H.
  - cbn [app] in E. exists (u ++ w). now rewrite <- app_assoc.
  - destruct u as [|c' u]; cbn [app] in E.
    + assert (Hs : startswith w ((c :: t1) ++ t2) = true).
      { cbn [app]. rewrite E. apply startswith_app. }
      apply startswith_app_cases in Hs as [Hs|(w1 & w2 & Ew & E1 & Hn & Hs)].
      * apply contains_false_startswith in H. congruence.
      * rewrite Ew, <- E1 in E.
        change (c :: t1 ++ t2) with ((c :: t1) ++ t2) in E.
        rewrite <- app_assoc in E. apply app_inv_head in E.
        exists w2. exact E.
    + injection E as <- E. rewrite contains_cons in H.
      apply orb_false_iff in H as [_ H]. now apply (IH u).
Qed.

Lemma contains_Suffix (w s t : text) :
  contains w t = true -> Suffix t s -> contains w s = true.
Proof.
  intros H S. destruct (contains w s) eqn:E; [reflexivity|].
  now rewrite (contains_false_Suffix _ E S) in H.
Qed.

(** The optional members part of a side is passed over when no [w]
    follows an occurrence of the word. *)
Lemma members_side_falls_through (A : Type) (w : text) (r : Re.re)
  (T : text) (c : Re.caps) (k : text -> Re.caps -> option A) :
  (forall u s, T = u ++ txt "members" ++ s -> contains w s = false) ->
  Re.run (Cargo.members_side ;; Re.Lit w ;; r)%re T c k =
  Re.run (Re.Lit w ;; r)%re T c k.
Proof.
  intro H. rewrite run_seq. unfold Cargo.members_side. rewrite run_opt.
  match goal with
  | |- match ?e with _ => _ end = _ => destruct e as [x|] eqn:E
  end; [exfalso|reflexivity].
  rewrite run_seq in E. apply run_suffix in E as (s1 & c1 & E & [u Hu]).
  rewrite run_seq, run_lit in E.
  destruct (strip_prefix (txt "members") s1) as [s2|] eqn:E1; [|discriminate].
  apply strip_prefix_Some in E1. subst s1.
  apply run_suffix in E as (s3 & c3 & E & S3).
  rewrite run_seq, run_lit in E.
  destruct (strip_prefix w s3) as [s4|] eqn:E3; [|discriminate].
  apply strip_prefix_Some in E3.
  assert (C : contains w s2 = true).
  { apply contains_Suffix with s3; [|exact S3].
    rewrite E3. apply (contains_intro w [] s4). }
  rewrite (H u s2 Hu) in C. discriminate.
Qed.

(** The body of the pattern of the members conflicts fails where no
    separator line and no end marker follows an occurrence of the
    word, unless the text begins with a separator line and an end
    marker. *)
Lemma members_conflict_body_quiet (A : Type) (T : text) (c : Re.caps)
  (k : text -> Re.caps -> option A) :
  (forall u s, T = u ++ txt "members" ++ s ->
               contains Cargo.separator_line s = false /\
               contains Cargo.end_marker s = false) ->
  (forall s2, T = Cargo.separator_line ++ s2 ->
              startswith Cargo.end_marker s2 = false) ->
  Re.run members_conflict_body T c k = None.
Proof.
  intros Hm Hs. unfold members_conflict_body.
  rewrite members_side_falls_through by (intros u s E; apply (Hm u s E)).
  rewrite run_seq, run_lit.
  destruct (strip_prefix Cargo.separator_line T) as [T'|] eqn:E;
    [|reflexivity].
  apply strip_prefix_Some in E.
  rewrite members_side_falls_through.
  - rewrite run_seq. apply run_lit_fail. auto.
  - intros u s E'. apply (Hm (Cargo.separator_line ++ u) s).
    rewrite E, E'. now rewrite <- app_assoc.
Qed.

Lemma quiet_after_members (T t1 t2 : text) :
  T = t1 ++ t2 -> contains (txt "members") t1 = false ->
  contains Cargo.separator_line t2 = false ->
  contains Cargo.end_marker t2 = false ->
  forall u s, T = u ++ txt "members" ++ s ->
              contains Cargo.separator_line s = false /\
              contains Cargo.end_marker s = false.
Proof.
  intros -> H1 H2 H3 u s E.
  pose proof (@after_word _ _ _ _ _ E H1) as S.
  split; eapply contains_false_Suffix; eauto.
Qed.

(** ** The regions of a manifest *)

Import Manifest.

Lemma region_shape (rg : region) (rest : text) :
  region_text rg ++ rest =
  Cargo.start_marker ++ (" "%char :: label rg) ++
  nl :: ours rg ++ Cargo.separator_line ++ theirs rg ++
  Cargo.end_marker ++ closing rg ++ nl :: rest.
Proof.
  unfold region_text, conflict_text.
  repeat (rewrite <- app_assoc; cbn [app]). reflexivity.
Qed.

Lemma region_text_nonempty (rg : region) : region_text rg <> [].
Proof. discriminate. Qed.

Lemma region_text_tl (rg : region) :
  exists x, tl (region_text rg) = x ++ [nl] /\
            region_text rg = "<"%char :: x ++ [nl].
Proof.
  unfold region_text, conflict_text.
  eexists. split.
  - cbn [Cargo.start_marker txt list_ascii_of_string app tl].
    rewrite !app_comm_cons. rewrite !app_assoc. reflexivity.
  - cbn [Cargo.start_marker txt list_ascii_of_string app].
    rewrite !app_comm_cons. rewrite !app_assoc. reflexivity.
Qed.

Lemma ends_line_snoc (x : text) : ends_line (x ++ [nl]) = true.
Proof.
  unfold ends_line. destruct (x ++ [nl]) eqn:E; [reflexivity|].
  rewrite <- E. apply endswith_nl_snoc.
Qed.

Lemma region_text_lines (rg : region) : ends_line (region_text rg) = true.
Proof.
  destruct (region_text_tl rg) as (x & _ & ->).
  change ("<"%char :: x ++ [nl]) with (("<"%char :: x) ++ [nl]).
  apply ends_line_snoc.
Qed.

Lemma text_of_cons (rg : region) regs (post : text) :
  text_of (rg :: regs) post = before rg ++ region_text rg ++ text_of regs post.
Proof. unfold text_of. cbn [flat_map]. now rewrite <- !app_assoc. Qed.

Lemma unlisted_cons (rg : region) regs (post : text) :
  unlisted (rg :: regs) post =
  before rg ++ (if leaves rg then [] else region_text rg) ++
  unlisted regs post.
Proof. unfold unlisted. cbn [flat_map]. now rewrite <- !app_assoc. Qed.

Lemma resolved_cons (rg : region) regs (post : text) :
  resolved (rg :: regs) post =
  before rg ++ (if listed rg then [] else ours rg) ++ resolved regs post.
Proof. unfold resolved. cbn [flat_map]. now rewrite <- !app_assoc. Qed.

Lemma outside_cons (rg : region) regs (post : text) :
  outside (rg :: regs) post = before rg ++ outside regs post.
Proof. unfold outside. cbn [flat_map]. now rewrite <- !app_assoc. Qed.

Lemma region_ok_facts (rg : region) :
  region_ok rg = true -> region_facts rg.
Proof.
  unfold region_ok. intro H.
  repeat match type of H with
  | _ && _ = true => let H' := fresh "H" in apply andb_true_iff in H as [H H']
  end.
  repeat match goal with
  | X : negb _ = true |- _ => apply negb_true_iff in X
  end.
  constructor; try assumption.
  destruct rg.
  - now apply negb_true_iff in H0.
  - apply andb_true_iff in H0 as [Ha Hb]. auto.
Qed.

Lemma label_line_ok (rg : region) :
  region_facts rg -> forallb not_nl (" "%char :: label rg) = true.
Proof. intros [? ? H ? ? ? ? ? ? ? ?]. cbn [forallb]. now rewrite H. Qed.

Import Manifest.

(** ** The removal of the conflicts, region by region *)

Lemma inside_region (rg : region) (a : ascii) (u1 u2 rest : text) :
  region_facts rg -> region_text rg = a :: u1 ++ u2 -> u2 <> [] ->
  startswith Cargo.start_marker (u2 ++ rest) = false.
Proof.
  intros F E N.
  apply (@no_straddle Cargo.start_marker (tl (region_text rg)) u1 u2 rest).
  - reflexivity.
  - apply F.
  - destruct (region_text_tl rg) as (x & -> & _). apply ends_line_snoc.
  - now rewrite E.
  - exact N.
Qed.

Lemma quiet_text_free regs (post : text) :
  forallb region_ok regs = true -> forallb quiet regs = true ->
  contains (txt "members") post = false ->
  contains (txt "members") (text_of regs post) = false.
Proof.
  intros Hok Hq Hp. induction regs as [|rg regs IH]; [exact Hp|].
  cbn [forallb] in Hok, Hq.
  apply andb_true_iff in Hok as [Hr Hok]. apply andb_true_iff in Hq as [Hg Hq].
  apply region_ok_facts in Hr. unfold quiet in Hg.
  apply andb_true_iff in Hg as [Hl Hb]. apply negb_true_iff in Hl, Hb.
  rewrite text_of_cons.
  apply contains_app_lines; [reflexivity|exact Hb|apply Hr|].
  apply contains_app_lines; [reflexivity| |apply region_text_lines|auto].
  destruct rg; [|discriminate Hl]. apply (kind_ok Hr).
Qed.

Lemma text_of_post regs (post : text) :
  text_of regs post = text_of regs [] ++ post.
Proof. unfold text_of. now rewrite app_nil_r. Qed.

(** After the start line of a generic region no separator line and no
    end marker follows an occurrence of the word. *)
Lemma generic_tail_quiet (b l o t c : text) regs (post : text) :
  region_facts (Generic b l o t c) ->
  forallb region_ok regs = true -> forallb quiet regs = true ->
  post_quiet post = true ->
  forall u s,
    o ++ Cargo.separator_line ++ t ++ Cargo.end_marker ++ c ++
    nl :: text_of regs post = u ++ txt "members" ++ s ->
    contains Cargo.separator_line s = false /\
    contains Cargo.end_marker s = false.
Proof.
  intros F Hok Hq Hp.
  set (body := o ++ Cargo.separator_line ++ t ++ Cargo.end_marker ++ c ++ [nl]).
  assert (Eb : forall rest,
             o ++ Cargo.separator_line ++ t ++ Cargo.end_marker ++ c ++
             nl :: rest = body ++ rest).
  { intro rest. unfold body.
    repeat (rewrite <- app_assoc; cbn [app]). reflexivity. }
  assert (Hb : contains (txt "members") body = false).
  { pose proof (kind_ok F) as Hm.
    pose proof (region_shape (Generic b l o t c) []) as E.
    rewrite app_nil_r in E. cbn [label ours theirs closing] in E.
    rewrite E in Hm. fold body in Hm.
    replace (Cargo.start_marker ++ (" "%char :: l) ++ nl :: body)
      with ((Cargo.start_marker ++ (" "%char :: l) ++ [nl]) ++ body) in Hm
      by (repeat (rewrite <- app_assoc; cbn [app]); reflexivity).
    apply contains_false_app in Hm as [_ Hm]. exact Hm. }
  assert (Lb : ends_line body = true).
  { unfold body. rewrite !app_assoc. apply ends_line_snoc. }
  rewrite Eb. unfold post_quiet in Hp. apply orb_true_iff in Hp as [Hp|Hp].
  - apply negb_true_iff in Hp.
    apply (@quiet_after_members _ (body ++ text_of regs post) []).
    + now rewrite app_nil_r.
    + apply contains_app_lines; auto. now apply quiet_text_free.
    + reflexivity.
    + reflexivity.
  - apply andb_true_iff in Hp as [H1 H2]. apply negb_true_iff in H1, H2.
    apply (@quiet_after_members _ (body ++ text_of regs []) post).
    + now rewrite (text_of_post regs post), app_assoc.
    + apply contains_app_lines; auto. now apply quiet_text_free.
    + exact H1.
    + exact H2.
Qed.

Lemma generic_head (b l o t c : text) (rest s2 : text) :
  region_facts (Generic b l o t c) -> nonblank (o ++ t) = true ->
  o ++ Cargo.separator_line ++ t ++ Cargo.end_marker ++ c ++ nl :: rest =
  Cargo.separator_line ++ s2 ->
  startswith Cargo.end_marker s2 = false.
Proof.
  intros F Hn Hs.
  destruct (nil_or_not o) as [Eo|Eo].
  - subst o. cbn [app] in Hs. apply app_inv_head in Hs. subst s2.
    destruct (nil_or_not t) as [Et|Et]; [subst t; discriminate Hn|].
    apply (@theirs_to_end t (theirs_no_end F) (theirs_lines F) [] t);
      [reflexivity|exact Et].
  - exfalso.
    assert (E : startswith Cargo.separator_line
                  (o ++ Cargo.separator_line ++ t ++ Cargo.end_marker ++
                   c ++ nl :: rest) = true).
    { rewrite Hs. apply startswith_app. }
    rewrite (@ours_to_separator o (ours_no_separator F) [] o) in E;
      [discriminate|reflexivity|exact Eo].
Qed.

(** The pattern of the members conflicts matches nowhere in a generic
    region with a side that is not empty, when generic regions only
    follow. *)
Lemma generic_no_members_match (b l o t c : text) regs (post : text) :
  region_facts (Generic b l o t c) -> nonblank (o ++ t) = true ->
  forallb region_ok regs = true -> forallb quiet regs = true ->
  post_quiet post = true ->
  forall u1 u2,
    region_text (Generic b l o t c) = u1 ++ u2 -> u2 <> [] ->
    Re.match_at Cargo.members_conflict_pattern (u2 ++ text_of regs post)
    = None.
Proof.
  intros F Hne Hok Hq Hp u1 u2 E N. destruct u1 as [|a u1].
  - cbn [app] in E. subst u2. rewrite region_shape.
    cbn [label ours theirs closing]. rewrite app_assoc.
    apply members_conflict_at_line.
    + pose proof (label_line_ok F) as Hl. cbn [label] in Hl.
      rewrite forallb_app. now rewrite Hl.
    + apply members_conflict_body_quiet.
      * apply (@generic_tail_quiet b l o t c regs post F Hok Hq Hp).
      * intros s2 Hs. apply (@generic_head b l o t c _ s2 F Hne Hs).
  - apply match_lit_none. apply (@inside_region _ a u1 u2 _ F E N).
Qed.

(** It matches the whole of a generic region with two empty sides. *)
Lemma empty_generic_match (b l c : text) regs (post : text) :
  region_facts (Generic b l [] [] c) ->
  forallb region_ok regs = true -> forallb quiet regs = true ->
  post_quiet post = true ->
  exists g,
    Re.match_at Cargo.members_conflict_pattern
      (region_text (Generic b l [] [] c) ++ text_of regs post) =
    Some (g, text_of regs post).
Proof.
  intros F Hok Hq Hp. eexists.
  pose proof (@generic_tail_quiet b l [] [] c regs post F Hok Hq Hp) as Ht.
  cbn [app] in Ht.
  rewrite region_shape. cbn [label ours theirs closing].
  rewrite !app_nil_l.
  unfold Re.match_at, Cargo.members_conflict_pattern.
  rewrite run_seq, run_lit_app.
  pose proof (label_line_ok F) as Hl. cbn [label] in Hl.
  rewrite (run_line _ _ _ _ _ Hl).
  rewrite members_side_falls_through
    by (intros u s E; apply (Ht u s E)).
  rewrite run_seq, run_lit_app.
  rewrite members_side_falls_through.
  - rewrite run_seq, run_lit_app.
    apply run_line_end; [apply (closing_line F)|reflexivity].
  - intros u s E. apply (Ht (Cargo.separator_line ++ u) s).
    rewrite E. now rewrite <- app_assoc.
Qed.

Lemma quiet_calm regs : forallb quiet regs = true -> calm regs = true.
Proof.
  induction regs as [|rg regs IH]; [reflexivity|].
  cbn [forallb]. intro H. apply andb_true_iff in H as [Hq H].
  destruct rg; [exact H|]. discriminate Hq.
Qed.

Lemma listed_match (b l : text) (so st : side) (c : text) (rest : text) :
  region_facts (Listed b l so st c) ->
  exists g,
    Re.match_at Cargo.members_conflict_pattern
      (region_text (Listed b l so st c) ++ rest) = Some (g, rest).
Proof.
  intro F. destruct (kind_ok F) as [Ho Ht].
  unfold side_ok in Ho, Ht.
  repeat match goal with
  | X : _ && _ = true |- _ => apply andb_true_iff in X as [X ?]
  end.
  repeat match goal with
  | X : negb _ = true |- _ => apply negb_true_iff in X
  end.
  rewrite region_shape. cbn [label ours theirs closing]. unfold side_text.
  apply members_conflict_at_region; auto.
  - apply (label_line_ok F).
  - apply (closing_line F).
  - apply (ours_no_separator F).
  - apply (theirs_no_end F).
  - apply (theirs_lines F).
Qed.

Lemma post_no_match (r : Re.re) (post t : text) :
  contains Cargo.start_marker post = false -> Suffix t post ->
  Re.match_at (Re.Lit Cargo.start_marker ;; r)%re t = None.
Proof.
  intros H S. apply match_lit_none. eapply contains_false_suffix; eauto.
Qed.

(** The first substitution removes the listed regions and leaves the
    rest as it is. *)
Lemma remove_listed regs (post : text) :
  forallb region_ok regs = true -> calm regs = true ->
  forallb listed regs = true \/ post_quiet post = true ->
  contains Cargo.start_marker post = false ->
  Re.sub Cargo.members_conflict_pattern (fun _ => []) (text_of regs post) =
  unlisted regs post.
Proof.
  intros Hok Hc Hq Hp. induction regs as [|rg regs IH].
  - apply sub_none. intros t S. now apply (post_no_match _ Hp).
  - cbn [forallb] in Hok. apply andb_true_iff in Hok as [Hr Hok].
    apply region_ok_facts in Hr.
    rewrite text_of_cons, unlisted_cons.
    assert (Hb : forall X u1 u2, before rg = u1 ++ u2 -> u2 <> [] ->
                 Re.match_at Cargo.members_conflict_pattern (u2 ++ X) = None).
    { intros X u1 u2 Hu Hn.
      apply (@before_region (before rg) (before_no_start Hr)
               (before_lines Hr) _ u1 u2 X Hu Hn). }
    destruct rg as [b l o t c|b l so st c]; unfold leaves;
      cbn [listed calm orb] in *.
    + assert (Hq' : post_quiet post = true)
        by (destruct Hq as [Hq|Hq]; [discriminate Hq|exact Hq]).
      cbn [ours theirs].
      destruct (nonblank (o ++ t)) eqn:Hne; cbn [negb].
      * rewrite app_assoc, sub_skip.
        -- rewrite <- app_assoc. do 2 f_equal.
           apply IH; [exact Hok|now apply quiet_calm|now right].
        -- apply no_match_app;
             [intros u1 u2 Hu Hn; now apply (Hb _ u1 u2)|].
           apply (@generic_no_members_match b l o t c regs post Hr Hne Hok
                    Hc Hq').
      * assert (Eo : o = [] /\ t = []).
        { destruct o; [|discriminate Hne]. now destruct t. }
        destruct Eo as [-> ->].
        rewrite sub_skip by (intros u1 u2 Hu Hn; now apply (Hb _ u1 u2)).
        destruct (@empty_generic_match b l c regs post Hr Hok Hc Hq')
          as [g Hg].
        rewrite (@sub_take _ (fun _ => []) _ _ g
                   (@region_text_nonempty (Generic b l [] [] c)) Hg).
        cbn [app]. f_equal.
        apply IH; [exact Hok|now apply quiet_calm|now right].
    + rewrite sub_skip by (intros u1 u2 Hu Hn; now apply (Hb _ u1 u2)).
      destruct (@listed_match b l so st c (text_of regs post) Hr) as [g Hg].
      rewrite (@sub_take _ (fun _ => []) _ _ g
                 (@region_text_nonempty (Listed b l so st c)) Hg).
      cbn [app]. f_equal. apply IH; [exact Hok|exact Hc|].
      destruct Hq as [Hq|Hq]; [left|now right].
      cbn [forallb listed] in Hq. exact Hq.
Qed.

(** The second substitution puts "ours" in the place of each generic
    region. *)
Lemma keep_ours regs (post : text) :
  forallb region_ok regs = true ->
  contains Cargo.start_marker post = false ->
  Re.sub Cargo.generic_pattern (fun m => Re.group m 1) (unlisted regs post) =
  resolved regs post.
Proof.
  intros Hok Hp. induction regs as [|rg regs IH].
  - apply sub_none. intros t S. now apply (post_no_match _ Hp).
  - cbn [forallb] in Hok. apply andb_true_iff in Hok as [Hr Hok].
    apply region_ok_facts in Hr.
    rewrite unlisted_cons, resolved_cons.
    assert (Hb : forall X u1 u2, before rg = u1 ++ u2 -> u2 <> [] ->
                 Re.match_at Cargo.generic_pattern (u2 ++ X) = None).
    { intros X u1 u2 Hu Hn.
      apply (@before_region (before rg) (before_no_start Hr)
               (before_lines Hr) _ u1 u2 X Hu Hn). }
    rewrite sub_skip by (intros u1 u2 Hu Hn; now apply (Hb _ u1 u2)).
    f_equal. unfold leaves.
    destruct (listed rg) eqn:El; cbn [app orb]; [now apply IH|].
    destruct (nonblank (ours rg ++ theirs rg)) eqn:Hne; cbn [negb].
    2:{ assert (Eo : ours rg = []) by (now destruct (ours rg)).
        rewrite Eo. cbn [app]. now apply IH. }
    destruct (@generic_at_region (" "%char :: label rg) (ours rg) (theirs rg)
                (closing rg) (unlisted regs post) (label_line_ok Hr)
                (closing_line Hr) (ours_no_separator Hr) (theirs_no_end Hr)
                (theirs_lines Hr)) as (g & Hg & Eg).
    rewrite <- region_shape in Hg.
    rewrite (@sub_take _ (fun m => Re.group m 1) _ _ g
               (@region_text_nonempty rg) Hg), Eg. f_equal.
    now apply IH.
Qed.

Lemma ok_facts regs (post : text) :
  ok regs post = true ->
  forallb region_ok regs = true /\ calm regs = true /\
  contains Cargo.start_marker post = false /\
  (forallb listed regs = true \/ post_quiet post = true).
Proof.
  unfold ok, post_ok. intro H.
  apply andb_true_iff in H as [H H3]. apply andb_true_iff in H as [H1 H2].
  apply andb_true_iff in H3 as [H3 H4]. apply negb_true_iff in H3.
  apply orb_true_iff in H4. auto.
Qed.

(** The two substitutions on a manifest: the listed regions go, each
    generic region leaves its "ours", the text outside the regions
    stays. *)
Lemma remove_conflicts_text regs (post : text) :
  ok regs post = true ->
  Cargo.remove_conflicts (text_of regs post) = resolved regs post.
Proof.
  intro H. apply ok_facts in H as (H1 & H2 & H3 & H4).
  unfold Cargo.remove_conflicts.
  rewrite remove_listed by assumption. now apply keep_ours.
Qed.

Lemma text_has_marker (rg : region) regs (post : text) :
  contains (txt "<<<<<<< ") (text_of (rg :: regs) post) = true.
Proof.
  rewrite text_of_cons. rewrite region_shape.
  change (Cargo.start_marker ++ (" "%char :: label rg) ++ ?x)
    with (txt "<<<<<<< " ++ label rg ++ x).
  apply contains_intro.
Qed.

Import Manifest.

(** ** Texts in which a word does not occur *)







(** ** A substitution that brings no word in *)

Section SubFree.
Variable w : text.
Variable r : Re.re.
Variable f : Re.caps -> text.
Hypothesis w_nonempty : w <> [].
Hypothesis replacement :
  forall t c rest, Re.match_at r t = Some (c, rest) ->
    contains w (f c) = false /\
    (exists b y, f c = b :: y /\ ~ In b w) /\
    (exists x e, f c = x ++ [e] /\ ~ In e w).

Let piece (p : text + Re.caps) : text :=
  match p with inl t => t | inr c => f c end.



End SubFree.

(** ** The merged block and the start marker *)








(** ** The text left by the removal of the conflicts has no marker *)


(** ** The manifest tool on a manifest with several blocks *)

Lemma manifest_outcome regs (post : text) :
  ok regs post = true -> regs <> [] ->
  Cargo.resolve_cargo_conflict (Some (text_of regs post)) =
  match Cargo.place_members (sorted (Cargo.all_members (text_of regs post)))
          (resolved regs post) with
  | None =>
      Outcome []
        match Cargo.all_members (text_of regs post) with
        | [] => [NoMembers]
        | _ => []
        end
        None Raises
  | Some r =>
      Outcome (Cargo.report (sorted (Cargo.all_members (text_of regs post))))
        match Cargo.all_members (text_of regs post) with
        | [] => [NoMembers]
        | _ => []
        end
        (Some (collapse_blank r)) (Returns true)
  end.
Proof.
  intros Hok Hn. destruct regs as [|rg regs]; [congruence|].
  rewrite cargo_runs by apply text_has_marker.
  now rewrite remove_conflicts_text.
Qed.

(** Without members list, and without header or without members, the
    text is left as it is. *)
Lemma place_nothing (ms : list text) (resolved : text) :
  contains (txt "members") resolved = false ->
  ms = [] \/ contains (txt "[workspace]") resolved = false ->
  Cargo.place_members ms resolved = Some resolved.
Proof.
  intros Hm H. unfold Cargo.place_members.
  rewrite (search_members_open_none _ Hm).
  destruct H as [-> | ->]; [|reflexivity].
  cbn [length Nat.eqb negb]. now rewrite andb_false_r.
Qed.

(** Every members list is replaced by the merged block. *)
Lemma place_members_lists (ms : list text) (before : text) lists :
  forallb no_backslash ms = true ->
  contains (txt "members") before = false ->
  lists <> [] -> forallb list_ok lists = true ->
  Cargo.place_members ms (manifest_with members_literal before lists) =
  Some (manifest_with (fun _ _ _ => Cargo.new_members_block ms) before lists).
Proof.
  intros Hbs Hb Hne Hok. unfold Cargo.place_members.
  destruct lists as [|[[[ws1 ws2] body] after] lists]; [congruence|].
  pose proof Hok as Hok'. cbn [forallb] in Hok'.
  apply andb_true_iff in Hok' as [Hi _].
  apply list_ok_inv in Hi as (H1 & H2 & _ & _).
  rewrite manifest_with_cons at 1.
  destruct (@members_open_match ws1 ws2 body
              (manifest_with members_literal after lists) H1 H2) as [c Hc].
  rewrite (@search_first Cargo.members_open before _ c _
             (fun u1 u2 E N =>
                @before_list_no_match _ before u1 u2 _ _ _ _ Hb E N) Hc).
  rewrite sub_template_literal
    by (now apply new_members_block_no_backslash).
  f_equal. now apply sub_lists.
Qed.

(** Without members list the merged block is put after every header. *)
Lemma place_members_headers (ms : list text) (before : text)
  (afters : list text) :
  ms <> [] -> forallb no_backslash ms = true ->
  afters <> [] ->
  contains (txt "members") (with_headers [] before afters) = false ->
  contains (txt "[workspace]") before = false ->
  forallb (fun a => negb (contains (txt "[workspace]") a)) afters = true ->
  Cargo.place_members ms (with_headers [] before afters) =
  Some (with_headers (nl :: Cargo.new_members_block ms) before afters).
Proof.
  intros Hn Hbs Ha Hm Hb Hok. unfold Cargo.place_members.
  rewrite (search_members_open_none _ Hm).
  assert (Hw : contains (txt "[workspace]") (with_headers [] before afters)
               = true).
  { destruct afters as [|after afters]; [congruence|].
    rewrite with_headers_cons. apply contains_intro. }
  rewrite Hw. destruct ms as [|m ms]; [congruence|].
  cbn [length Nat.eqb negb andb].
  rewrite sub_template_workspace
    by (now apply new_members_block_no_backslash).
  f_equal. now apply sub_headers.
Qed.



(** With listed regions only, what is left is the text outside the
    regions. *)
Lemma resolved_listed regs (post : text) :
  forallb listed regs = true -> resolved regs post = outside regs post.
Proof.
  induction regs as [|rg regs IH]; [reflexivity|].
  cbn [forallb]. intro H. apply andb_true_iff in H as [Hl H].
  rewrite resolved_cons, outside_cons, Hl. cbn [app]. now rewrite IH.
Qed.

(** * The claims of the specification *)

(** C1, as stated, fails: for a members conflict in a manifest without
    workspace header and without members list outside the conflict, "a"
    and "b" are extracted from the two sides and merged, and the text
    written is empty. *)
Lemma completeness_fails_without_place :
  (exists m,
     Re.finditer Cargo.conflict_pattern Example.no_workspace = [m] /\
     Cargo.extract_members_from_block (Re.group m 1) = [txt "a"] /\
     Cargo.extract_members_from_block (Re.group m 2) = [txt "b"]) /\
  Cargo.resolve_cargo_conflict (Some Example.no_workspace) =
  Outcome [Resolved; Merged 2; Item (txt "a"); Item (txt "b")] [] (Some [])
    (Returns true).
Proof. split; [eexists; repeat split|]; vm_compute; reflexivity. Qed.

(** C1, amended.  Declaration tool: in a document made of well-formed
    regions and plain lines, every declaration extracted from a side of
    a region is a line of the written text.  Manifest tool: every member
    extracted from a side of a conflict block is listed, quoted, in the
    merged block, and the block is part of the text before the blank
    lines are cleaned up, provided the text left by the removal of the
    conflicts has a members list or the workspace header, and no member
    has a backslash. *)
Theorem completeness_where_placed :
  forall set_order : list text -> list text,
    (forall l, Permutation (set_order l) l) ->
    (forall (segs : list Doc.segment) (content e start : text)
            (ours : list text) (rest : option (text * list text))
            (finish : text),
        forallb Doc.well_formed segs = true ->
        split_nl content = flat_map Doc.lines_of segs ->
        In (Doc.Region start ours rest finish) segs ->
        In e (segment_entries (Doc.Region start ours rest finish)) ->
        exists t,
          written (LibRs.resolve_librs_conflict set_order (Some content))
          = Some t /\ In e (split_nl t)) /\
    (forall (content : text) (m : Re.caps) (e : text),
        contains (txt "<<<<<<< ") content = true ->
        In m (Re.finditer Cargo.conflict_pattern content) ->
        In e (Cargo.extract_members_from_block (Re.group m 1)) \/
        In e (Cargo.extract_members_from_block (Re.group m 2)) ->
        forallb no_backslash (Cargo.all_members content) = true ->
        has_place (Cargo.remove_conflicts content) = true ->
        exists a x y b,
          written (Cargo.resolve_cargo_conflict (Some content)) =
            Some (collapse_blank (a ++ (x ++ Cargo.quote e ++ y) ++ b)) /\
          x ++ Cargo.quote e ++ y =
            Cargo.new_members_block (sorted (Cargo.all_members content))).
Proof.
  intros set_order Hperm. split.
  - intros. eapply librs_completeness; eauto.
  - intros. eapply cargo_completeness; eauto.
Qed.

Lemma completeness_where_placed_witness :
  (exists t,
     written (LibRs.resolve_librs_conflict Example.insertion_order
                (Some Example.scenario_b)) = Some t /\
     In (txt "pub mod alpha;") (split_nl t)) /\
  (exists a x y b,
     written (Cargo.resolve_cargo_conflict (Some Example.scenario_a)) =
       Some (collapse_blank (a ++ (x ++ Cargo.quote (txt "b") ++ y) ++ b)) /\
     x ++ Cargo.quote (txt "b") ++ y =
       Cargo.new_members_block
         (sorted (Cargo.all_members Example.scenario_a))).
Proof.
  destruct (@completeness_where_placed Example.insertion_order
              (fun l => Permutation_refl l)) as [HL HC].
  split.
  - apply (HL Example.scenario_b_segments Example.scenario_b
             (txt "pub mod alpha;") (txt "<<<<<<< HEAD")
             [txt "pub mod zeta;"]
             (Some (txt "=======", [txt "pub mod alpha;"; txt "pub mod zeta;"]))
             (txt ">>>>>>> x")).
    + vm_compute; reflexivity.
    + vm_compute; reflexivity.
    + right; left; reflexivity.
    + vm_compute. right. left. reflexivity.
  - destruct (Re.finditer Cargo.conflict_pattern Example.scenario_a)
      as [|m ms] eqn:E; [vm_compute in E; discriminate E|].
    apply (HC Example.scenario_a m (txt "b")).
    + vm_compute; reflexivity.
    + rewrite E. left; reflexivity.
    + vm_compute in E. injection E as <- _. right. vm_compute.
      left. reflexivity.
    + vm_compute; reflexivity.
    + vm_compute; reflexivity.
Defined.

(** C2: the manifest tool leaves the markers of a conflict without
    separator line in the text it writes. *)
Theorem markers_left_without_separator :
  Cargo.resolve_cargo_conflict (Some Example.no_separator) =
  Outcome [Resolved] [NoMembers] (Some Example.no_separator) (Returns true)
  /\ split_nl Example.no_separator =
     [txt "<<<<<<< HEAD"; txt "foo"; txt ">>>>>>> x"; []].
Proof. split; vm_compute; reflexivity. Qed.

(** C3, as stated, fails for both tools.  The declaration tool keeps
    nothing of a conflict in unrelated text: "ours" is dropped with
    "theirs".  The manifest tool drops "ours" of a conflict in unrelated
    text that stands before a members conflict: from neither of its
    sides a member is extracted, and the text written has neither "foo"
    nor the header that follows the block. *)
Lemma generic_ours_dropped :
  (split_nl Example.generic =
     [txt "<<<<<<< HEAD"; txt "foo"; txt "======="; txt "bar";
      txt ">>>>>>> x"; []] /\
   LibRs.resolve_librs_conflict Example.insertion_order (Some Example.generic)
   = Outcome [Resolved] [] (Some [nl]) (Returns true)) /\
  ((exists m1 m2,
      Re.finditer Cargo.conflict_pattern Example.generic_before_list =
        [m1; m2] /\
      Re.group m1 1 = Example.lines ["foo"%string] /\
      Re.group m1 2 = Example.lines ["bar"%string] /\
      Cargo.extract_members_from_block (Re.group m1 1) = [] /\
      Cargo.extract_members_from_block (Re.group m1 2) = []) /\
   Cargo.resolve_cargo_conflict (Some Example.generic_before_list) =
   Outcome [Resolved; Merged 2; Item (txt "a"); Item (txt "b")] []
     (Some (Example.lines ["keep"; "end"]%string)) (Returns true)).
Proof.
  split; [split; vm_compute; reflexivity|].
  split; [eexists _, _; repeat split|]; vm_compute; reflexivity.
Qed.

(** C3, amended.  Manifest tool: take a manifest made of conflict blocks
    with the text between them, every block made of whole lines, with a
    separator line and with no marker inside its sides, and either
    generic (no [members] in it) or listed (a members list on each
    side); after the first generic block there are generic blocks only,
    without [members] between them, and the text after the last block
    has no [members] or no separator line and end marker.  Then the two substitutions leave the manifest with every
    listed block removed and every generic block replaced by its "ours"
    text: "theirs" and the three marker lines are dropped.  The text
    written is this text with the merged block placed and the blank
    lines cleaned up; without [members] in it, and without member or
    without header, it is this text with the blank lines cleaned up.
    Declaration tool: in a document made of well-formed regions and
    plain lines the text written is made of the lines outside the
    regions that are no declarations and, put in at one place, the
    declarations collected; no line of a region is kept as it is,
    neither of "ours" nor of "theirs", and when no declaration is found
    the lines outside the regions are all there is. *)
Theorem generic_conflict_resolution :
  forall set_order : list text -> list text,
    (forall l, Permutation (set_order l) l) ->
    (forall (regs : list Manifest.region) (post : text),
        Manifest.ok regs post = true -> regs <> [] ->
        Cargo.remove_conflicts (Manifest.text_of regs post) =
          Manifest.resolved regs post /\
        written
          (Cargo.resolve_cargo_conflict (Some (Manifest.text_of regs post))) =
          match
            Cargo.place_members
              (sorted (Cargo.all_members (Manifest.text_of regs post)))
              (Manifest.resolved regs post)
          with
          | Some r => Some (collapse_blank r)
          | None => None
          end /\
        (contains (txt "members") (Manifest.resolved regs post) = false ->
         Cargo.all_members (Manifest.text_of regs post) = [] \/
         contains (txt "[workspace]") (Manifest.resolved regs post) = false ->
         written
           (Cargo.resolve_cargo_conflict
              (Some (Manifest.text_of regs post))) =
         Some (collapse_blank (Manifest.resolved regs post)))) /\
    (forall (segs : list Doc.segment) (content : text),
        forallb Doc.well_formed segs = true ->
        split_nl content = flat_map Doc.lines_of segs ->
        contains LibRs.start_prefix content = true ->
        exists (k : nat) (mods : list text),
          written (LibRs.resolve_librs_conflict set_order (Some content)) =
            Some (LibRs.ensure_newline
                    (collapse_blank
                       (join_nl
                          (firstn k (filter kept (flat_map Doc.outside segs))
                           ++ mods ++
                           skipn k
                             (filter kept (flat_map Doc.outside segs)))))) /\
          (forall e, In e mods <-> In e (flat_map segment_entries segs)) /\
          (flat_map segment_entries segs = [] ->
           written (LibRs.resolve_librs_conflict set_order (Some content)) =
             Some (LibRs.ensure_newline
                     (collapse_blank
                        (join_nl (flat_map Doc.outside segs)))))).
Proof.
  intros set_order Hperm. split.
  - intros regs post Hok Hn.
    split; [now apply remove_conflicts_text|].
    rewrite manifest_outcome by assumption. split.
    + now destruct (Cargo.place_members _ _).
    + intros Hm H. rewrite place_nothing; [reflexivity|exact Hm|].
      destruct H as [H|H]; [left; now rewrite H|now right].
  - intros segs content Hw Hs Hc.
    rewrite librs_runs by exact Hc. cbn [written].
    destruct (@librs_shape set_order Hperm segs content Hw Hs)
      as (H1 & H2 & (k & H3) & H4).
    exists k, (LibRs.sorted_mods set_order
                 (LibRs.scan_lines (split_nl content))).
    split; [|split].
    + unfold LibRs.rewrite. cbn zeta. now rewrite H3.
    + exact H2.
    + intro He. f_equal.
      now apply (@librs_no_entries set_order Hperm segs content Hw Hs He).
Qed.

Lemma generic_conflict_resolution_witness :
  (Cargo.remove_conflicts
     (Manifest.text_of Example.mixed_regions Example.mixed_post) =
     Manifest.resolved Example.mixed_regions Example.mixed_post /\
   written
     (Cargo.resolve_cargo_conflict
        (Some (Manifest.text_of Example.package_regions
                 Example.package_post))) =
     Some (collapse_blank
             (Manifest.resolved Example.package_regions
                Example.package_post))) /\
  written (LibRs.resolve_librs_conflict Example.insertion_order
             (Some Example.generic)) =
    Some (LibRs.ensure_newline
            (collapse_blank
               (join_nl (flat_map Doc.outside Example.generic_segments)))).
Proof.
  destruct (@generic_conflict_resolution Example.insertion_order
              (fun l => Permutation_refl l)) as [HC HL].
  split; [split|].
  - refine (proj1 (HC Example.mixed_regions Example.mixed_post _ _));
      [vm_compute; reflexivity|discriminate].
  - refine (proj2 (proj2 (HC Example.package_regions Example.package_post
                            _ _)) _ _);
      [vm_compute; reflexivity|discriminate|vm_compute; reflexivity|].
    left. vm_compute; reflexivity.
  - destruct (HL Example.generic_segments Example.generic)
      as (k & mods & _ & _ & H);
      [vm_compute; reflexivity|vm_compute; reflexivity
      |vm_compute; reflexivity|].
    apply H. vm_compute; reflexivity.
Defined.




(** C5, as stated, fails.  Declaration tool: of three blank lines
    outside the conflict one is left; a declaration outside the
    conflict is written without its indentation; a line of equals
    signs outside the conflict is dropped.  Manifest tool: the header
    line between a conflict in unrelated text and a members conflict is
    lost. *)
Lemma outside_lines_not_kept :
  (split_nl Example.blank_lines =
     flat_map Doc.lines_of Example.blank_lines_segments /\
   flat_map Doc.outside Example.blank_lines_segments =
     [txt "a"; []; []; []; txt "b"; []] /\
   exists t,
     written (LibRs.resolve_librs_conflict Example.insertion_order
                (Some Example.blank_lines)) = Some t /\
     split_nl t = [txt "a"; []; txt "b"; []] /\
     ~ Subseq (flat_map Doc.outside Example.blank_lines_segments)
         (split_nl t)) /\
  (split_nl Example.moved_declaration =
     flat_map Doc.lines_of Example.moved_declaration_segments /\
   flat_map Doc.outside Example.moved_declaration_segments =
     [txt "fn f() {}"; txt "  pub mod a;"; txt "tail"; []] /\
   written (LibRs.resolve_librs_conflict Example.insertion_order
              (Some Example.moved_declaration)) =
     Some (Example.lines ["fn f() {}"; "pub mod a;"; "tail"]%string)) /\
  (split_nl Example.stray_separator =
     [txt "a"; txt "======="; txt "b"; txt "<<<<<<< x"; txt "=======";
      txt ">>>>>>> y"; []] /\
   written (LibRs.resolve_librs_conflict Example.insertion_order
              (Some Example.stray_separator)) =
     Some (Example.lines ["a"; "b"]%string)) /\
  (split_nl Example.generic_before_list =
     [txt "keep"; txt "<<<<<<< HEAD"; txt "foo"; txt "======="; txt "bar";
      txt ">>>>>>> x"; txt "[workspace]"; txt "<<<<<<< HEAD";
      Example.members_line ["a"%string]; txt "=======";
      Example.members_line ["b"%string]; txt ">>>>>>> y"; txt "end"; []] /\
   written (Cargo.resolve_cargo_conflict (Some Example.generic_before_list)) =
     Some (Example.lines ["keep"; "end"]%string)).
Proof.
  split; [|repeat split; vm_compute; reflexivity].
  split; [vm_compute; reflexivity|]. split; [vm_compute; reflexivity|].
  eexists. split; [vm_compute; reflexivity|].
  split; [vm_compute; reflexivity|].
  intro H. apply is_subseq_complete in H. vm_compute in H. discriminate H.
Qed.

(** C5, amended.  Declaration tool, on a document made of well-formed
    regions and plain lines: the text written is the clean-up of the
    blank lines (runs of three or more newlines become two) of a list
    of lines in which the lines outside the regions that are no
    declarations all stand, blank lines too, as they are and in their
    order, and in which every other line is a declaration collected; so
    the lines outside the regions that are neither blank nor
    declarations are lines of the text written, in their order.
    Manifest tool, on a manifest made of conflict blocks as in C3, when
    no member has a backslash: take the text outside the blocks, with
    the "ours" text of each generic block in place of the block (with
    listed blocks only, the text outside the blocks).  Where
    [members] stands in it at the head of members lists only, the text
    written is the clean-up of the blank lines of this text with every
    list replaced by the merged block; where it has no [members] and
    there are members, the merged block is put after every workspace
    header.  The text around the lists or the headers is kept as it
    is. *)
Theorem outside_lines_kept :
  forall set_order : list text -> list text,
    (forall l, Permutation (set_order l) l) ->
    (forall (segs : list Doc.segment) (content : text),
        forallb Doc.well_formed segs = true ->
        split_nl content = flat_map Doc.lines_of segs ->
        contains LibRs.start_prefix content = true ->
        exists merged t,
          t = LibRs.ensure_newline (collapse_blank (join_nl merged)) /\
          written (LibRs.resolve_librs_conflict set_order (Some content))
          = Some t /\
          Subseq (filter kept (flat_map Doc.outside segs)) merged /\
          (forall l, In l merged ->
                     In l (filter kept (flat_map Doc.outside segs)) \/
                     In l (flat_map segment_entries segs)) /\
          Subseq (filter (fun l => nonblank l && kept l)
                    (flat_map Doc.outside segs))
            (split_nl t)) /\
    (forall (regs : list Manifest.region) (post : text),
        Manifest.ok regs post = true -> regs <> [] ->
        forallb no_backslash
          (Cargo.all_members (Manifest.text_of regs post)) = true ->
        (forallb Manifest.listed regs = true ->
         Manifest.resolved regs post = Manifest.outside regs post) /\
        (forall (before : text) lists,
            Manifest.resolved regs post =
              manifest_with members_literal before lists ->
            contains (txt "members") before = false ->
            forallb list_ok lists = true ->
            (lists = [] ->
             Cargo.all_members (Manifest.text_of regs post) = [] \/
             contains (txt "[workspace]") before = false) ->
            written
              (Cargo.resolve_cargo_conflict
                 (Some (Manifest.text_of regs post))) =
            Some (collapse_blank
                    (manifest_with
                       (fun _ _ _ =>
                          Cargo.new_members_block
                            (sorted
                               (Cargo.all_members
                                  (Manifest.text_of regs post))))
                       before lists))) /\
        (forall (before : text) (afters : list text),
            Manifest.resolved regs post = with_headers [] before afters ->
            afters <> [] ->
            contains (txt "members") (Manifest.resolved regs post) = false ->
            contains (txt "[workspace]") before = false ->
            forallb (fun a => negb (contains (txt "[workspace]") a)) afters
              = true ->
            Cargo.all_members (Manifest.text_of regs post) <> [] ->
            written
              (Cargo.resolve_cargo_conflict
                 (Some (Manifest.text_of regs post))) =
            Some (collapse_blank
                    (with_headers
                       (nl ::
                        Cargo.new_members_block
                          (sorted
                             (Cargo.all_members
                                (Manifest.text_of regs post))))
                       before afters)))).
Proof.
  intros set_order Hperm. split.
  - intros segs content Hw Hs Hc.
    destruct (@librs_shape set_order Hperm segs content Hw Hs)
      as (H1 & H2 & (k & H3) & H4).
    exists (LibRs.merged_lines set_order
              (LibRs.scan_lines (split_nl content))),
           (LibRs.rewrite set_order content).
    split; [reflexivity|].
    split; [now rewrite librs_runs by exact Hc|].
    split; [|split].
    + rewrite H3.
      rewrite <- (firstn_skipn k (filter kept (flat_map Doc.outside segs)))
        at 1.
      apply Subseq_app_mid.
    + intros l Hl. rewrite H3 in Hl.
      apply in_app_iff in Hl as [Hl|Hl].
      * left. rewrite <- (firstn_skipn k). apply in_or_app. now left.
      * apply in_app_iff in Hl as [Hl|Hl].
        -- right. now apply H2.
        -- left. rewrite <- (firstn_skipn k). apply in_or_app. now right.
    + now apply librs_preservation.
  - intros regs post Hok Hn Hbs.
    pose proof (sorted_no_backslash _ Hbs) as Hsb.
    split; [apply resolved_listed|]. split.
    + intros before lists HK Hb Hl Hnil.
      rewrite manifest_outcome by assumption. rewrite HK.
      destruct lists as [|l lists].
      * unfold manifest_with in *. cbn [flat_map] in *.
        rewrite app_nil_r in *. rewrite place_nothing; [reflexivity|exact Hb|].
        destruct (Hnil eq_refl) as [H|H]; [left; now rewrite H|now right].
      * now rewrite place_members_lists.
    + intros before afters HK Ha Hm Hb Hh Hms.
      rewrite manifest_outcome by assumption. rewrite HK in *.
      rewrite place_members_headers; auto.
      intro Hs. destruct (Cargo.all_members _) as [|m ms]; [congruence|].
      assert (Hi : In m (sorted (m :: ms)))
        by (apply sorted_by_In; now left).
      now rewrite Hs in Hi.
Qed.

Lemma outside_lines_kept_witness :
  (exists merged t,
     t = LibRs.ensure_newline (collapse_blank (join_nl merged)) /\
     written (LibRs.resolve_librs_conflict Example.insertion_order
                (Some Example.blank_lines)) = Some t /\
     Subseq (filter kept
               (flat_map Doc.outside Example.blank_lines_segments)) merged /\
     Subseq (filter (fun l => nonblank l && kept l)
               (flat_map Doc.outside Example.blank_lines_segments))
       (split_nl t)) /\
  written
    (Cargo.resolve_cargo_conflict
       (Some (Manifest.text_of Example.mixed_regions Example.mixed_post))) =
    Some (collapse_blank
            (manifest_with
               (fun _ _ _ =>
                  Cargo.new_members_block
                    (sorted
                       (Cargo.all_members
                          (Manifest.text_of Example.mixed_regions
                             Example.mixed_post))))
               Example.mixed_before Example.mixed_lists)) /\
  written
    (Cargo.resolve_cargo_conflict
       (Some (Manifest.text_of Example.scenario_a_regions []))) =
    Some (collapse_blank
            (with_headers
               (nl ::
                Cargo.new_members_block
                  (sorted
                     (Cargo.all_members
                        (Manifest.text_of Example.scenario_a_regions []))))
               [] [[nl]])).
Proof.
  destruct (@outside_lines_kept Example.insertion_order
              (fun l => Permutation_refl l)) as [HL HC].
  split; [|split].
  - destruct (HL Example.blank_lines_segments Example.blank_lines)
      as (merged & t & E & Hw & H1 & _ & H2);
      [vm_compute; reflexivity|vm_compute; reflexivity
      |vm_compute; reflexivity|].
    exists merged, t. auto.
  - refine (proj1 (proj2 (HC Example.mixed_regions Example.mixed_post
                            _ _ _))
              Example.mixed_before Example.mixed_lists _ _ _ _);
      try (vm_compute; reflexivity); discriminate.
  - refine (proj2 (proj2 (HC Example.scenario_a_regions [] _ _ _))
              [] [[nl]] _ _ _ _ _ _);
      try (vm_compute; reflexivity); discriminate.
Defined.

(** C6.  With a path that does not exist either tool writes nothing,
    prints the error and exits with code 1; a run that reports success
    exits with code 0, and so does every run on a document without the
    start marker, which writes nothing. *)
Theorem exit_codes :
  forall set_order : list text -> list text,
    (Cargo.main None = Outcome [] [NotFound] None (Returns false) /\
     exit_code (Cargo.main None) = 1) /\
    (LibRs.main set_order None = Outcome [] [NotFound] None (Returns false) /\
     exit_code (LibRs.main set_order None) = 1) /\
    (forall file,
        result (Cargo.main file) = Returns true ->
        exit_code (Cargo.main file) = 0) /\
    (forall file,
        result (LibRs.main set_order file) = Returns true ->
        exit_code (LibRs.main set_order file) = 0) /\
    (forall content,
        contains (txt "<<<<<<< ") content = false ->
        exit_code (Cargo.main (Some content)) = 0 /\
        written (Cargo.main (Some content)) = None /\
        exit_code (LibRs.main set_order (Some content)) = 0 /\
        written (LibRs.main set_order (Some content)) = None) /\
    (forall content,
        exit_code (LibRs.main set_order (Some content)) = 0) /\
    (forall content,
        exit_code (Cargo.main (Some content)) = 0 \/
        Cargo.main (Some content) =
        Outcome [] (stderr (Cargo.resolve_cargo_conflict (Some content)) ++
                    [Failure]) None Raises).
Proof.
  intro set_order. repeat split; try reflexivity.
  - intros file H. unfold exit_code. now rewrite H.
  - intros file H. unfold exit_code. now rewrite H.
  - unfold Cargo.main, Cargo.resolve_cargo_conflict. now rewrite H.
  - unfold Cargo.main, Cargo.resolve_cargo_conflict. now rewrite H.
  - unfold LibRs.main, LibRs.resolve_librs_conflict.
    change LibRs.start_prefix with (txt "<<<<<<< "). now rewrite H.
  - unfold LibRs.main, LibRs.resolve_librs_conflict.
    change LibRs.start_prefix with (txt "<<<<<<< "). now rewrite H.
  - intro content. unfold LibRs.main, LibRs.resolve_librs_conflict.
    destruct (negb (contains LibRs.start_prefix content)); reflexivity.
  - intro content. unfold Cargo.main, Cargo.resolve_cargo_conflict.
    destruct (negb (contains (txt "<<<<<<< ") content)); [now left|].
    destruct (Cargo.place_members _ _); [now left|now right].
Qed.

Lemma exit_codes_witness :
  exit_code (Cargo.main (Some Example.scenario_a)) = 0 /\
  exit_code (LibRs.main Example.insertion_order (Some Example.scenario_b)) = 0
  /\ exit_code (Cargo.main (Some (txt "[workspace]"))) = 0.
Proof.
  destruct (exit_codes Example.insertion_order)
    as (_ & _ & H3 & H4 & H5 & _).
  split; [|split].
  - apply (H3 (Some Example.scenario_a)). vm_compute; reflexivity.
  - apply (H4 (Some Example.scenario_b)). vm_compute; reflexivity.
  - apply (H5 (txt "[workspace]")). vm_compute; reflexivity.
Defined.




(** C8, as stated, fails for both tools: the manifest tool writes a text
    that ends without newline when the document does, and the
    declaration tool writes a text that ends with two newlines when the
    last line kept is blank. *)
Lemma trailing_newline_not_exactly_one :
  written (Cargo.resolve_cargo_conflict (Some Example.no_final_newline)) =
    Some (txt "a" ++ nl :: txt "foo") /\
  written (LibRs.resolve_librs_conflict Example.insertion_order
             (Some Example.blank_last_line)) =
    Some (txt "a" ++ [nl; nl]).
Proof. split; vm_compute; reflexivity. Qed.

(** C8, amended.  The text the declaration tool writes ends with a
    newline; the text either tool writes has no three newlines in a
    row, so it ends with two newlines at most; the manifest tool adds no
    newline: its text ends with one exactly when the text before the
    clean-up of the blank lines does. *)
Theorem trailing_newlines :
  forall set_order : list text -> list text,
    (forall content t : text,
        written (LibRs.resolve_librs_conflict set_order (Some content))
        = Some t ->
        endswith_nl t = true /\ contains three_newlines t = false) /\
    (forall content t : text,
        written (Cargo.resolve_cargo_conflict (Some content)) = Some t ->
        contains three_newlines t = false /\
        exists resolved,
          Cargo.place_members (sorted (Cargo.all_members content))
            (Cargo.remove_conflicts content) = Some resolved /\
          endswith_nl t = endswith_nl resolved).
Proof.
  intro set_order. split.
  - intros content t. unfold LibRs.resolve_librs_conflict.
    destruct (negb (contains LibRs.start_prefix content)); [discriminate|].
    cbn [written]. intros [= <-]. unfold LibRs.rewrite.
    apply ensure_newline_end, collapse_blank_no_run.
  - intros content t. unfold Cargo.resolve_cargo_conflict.
    destruct (negb (contains (txt "<<<<<<< ") content)); [discriminate|].
    destruct (Cargo.place_members _ _) as [r|]; [|discriminate].
    cbn [written]. intros [= <-]. split; [apply collapse_blank_no_run|].
    exists r. split; [reflexivity|apply collapse_blank_endswith].
Qed.

Lemma trailing_newlines_witness :
  endswith_nl (txt "a" ++ [nl; nl]) = true /\
  contains three_newlines (txt "a" ++ nl :: txt "foo") = false.
Proof.
  destruct (trailing_newlines Example.insertion_order) as [HL HC].
  split.
  - apply (HL Example.blank_last_line (txt "a" ++ [nl; nl])).
    vm_compute; reflexivity.
  - apply (HC Example.no_final_newline (txt "a" ++ nl :: txt "foo")).
    vm_compute; reflexivity.
Defined.

(** C9, as stated, fails: of two members lists in one block the
    extractor reads the first; "b" of the second list is not in its
    result. *)
Lemma second_literal_ignored :
  Example.two_literals =
    members_literal (txt " ") (txt " ") (Cargo.quote (txt "a")) ++
    nl :: members_literal (txt " ") (txt " ") (Cargo.quote (txt "b")) /\
  Cargo.extract_members_from_block Example.two_literals = [txt "a"].
Proof. split; vm_compute; reflexivity. Qed.

(** C9, amended.  The extractor reads the first members list of the
    block only: what follows its closing bracket, other lists included,
    adds nothing to the result. *)
Theorem first_literal_only :
  forall pre ws1 ws2 body rest : text,
    contains (txt "members") pre = false ->
    ends_line pre = true ->
    forallb is_space ws1 = true ->
    forallb is_space ws2 = true ->
    contains (txt "]") body = false ->
    Cargo.extract_members_from_block
      (pre ++ members_literal ws1 ws2 body ++ rest) = quoted_strings body /\
    Cargo.extract_members_from_block
      (pre ++ members_literal ws1 ws2 body ++ rest) =
    Cargo.extract_members_from_block (pre ++ members_literal ws1 ws2 body).
Proof.
  intros pre ws1 ws2 body rest H1 H2 H3 H4 H5.
  pose proof (@extract_first_literal pre ws1 ws2 body rest H1 H2 H3 H4 H5)
    as E.
  pose proof (@extract_first_literal pre ws1 ws2 body [] H1 H2 H3 H4 H5)
    as E0.
  rewrite app_nil_r in E0. now rewrite E, E0.
Qed.

Lemma first_literal_only_witness :
  Cargo.extract_members_from_block
    ([] ++ members_literal (txt " ") (txt " ") (Cargo.quote (txt "a")) ++
     nl :: members_literal (txt " ") (txt " ") (Cargo.quote (txt "b"))) =
  quoted_strings (Cargo.quote (txt "a")).
Proof.
  apply (@first_literal_only [] (txt " ") (txt " ") (Cargo.quote (txt "a"))
           (nl :: members_literal (txt " ") (txt " ")
                    (Cargo.quote (txt "b"))));
    vm_compute; reflexivity.
Defined.

(** C10: with a member that has a backslash the text put in place of
    the two members lists is not the merged block: [re.sub] reads the
    block as a template and writes a tab for the backslash and the
    letter. *)
Theorem block_changed_by_template :
  Cargo.all_members Example.backslash = [txt "a\tb"] /\
  written (Cargo.resolve_cargo_conflict (Some Example.backslash)) =
    Some Example.backslash_written /\
  contains (Cargo.new_members_block [txt "a\tb"]) Example.backslash_written
  = false.
Proof. repeat split; vm_compute; reflexivity. Qed.
